(** * LAN-SHELL: a shallow embedding of [server.js]

    The development follows the layout of the server: JavaScript string
    primitives, the POSIX [path] module, the path sandbox, the archive
    inspector, the file store and its endpoints, the git workflow and the
    terminal session multiplexer.  JavaScript strings are sequences of code
    units; they are modelled as lists of 8-bit characters. *)

From Stdlib Require Import Ascii String Strings.Byte ZArith NArith QArith Qabs Lia.
From Stdlib Require Import DecimalString.
From stdpp Require Import base option list gmap strings.

Set Default Proof Using "Type".
Local Open Scope list_scope.

Abbreviation str := (list ascii).
Notation "$ s" := (list_ascii_of_string s%string) (at level 1, format "$ s").

(** ** JavaScript string primitives *)

Module Js.

Definition chr_eqb (a b : ascii) : bool := Ascii.eqb a b.

Fixpoint str_eqb (a b : str) : bool :=
  match a, b with
  | [], [] => true
  | x :: a', y :: b' => chr_eqb x y && str_eqb a' b'
  | _, _ => false
  end.

(** [s.startsWith(p)] *)
Fixpoint startsWith (s p : str) {struct p} : bool :=
  match p, s with
  | [], _ => true
  | x :: p', y :: s' => chr_eqb x y && startsWith s' p'
  | _ :: _, [] => false
  end.

(** [s.endsWith(p)] *)
Definition endsWith (s p : str) : bool := startsWith (rev s) (rev p).

(** [s.split(c)] for a one-character separator: never the empty list. *)
Fixpoint split (sep : ascii) (s : str) : list str :=
  match s with
  | [] => [[]]
  | c :: s' =>
      if chr_eqb c sep then [] :: split sep s'
      else match split sep s' with
           | seg :: segs => (c :: seg) :: segs
           | [] => [[c]]
           end
  end.

(** [xs.join(sep)] *)
Fixpoint join (sep : str) (xs : list str) : str :=
  match xs with
  | [] => []
  | [x] => x
  | x :: rest => x ++ sep ++ join sep rest
  end.

(** Truthiness of a string: [Boolean(s)]. *)
Definition truthy (s : str) : bool :=
  match s with [] => false | _ => true end.

(** [xs.filter(Boolean)] on an array of strings. *)
Definition filterBoolean (xs : list str) : list str := List.filter truthy xs.

(** White space removed by [trim], within the 8-bit range: TAB, LF, VT,
    FF, CR, SPACE and NBSP. *)
Definition isWhiteSpace (c : ascii) : bool :=
  let n := nat_of_ascii c in
  (Nat.leb 9 n && Nat.leb n 13) || Nat.eqb n 32 || Nat.eqb n 160.

Fixpoint trimStart (s : str) : str :=
  match s with
  | c :: s' => if isWhiteSpace c then trimStart s' else s
  | [] => []
  end.

Definition trimEnd (s : str) : str := rev (trimStart (rev s)).
Definition trim (s : str) : str := trimEnd (trimStart s).

(** [s.toLowerCase()] on 8-bit code units: the ASCII capitals, and the
    Latin-1 capitals but for the multiplication sign. *)
Definition lowerChar (c : ascii) : ascii :=
  let n := nat_of_ascii c in
  if (Nat.leb 65 n && Nat.leb n 90)
     || (Nat.leb 192 n && Nat.leb n 222 && negb (Nat.eqb n 215))
  then ascii_of_nat (n + 32) else c.
Definition toLowerCase (s : str) : str := map lowerChar s.

(** [s.indexOf(c, from)]: [None] stands for [-1]. *)
Fixpoint indexOf_from0 (c : ascii) (s : str) : option nat :=
  match s with
  | [] => None
  | x :: s' => if chr_eqb x c then Some 0
               else match indexOf_from0 c s' with
                    | Some i => Some (S i)
                    | None => None
                    end
  end.
Definition indexOf (c : ascii) (s : str) (from : nat) : option nat :=
  match indexOf_from0 c (drop from s) with
  | Some i => Some (from + i)
  | None => None
  end.

(** [s.slice(i)] for a non-negative index. *)
Definition slice_from (s : str) (i : nat) : str := drop i s.

Fixpoint dropWhileB (f : ascii -> bool) (s : str) : str :=
  match s with
  | c :: s' => if f c then dropWhileB f s' else s
  | [] => []
  end.

Definition LF : ascii := ascii_of_nat 10.
Definition ESC : ascii := ascii_of_nat 27.

(** [e?.message || fallback] *)
Definition orElse (s fallback : str) : str :=
  if truthy s then s else fallback.

Definition digitVal (c : ascii) : option Z :=
  let n := nat_of_ascii c in
  if Nat.leb 48 n && Nat.leb n 57 then Some (Z.of_nat (n - 48)) else None.

Fixpoint digitsPrefix (s : str) (acc : option Z) : option Z :=
  match s with
  | c :: s' =>
      match digitVal c with
      | Some d => digitsPrefix s' (Some (10 * default 0%Z acc + d)%Z)
      | None => acc
      end
  | [] => acc
  end.

(** [Number.parseInt(s, 10)]; [None] stands for [NaN]. *)
Definition parseInt10 (s : str) : option Z :=
  match trimStart s with
  | c :: r =>
      if chr_eqb c "-"%char then Z.opp <$> digitsPrefix r None
      else if chr_eqb c "+"%char then digitsPrefix r None
      else digitsPrefix (c :: r) None
  | [] => None
  end.

(** [Number.parseInt(s, 10) || d] *)
Definition parseIntOr (s : str) (d : Z) : Z :=
  match parseInt10 s with
  | Some z => if Z.eqb z 0 then d else z
  | None => d
  end.

(** The non-empty pieces of [s.trim().split(/\s+/)]. *)
Fixpoint wordsAux (s : str) (cur : str) : list str :=
  match s with
  | [] => [rev cur]
  | c :: s' =>
      if isWhiteSpace c then rev cur :: wordsAux s' []
      else wordsAux s' (c :: cur)
  end.
Definition words (s : str) : list str := filterBoolean (wordsAux s []).

(** [String(n)] for a non-negative integer. *)
Definition decimal (n : N) : str :=
  list_ascii_of_string (NilEmpty.string_of_uint (N.to_uint n)).

(** [s.includes(p)] *)
Fixpoint includes (s p : str) : bool :=
  startsWith s p ||
  match s with
  | [] => false
  | _ :: s' => includes s' p
  end.

End Js.

(** ** The POSIX flavour of Node's [path] module *)

Module Path.
Import Js.

Definition sep : ascii := "/"%char.

Definition isDot (seg : str) : bool := str_eqb seg $".".
Definition isDotDot (seg : str) : bool := str_eqb seg $"..".

(** One step of [normalizeString]; [acc] is the stack of kept segments,
    innermost first. *)
Definition normStep (allowAboveRoot : bool) (acc : list str) (seg : str)
  : list str :=
  if negb (truthy seg) || isDot seg then acc
  else if isDotDot seg then
    match acc with
    | top :: below =>
        if isDotDot top then (if allowAboveRoot then seg :: acc else acc)
        else below
    | [] => if allowAboveRoot then [seg] else []
    end
  else seg :: acc.

Definition normalizeSegments (allowAboveRoot : bool) (segs : list str)
  : list str :=
  rev (fold_left (normStep allowAboveRoot) segs []).

Definition normalizeString (p : str) (allowAboveRoot : bool) : str :=
  join [sep] (normalizeSegments allowAboveRoot (split sep p)).

(** A segment of a normalized path: not empty, without separator. *)
Definition clean (seg : str) : Prop := seg <> [] /\ ~ In sep seg.

Definition isAbsolute (p : str) : bool :=
  match p with c :: _ => chr_eqb c sep | [] => false end.

(** The right-to-left loop of [path.resolve]: [paths] lists the arguments
    from the last to the first, the working directory at the end. *)
Fixpoint resolveLoop (paths : list str) (resolved : str) : str * bool :=
  match paths with
  | [] => (resolved, false)
  | p :: rest =>
      if truthy p then
        let resolved' := p ++ [sep] ++ resolved in
        if isAbsolute p then (resolved', true) else resolveLoop rest resolved'
      else resolveLoop rest resolved
  end.

Section WithCwd.
(** [process.cwd()] *)
Variable cwd : str.

Definition resolve (args : list str) : str :=
  let '(rp, abs) := resolveLoop (rev args ++ [cwd]) [] in
  let n := normalizeString rp (negb abs) in
  if abs then sep :: n else if truthy n then n else $".".

(** The non-empty segments of the resolved form of [p]. *)
Definition segments (p : str) : list str :=
  filterBoolean (split sep (resolve [p])).

(** [path.relative(from, to)]: climb out of what is left of [from] once
    the common leading segments are dropped, then descend into [to]. *)
Fixpoint dropCommon (a b : list str) : list str * list str :=
  match a, b with
  | x :: a', y :: b' => if str_eqb x y then dropCommon a' b' else (a, b)
  | _, _ => (a, b)
  end.

Definition relative (from to : str) : str :=
  let '(up, down) := dropCommon (segments from) (segments to) in
  join [sep] (map (fun _ => $"..") up ++ down).
End WithCwd.

(** [path.normalize] *)
Definition normalize (p : str) : str :=
  if truthy p then
    let abs := isAbsolute p in
    let trailing := endsWith p [sep] in
    let n := normalizeString p (negb abs) in
    if truthy n then
      let n' := if trailing then n ++ [sep] else n in
      if abs then sep :: n' else n'
    else if abs then [sep]
    else if trailing then $"./" else $"."
  else $".".

(** [path.join] *)
Definition join_paths (args : list str) : str :=
  match filterBoolean args with
  | [] => $"."
  | parts => normalize (join [sep] parts)
  end.

(** [path.dirname]: scan from the end down to index 1, skip the trailing
    separators, then the last segment, and cut at the separator found. *)
Definition dirname (p : str) : str :=
  match p with
  | [] => $"."
  | c0 :: rest =>
      let hasRoot := chr_eqb c0 sep in
      let r1 := dropWhileB (fun c => chr_eqb c sep) (rev rest) in
      let r2 := dropWhileB (fun c => negb (chr_eqb c sep)) r1 in
      match r2 with
      | [] => if hasRoot then [sep] else $"."
      | _ :: r3 =>
          if hasRoot && Nat.eqb (length r3) 0 then $"//"
          else c0 :: rev r3
      end
  end.

End Path.

(** ** Configuration and the path sandbox *)

Record Config := {
  ROOT : str;               (* [process.env.ALLOW_ROOT || path.resolve(HOME || '/')] *)
  processCwd : str;         (* [process.cwd()] *)
  pid : N;                  (* [process.pid] *)
  HISTORY_MAX_CHARS : nat;
  MAX_UPLOAD_BYTES : N
}.

Module Sandbox.
Import Js.

Section WithConfig.
Variable cfg : Config.

Definition resolve (args : list str) : str :=
  Path.resolve (processCwd cfg) args.

Definition withinRoot (targetPath : str) : bool :=
  let real := resolve [targetPath] in
  startsWith real (resolve [ROOT cfg]).

Record Resolved := {
  ok : bool;
  error : option str;
  target : option str;
  raw : str
}.

Definition resolvePathFromQuery (rawParam : option str) : Resolved :=
  let p := match rawParam with Some r => r | None => $"." end in
  let target := resolve [ROOT cfg; p] in
  if negb (withinRoot target)
  then {| ok := false; error := Some $"out of root"; target := None; raw := p |}
  else {| ok := true; error := None; target := Some target; raw := p |}.

Definition isRootPath (p : str) : bool :=
  str_eqb (resolve [p]) (resolve [ROOT cfg]).

(** Containment as the specification words it: the canonical form of
    [p] lies inside the root directory when the root's segments lead
    the segments of [p]. *)
Definition liesInsideRoot (p : str) : bool :=
  let rootSegs := Path.segments (processCwd cfg) (ROOT cfg) in
  let segs := Path.segments (processCwd cfg) p in
  bool_decide (take (length rootSegs) segs = rootSegs).

End WithConfig.
End Sandbox.

(** ** Archive entries *)

Module Archive.
Import Js.

Definition NUL : ascii := ascii_of_nat 0.
Definition isNul (c : ascii) : bool := chr_eqb c NUL.
Definition backslash : ascii := ascii_of_nat 92.

Fixpoint stripDotSlash (p : str) : str :=
  match p with
  | c1 :: c2 :: rest =>
      if chr_eqb c1 "."%char && chr_eqb c2 "/"%char
      then stripDotSlash rest else p
  | _ => p
  end.

Definition normalizeEntryPath (entry : str) : str :=
  let raw := List.filter (fun c => negb (isNul c)) entry in
  let p := map (fun c => if chr_eqb c backslash then "/"%char else c) raw in
  stripDotSlash p.

Definition isLetter (c : ascii) : bool :=
  let n := nat_of_ascii c in
  (Nat.leb 65 n && Nat.leb n 90) || (Nat.leb 97 n && Nat.leb n 122).

(** The test [/^[a-zA-Z]:\//]. *)
Definition hasDrivePrefix (p : str) : bool :=
  match p with
  | c1 :: c2 :: c3 :: _ =>
      isLetter c1 && chr_eqb c2 ":"%char && chr_eqb c3 "/"%char
  | _ => false
  end.

Definition isSafeArchiveEntry (entry : str) : bool :=
  let p := normalizeEntryPath entry in
  if negb (truthy p) then false
  else if startsWith p $"/" then false
  else if hasDrivePrefix p then false
  else
    let segs := filterBoolean (split "/"%char p) in
    if existsb (fun s => str_eqb s $"..") segs then false
    else true.

Definition detectArchiveType (filePath : str) : option str :=
  let p := toLowerCase filePath in
  if endsWith p $".zip" then Some $"zip"
  else if endsWith p $".tar" then Some $"tar"
  else if endsWith p $".tar.gz" || endsWith p $".tgz" then Some $"targz"
  else if endsWith p $".tar.bz2" || endsWith p $".tbz2" then Some $"tarbz2"
  else if endsWith p $".tar.xz" || endsWith p $".txz" then Some $"tarxz"
  else None.

(** The entry condition of the specification, on a normalized entry:
    empty, absolute, led by a drive letter ([X:/]), or with a segment
    [..]. *)
Definition unsafeNormalized (p : str) : Prop :=
  p = [] \/
  (exists r, p = "/"%char :: r) \/
  (exists c r, isLetter c = true /\ p = c :: ":"%char :: "/"%char :: r) \/
  In $".." (split "/"%char p).

(** The normalization as the specification words it.  Backslashes are
    unified to [/] and NUL bytes are dropped, character by character;
    then every leading [./] is taken off. *)
Inductive Unified : str -> str -> Prop :=
| unified_nil : Unified [] []
| unified_nul e u : Unified e u -> Unified (NUL :: e) u
| unified_backslash e u : Unified e u -> Unified (backslash :: e) ("/"%char :: u)
| unified_keep c e u :
    c <> NUL -> c <> backslash -> Unified e u -> Unified (c :: e) (c :: u).

Inductive Stripped : str -> str -> Prop :=
| stripped_here p : startsWith p $"./" = false -> Stripped p p
| stripped_more u p : Stripped u p -> Stripped ("."%char :: "/"%char :: u) p.

Definition Normalized (entry p : str) : Prop :=
  exists u, Unified entry u /\ Stripped u p.

End Archive.

(** ** JSON values and HTTP responses *)

#[local] Unset Elimination Schemes.
Inductive json :=
| JNull
| JBool (b : bool)
| JNum (q : Q)
| JStr (s : str)
| JArr (xs : list json)
| JObj (fields : list (str * json)).
#[local] Set Elimination Schemes.

Record Response := { status : nat; body : json }.

Definition jnat (n : nat) : json := JNum (inject_Z (Z.of_nat n)).
Definition jopt (o : option str) : json :=
  match o with Some s => JStr s | None => JNull end.

(** [res.status(code).json({ error: msg })] *)
Definition sendError (code : nat) (msg : str) : Response :=
  {| status := code; body := JObj [($"error", JStr msg)] |}.

(** [res.json(obj)] *)
Definition sendJson (obj : list (str * json)) : Response :=
  {| status := 200; body := JObj obj |}.

(** ** The file store

    Absolute paths map to regular files (content and modification time)
    and directories.  An operation fails when the kind of an entry forbids
    it; permissions, quotas and links are outside the model. *)

Module Fs.
Import Js.

Inductive node :=
| File (content : list byte) (mtimeMs : Q)
| Dir.

Abbreviation FS := (gmap str node).

Record Stats := {
  isFile : bool;
  isDirectory : bool;
  size : nat;
  mtimeMs : Q
}.

Inductive errno := ENOENT | EISDIR | ENOTDIR | EEXIST.

Definition describe (e : errno) : str :=
  match e with
  | ENOENT => $"ENOENT: no such file or directory"
  | EISDIR => $"EISDIR: illegal operation on a directory"
  | ENOTDIR => $"ENOTDIR: not a directory"
  | EEXIST => $"EEXIST: file already exists"
  end.

(** The [message] of the error thrown by a failed call. *)
Definition message (e : errno) (syscall p : str) : str :=
  describe e ++ $", " ++ syscall ++ $" '" ++ p ++ $"'".

Definition existsSync (fs : FS) (p : str) : bool :=
  match fs !! p with Some _ => true | None => false end.

Definition statSync (fs : FS) (p : str) : str + Stats :=
  match fs !! p with
  | Some (File c m) =>
      inr {| isFile := true; isDirectory := false; size := length c; mtimeMs := m |}
  | Some Dir =>
      inr {| isFile := false; isDirectory := true; size := 0; mtimeMs := 0 |}
  | None => inl (message ENOENT $"stat" p)
  end.

(** The directories that [mkdir -p] visits, outermost first. *)
Definition ancestors (p : str) : list str :=
  let segs := filterBoolean (split "/"%char p) in
  map (fun n => "/"%char :: join $"/" (take n segs)) (seq 1 (length segs)).

Fixpoint mkdirs (dirs : list str) (fs : FS) : option str * FS :=
  match dirs with
  | [] => (None, fs)
  | d :: rest =>
      match fs !! d with
      | Some (File _ _) => (Some (message EEXIST $"mkdir" d), fs)
      | Some Dir => mkdirs rest fs
      | None => mkdirs rest (<[d := Dir]> fs)
      end
  end.

(** [fs.mkdirSync(p, { recursive: true })]; the first component is the
    message of the error thrown, if any. *)
Definition mkdirSyncRecursive (fs : FS) (p : str) : option str * FS :=
  mkdirs (ancestors p) fs.

Definition unlinkSync (fs : FS) (p : str) : str + FS :=
  match fs !! p with
  | Some (File _ _) => inr (delete p fs)
  | Some Dir => inl (message EISDIR $"unlink" p)
  | None => inl (message ENOENT $"unlink" p)
  end.

(** [fs.writeFileSync(p, data)] at time [now]. *)
Definition writeFileSync (fs : FS) (now : Q) (p : str) (data : list byte)
  : str + FS :=
  match fs !! p with
  | Some Dir => inl (message EISDIR $"open" p)
  | _ => inr (<[p := File data now]> fs)
  end.

(** [fs.renameSync(a, b)] for a regular file [a]: one step, the entry
    moves with its content and time. *)
Definition renameSync (fs : FS) (a b : str) : str + FS :=
  match fs !! a with
  | Some (File c m) =>
      match fs !! b with
      | Some Dir => inl (message EISDIR $"rename" a)
      | _ => inr (<[b := File c m]> (delete a fs))
      end
  | Some Dir => inl (message ENOTDIR $"rename" a)
  | None => inl (message ENOENT $"rename" a)
  end.

(** [k] is [p] or lies below it. *)
Definition isAtOrBelow (p k : str) : bool :=
  str_eqb k p || startsWith k (p ++ $"/").

(** [fs.rmSync(p, { recursive: true, force: true })] *)
Definition rmSyncRecursive (fs : FS) (p : str) : FS :=
  filter (fun kv => isAtOrBelow p kv.1 = false) fs.

(** [fs.rmSync(p, { force: true })] *)
Definition rmSyncForce (fs : FS) (p : str) : str + FS :=
  match fs !! p with
  | Some Dir => inl (message EISDIR $"rm" p)
  | _ => inr (delete p fs)
  end.

(** A chunk accepted by a write stream open on [p] reaches the file. *)
Definition appendSync (fs : FS) (now : Q) (p : str) (data : list byte) : FS :=
  match fs !! p with
  | Some (File c _) => <[p := File (c ++ data) now]> fs
  | _ => fs
  end.

(** [unlinkQuiet]: errors are swallowed. *)
Definition unlinkQuiet (fs : FS) (p : str) : FS :=
  if truthy p && existsSync fs p then
    match unlinkSync fs p with
    | inr fs' => fs'
    | inl _ => fs
    end
  else fs.

End Fs.

(** ** The world a request handler runs in

    A handler reads and writes the file store, reads the clock and spawns
    external tools ([git], [tar], [unzip]).  What a tool answers, and what
    it does to the store, is a parameter; every invocation is logged. *)

Inductive ExecResult :=
| ExecOk (stdout stderr : str)
| ExecErr (message stdout stderr : str).

Record World := {
  fs : Fs.FS;
  now : Q;
  spawned : list (str * list str)
}.

Definition Tool := str -> list str -> Fs.FS -> ExecResult * Fs.FS.

Definition M (A : Type) : Type := World -> A * World.

#[global] Instance M_ret : MRet M := fun A (a : A) w => (a, w).
#[global] Instance M_bind : MBind M :=
  fun A B (k : A -> M B) (m : M A) w => let '(a, w') := m w in k a w'.

Definition getFs : M Fs.FS := fun w => (fs w, w).
Definition putFs (f : Fs.FS) : M unit :=
  fun w => (tt, {| fs := f; now := now w; spawned := spawned w |}).
Definition getNow : M Q := fun w => (now w, w).

(** [execFileAsync(file, args)] *)
Definition execFileAsync (tool : Tool) (file : str) (args : list str)
  : M ExecResult :=
  fun w =>
    let '(r, fs') := tool file args (fs w) in
    (r, {| fs := fs'; now := now w; spawned := spawned w ++ [(file, args)] |}).

(** Unfolds the binds of a handler. *)
Ltac unfold_monad :=
  unfold mbind, M_bind, mret, M_ret, getFs, putFs, getNow in *.

(** ** Archive extraction: [POST /api/archive/extract] *)

Module ArchiveApi.
Import Js Sandbox Archive.

Record ExtractBody := {
  path : option str;
  dest : option str;
  overwrite : bool          (* [Boolean(body.overwrite)] *)
}.

Section Handlers.
Variable cfg : Config.
Variable tool : Tool.

Definition listCommand (filePath type : str) : option (str * list str) :=
  if str_eqb type $"zip" then Some ($"unzip", [$"-Z1"; filePath])
  else if str_eqb type $"tar" then Some ($"tar", [$"-tf"; filePath])
  else if str_eqb type $"targz" then Some ($"tar", [$"-tzf"; filePath])
  else if str_eqb type $"tarbz2" then Some ($"tar", [$"-tjf"; filePath])
  else if str_eqb type $"tarxz" then Some ($"tar", [$"-tJf"; filePath])
  else None.

(** [String(stdout).split('\n').map(s => s.trim()).filter(Boolean)] *)
Definition parseListing (stdout : str) : list str :=
  filterBoolean (map trim (split LF stdout)).

Definition listArchiveEntries (filePath type : str) : M (str + list str) :=
  match listCommand filePath type with
  | Some (file, args) =>
      r ← execFileAsync tool file args;
      match r with
      | ExecOk out _ => mret (inr (parseListing out))
      | ExecErr msg _ _ => mret (inl msg)
      end
  | None => mret (inr [])
  end.

Definition extractCommand (type archive destDir : str) (ow : bool)
  : option (str * list str) :=
  let common := [$"--no-same-owner"; $"--no-same-permissions"; $"-C"; destDir] in
  let base := $"-x" :: (if ow then [$"--overwrite"] else [$"--keep-old-files"]) in
  if str_eqb type $"zip" then
    Some ($"unzip", if ow then [$"-o"; archive; $"-d"; destDir]
                    else [$"-n"; archive; $"-d"; destDir])
  else if str_eqb type $"tar" then
    Some ($"tar", base ++ [$"-f"; archive] ++ common)
  else if str_eqb type $"targz" then
    Some ($"tar", base ++ [$"-z"; $"-f"; archive] ++ common)
  else if str_eqb type $"tarbz2" then
    Some ($"tar", base ++ [$"-j"; $"-f"; archive] ++ common)
  else if str_eqb type $"tarxz" then
    Some ($"tar", base ++ [$"-J"; $"-f"; archive] ++ common)
  else None.

(** What the handler knows once the archive has been listed. *)
Record Listed := {
  l_type : str;
  l_archive : str;
  l_dest : str;
  l_entries : list str
}.

(** The handler up to and including the listing of the entries. *)
Definition inspect (body : ExtractBody) : M (Response + Listed) :=
  let ar := resolvePathFromQuery cfg (path body) in
  if negb (ok ar) then mret (inl (sendError 403 (default [] (error ar)))) else
  let arTarget := default [] (target ar) in
  let dst := resolvePathFromQuery cfg (dest body) in
  if negb (ok dst) then mret (inl (sendError 403 (default [] (error dst)))) else
  let destTarget := default [] (target dst) in
  match detectArchiveType arTarget with
  | None => mret (inl (sendError 415 $"unsupported archive type"))
  | Some type =>
  store ← getFs;
  match Fs.statSync store arTarget with
  | inl msg => mret (inl (sendError 400 (orElse msg $"archive invalid")))
  | inr st =>
  if negb (Fs.isFile st) then mret (inl (sendError 400 $"not a file")) else
  prepared ←
    (if Fs.existsSync store destTarget then
       match Fs.statSync store destTarget with
       | inl msg => mret (Some (orElse msg $"dest invalid"))
       | inr st =>
           if negb (Fs.isDirectory st)
           then mret (Some $"dest is not a directory") else mret None
       end
     else
       let '(err, store') := Fs.mkdirSyncRecursive store destTarget in
       _ ← putFs store';
       mret (match err with
             | Some msg => Some (orElse msg $"dest invalid")
             | None => None
             end));
  match prepared with
  | Some msg => mret (inl (sendError 400 msg))
  | None =>
  listed ← listArchiveEntries arTarget type;
  match listed with
  | inl msg =>
      mret (inl (sendError 400 ($"cannot inspect archive safely: " ++ msg)))
  | inr entries =>
      mret (inr {| l_type := type; l_archive := arTarget;
                   l_dest := destTarget; l_entries := entries |})
  end end end end.

(** The safety gate and the extraction itself. *)
Definition checkAndExtract (ow : bool) (l : Listed) : M Response :=
  let entries := l_entries l in
  if Nat.eqb (length entries) 0 then mret (sendError 400 $"empty archive")
  else if N.ltb 20000 (N.of_nat (length entries))
  then mret (sendError 413 $"too many entries")
  else
    match find (fun x => negb (isSafeArchiveEntry x)) entries with
    | Some (c :: rest) =>
        mret (sendError 400 ($"unsafe entry path: " ++ c :: rest))
    | _ =>
        r ← match extractCommand (l_type l) (l_archive l) (l_dest l) ow with
            | Some (file, args) => execFileAsync tool file args
            | None => mret (ExecOk [] [])
            end;
        match r with
        | ExecErr msg _ _ => mret (sendError 500 (orElse msg $"extract failed"))
        | ExecOk _ _ =>
            mret (sendJson [($"ok", JBool true); ($"type", JStr (l_type l));
                            ($"archive", JStr (l_archive l));
                            ($"dest", JStr (l_dest l));
                            ($"entries", jnat (length entries))])
        end
    end.

Definition archiveExtract (body : ExtractBody) : M Response :=
  r ← inspect body;
  match r with
  | inl resp => mret resp
  | inr l => checkAndExtract (overwrite body) l
  end.

End Handlers.
End ArchiveApi.

(** ** File endpoints: upload, text write, delete *)

Module FileApi.
Import Js Sandbox.

Definition MAX_TEXT_FILE_BYTES : N := 2 * 1024 * 1024.

Record NameCheck := {
  n_ok : bool;
  n_error : option str;
  n_name : option str
}.

Definition nameError (msg : str) : NameCheck :=
  {| n_ok := false; n_error := Some msg; n_name := None |}.

Definition validateFileName (name : option str) : NameCheck :=
  let n := trim (default [] name) in
  if negb (truthy n) then nameError $"name required"
  else if str_eqb n $"." || str_eqb n $".." then nameError $"invalid name"
  else if includes n $"/" || includes n [Archive.backslash]
  then nameError $"name must not contain path separators"
  else if includes n [Archive.NUL] then nameError $"invalid name"
  else {| n_ok := true; n_error := None; n_name := Some n |}.

(** UTF-8 encoding of a string of 8-bit code units. *)
Definition utf8Char (c : ascii) : list byte :=
  let n := nat_of_ascii c in
  if Nat.ltb n 128 then [byte_of_ascii c]
  else [byte_of_ascii (ascii_of_nat (192 + n / 64));
        byte_of_ascii (ascii_of_nat (128 + n mod 64))].
Definition utf8 (s : str) : list byte := flat_map utf8Char s.

(** The request stream of an upload: the chunks received, then how the
    stream stopped. *)
Inductive StreamEnd :=
| End
| Aborted
| StreamError (msg : str).

(** Which listener hears first of a request that the handler destroys.
    [done] settles the promise with the first listener that calls it and
    ignores the later ones.  [req.destroy(err)] emits ['aborted'] from
    within the call on Node 16 and later, since the request has not ended;
    a runtime that does not lets an ['error'] listener, which hears [err],
    call [done] first. *)
Inductive Destroyed :=
| AbortedFirst
| ErrorFirst.

Record Upload := {
  chunks : list (list byte);
  ending : StreamEnd;
  destroyed : Destroyed
}.

Definition bytesOf (cs : list (list byte)) : N :=
  N.of_nat (length (concat cs)).

Record RawQuery := {
  q_dir : option str;
  q_name : option str;
  q_overwrite : option str
}.

Record PutBody := {
  p_path : option str;
  p_content : option str;           (* [None]: [typeof content !== 'string'] *)
  (** [Number.parseFloat(body.mtimeMs)]: [None] when the field is
      [undefined] or [null], [Some None] when the result is not finite. *)
  p_mtimeMs : option (option Q)
}.

Record DeleteBody := {
  d_path : option str;
  d_others : list (str * json)      (* every other field of the body *)
}.

Section Handlers.
Variable cfg : Config.

(** The ['data'] listener of [streamToFileWithLimit], chunk by chunk;
    the flag tells that the limit was crossed and both streams were
    destroyed. *)
Fixpoint pump (limitBytes : N) (tmpPath : str) (cs : list (list byte))
    (written : N) (now : Q) (store : Fs.FS) : bool * N * Fs.FS :=
  match cs with
  | [] => (false, written, store)
  | chunk :: rest =>
      let written' := (written + N.of_nat (length chunk))%N in
      if N.ltb limitBytes written' then (true, written', store)
      else pump limitBytes tmpPath rest written' now
             (Fs.appendSync store now tmpPath chunk)
  end.

(** [streamToFileWithLimit(req, tmpPath, limitBytes)]: the promise
    rejects with a message or resolves with the byte count. *)
Definition streamToFileWithLimit (up : Upload) (tmpPath : str)
    (limitBytes : N) : M (str + N) :=
  store ← getFs;
  t ← getNow;
  match Fs.writeFileSync store t tmpPath [] with
  | inl msg => mret (inl msg)
  | inr opened =>
      let '(over, written, store') :=
        pump limitBytes tmpPath (chunks up) 0 t opened in
      let failed (msg : str) : M (str + N) :=
        _ ← putFs (Fs.unlinkQuiet store' tmpPath); mret (inl msg) in
      if over then
        (* [req.destroy(err); out.destroy(err)] with the message
           [payload too large] *)
        match destroyed up with
        | AbortedFirst => failed $"client aborted"
        | ErrorFirst => failed $"payload too large"
        end
      else match ending up with
           | End => _ ← putFs store'; mret (inr written)
           | Aborted => failed $"client aborted"
           | StreamError msg => failed msg
           end
  end.

Definition overwriteFlag (q : option str) : bool :=
  let v := trim (default [] q) in
  str_eqb v $"1" || str_eqb (toLowerCase v) $"true".

Definition tooLargeMessage : str :=
  $"file too large (>" ++ decimal (MAX_UPLOAD_BYTES cfg) ++ $" bytes)".

(** The checks of [POST /api/upload-raw] that precede the transfer;
    they yield the target path. *)
Definition checkUpload (q : RawQuery) (store : Fs.FS) : Response + str :=
  let dir := resolvePathFromQuery cfg (q_dir q) in
  if negb (ok dir) then inl (sendError 403 (default [] (error dir))) else
  let dirTarget := default [] (target dir) in
  let nm := validateFileName (q_name q) in
  if negb (n_ok nm) then inl (sendError 400 (default [] (n_error nm))) else
  match Fs.statSync store dirTarget with
  | inl msg => inl (sendError 400 (orElse msg $"dir invalid"))
  | inr st =>
      if negb (Fs.isDirectory st)
      then inl (sendError 400 $"dir is not a directory") else
      let target := Path.join_paths [dirTarget; default [] (n_name nm)] in
      if negb (withinRoot cfg target) then inl (sendError 403 $"out of root")
      else if Fs.existsSync store target && negb (overwriteFlag (q_overwrite q))
      then inl (sendError 409 $"file exists")
      else inr target
  end.

Definition uploadTmp (target : str) : str :=
  target ++ $"." ++ decimal (pid cfg) ++ $".upload.tmp".

(** The [catch] clause of the transfer. *)
Definition uploadFailed (tmp msg : str) : M Response :=
  store ← getFs;
  _ ← putFs (Fs.unlinkQuiet store tmp);
  if includes msg $"payload too large"
  then mret (sendError 413 tooLargeMessage)
  else mret (sendError 500 (orElse msg $"upload failed")).

(** The transfer: temp file, stream, rename. *)
Definition transfer (target : str) (up : Upload) : M Response :=
  let tmp := uploadTmp target in
  store ← getFs;
  _ ← putFs (Fs.unlinkQuiet store tmp);
  r ← streamToFileWithLimit up tmp (MAX_UPLOAD_BYTES cfg);
  match r with
  | inl msg => uploadFailed tmp msg
  | inr bytes =>
      store1 ← getFs;
      match Fs.renameSync store1 tmp target with
      | inl msg => uploadFailed tmp msg
      | inr store2 =>
          _ ← putFs store2;
          match Fs.statSync store2 target with
          | inl msg => uploadFailed tmp msg
          | inr st2 =>
              mret (sendJson [($"ok", JBool true); ($"path", JStr target);
                              ($"size", jnat (Fs.size st2));
                              ($"mtimeMs", JNum (Fs.mtimeMs st2));
                              ($"bytes", JNum (inject_Z (Z.of_N bytes)))])
          end
      end
  end.

(** [POST /api/upload-raw] *)
Definition uploadRaw (q : RawQuery) (up : Upload) : M Response :=
  store ← getFs;
  match checkUpload q store with
  | inl resp => mret resp
  | inr target => transfer target up
  end.

Definition putTmp (target : str) : str :=
  target ++ $"." ++ decimal (pid cfg) ++ $".tmp".

Definition writeFailed (msg : str) : Response :=
  sendError 500 (orElse msg $"write failed").

(** The write itself: the content goes to a temp file, which is then
    renamed onto the target. *)
Definition writeViaTemp (target content : str) : M Response :=
  let tmp := putTmp target in
  store1 ← getFs;
  t ← getNow;
  match Fs.writeFileSync store1 t tmp (utf8 content) with
  | inl msg => mret (writeFailed msg)
  | inr store2 =>
      _ ← putFs store2;
      match Fs.renameSync store2 tmp target with
      | inl msg => mret (writeFailed msg)
      | inr store3 =>
          _ ← putFs store3;
          match Fs.statSync store3 target with
          | inl msg => mret (writeFailed msg)
          | inr st2 =>
              mret (sendJson [($"ok", JBool true); ($"path", JStr target);
                              ($"size", jnat (Fs.size st2));
                              ($"mtimeMs", JNum (Fs.mtimeMs st2))])
          end
      end
  end.

(** [PUT /api/file] *)
Definition putFile (body : PutBody) : M Response :=
  let r := resolvePathFromQuery cfg (p_path body) in
  if negb (ok r) then mret (sendError 403 (default [] (error r))) else
  let target := default [] (target r) in
  match p_content body with
  | None => mret (sendError 400 $"content must be string")
  | Some content =>
  let bytes := N.of_nat (length (utf8 content)) in
  if N.ltb MAX_TEXT_FILE_BYTES bytes
  then mret (sendError 413 ($"content too large (>" ++
                            decimal MAX_TEXT_FILE_BYTES ++ $" bytes)"))
  else
  store ← getFs;
  (* the checks on an existing file, or the parent of a new one *)
  checked ←
    (if Fs.existsSync store target then
       match Fs.statSync store target with
       | inl msg => mret (Some (writeFailed msg))
       | inr st =>
           if negb (Fs.isFile st) then mret (Some (sendError 400 $"not a file"))
           else if N.ltb MAX_TEXT_FILE_BYTES (N.of_nat (Fs.size st))
           then mret (Some (sendError 413 ($"file too large (>" ++
                              decimal MAX_TEXT_FILE_BYTES ++ $" bytes)")))
           else
             match p_mtimeMs body with
             | Some (Some expected) =>
                 if Qle_bool (Qabs (Fs.mtimeMs st - expected)) 2
                 then mret None
                 else mret (Some
                   {| status := 409;
                      body := JObj [($"error", JStr $"file changed on disk");
                                    ($"currentMtimeMs", JNum (Fs.mtimeMs st))] |})
             | _ => mret None
             end
       end
     else
       let parent := Path.dirname target in
       if negb (withinRoot cfg parent)
       then mret (Some (sendError 403 $"out of root"))
       else
         let '(err, store') := Fs.mkdirSyncRecursive store parent in
         _ ← putFs store';
         mret (match err with
               | Some msg => Some (writeFailed msg)
               | None => None
               end));
  match checked with
  | Some resp => mret resp
  | None => writeViaTemp target content
  end end.

Definition deleteFailed (msg : str) : Response :=
  sendError 500 (orElse msg $"delete failed").

(** [POST /api/fs/delete] *)
Definition deletePath (body : DeleteBody) : M Response :=
  let r := resolvePathFromQuery cfg (d_path body) in
  if negb (ok r) then mret (sendError 403 (default [] (error r))) else
  let target := default [] (target r) in
  if isRootPath cfg target then mret (sendError 403 $"forbidden at root") else
  store ← getFs;
  match Fs.statSync store target with
  | inl msg => mret (deleteFailed msg)
  | inr st =>
      if Fs.isDirectory st then
        _ ← putFs (Fs.rmSyncRecursive store target);
        mret (sendJson [($"ok", JBool true)])
      else
        match Fs.rmSyncForce store target with
        | inl msg => mret (deleteFailed msg)
        | inr store' =>
            _ ← putFs store';
            mret (sendJson [($"ok", JBool true)])
        end
  end.

End Handlers.
End FileApi.

(** ** The git workflow *)

Module Git.
Import Js Sandbox.

Record CwdResult := {
  c_ok : bool;
  c_error : option str;
  c_cwd : option str;
  c_raw : str
}.

Record GitInfo := {
  gitAvailable : bool;
  isRepo : bool;
  repoRoot : option str;
  branch : option str
}.

Record Commit := {
  hash : str;
  shortHash : str;
  author : str;
  date : str;
  subject : str
}.

(** What the handlers read of a request: [cwd] from the query or the
    body, and the body fields after their coercions. *)
Record Request := {
  queryCwd : option str;
  bodyCwd : option str;
  queryLimit : option str;
  bodyMode : option str;
  bodyCommit : option str;
  confirmHard : bool                (* [Boolean(req.body?.confirmHard)] *)
}.

Definition isHidden (p : str) : bool :=
  startsWith p $"." && negb (str_eqb p $".") && negb (str_eqb p $"..").

Section Handlers.
Variable cfg : Config.
Variable tool : Tool.

Definition cwdError (msg raw : str) : CwdResult :=
  {| c_ok := false; c_error := Some msg; c_cwd := None; c_raw := raw |}.

(** [(req.query?.cwd ?? req.body?.cwd ?? '.').toString()] *)
Definition rawCwd (req : Request) : str :=
  match queryCwd req with
  | Some q => q
  | None => default $"." (bodyCwd req)
  end.

(** The segments of [path.relative(ROOT, target)]. *)
Definition relativeParts (target : str) : list str :=
  let rel := Path.relative (processCwd cfg) (ROOT cfg) target in
  filterBoolean (split Path.sep rel).

Definition resolveCwdFromReq (req : Request) : CwdResult :=
  let raw := rawCwd req in
  if str_eqb (trim raw) $"." then cwdError $"forbidden at root" raw else
  let target := resolve cfg [ROOT cfg; raw] in
  if negb (withinRoot cfg target) then cwdError $"out of root" raw else
  let hasHidden := existsb isHidden (relativeParts target) in
  if hasHidden then cwdError $"forbidden in hidden dir" raw
  else {| c_ok := true; c_error := None; c_cwd := Some target; c_raw := raw |}.

Definition git (args : list str) : M ExecResult :=
  execFileAsync tool $"git" args.

(** [String(stdout || '').trim() || null] *)
Definition trimmedOrNull (out : str) : option str :=
  let t := trim out in if truthy t then Some t else None.

Definition revParse (cwd name : str) : M (option str) :=
  r ← git [$"-C"; cwd; $"rev-parse"; name];
  mret (match r with
        | ExecOk out _ => trimmedOrNull out
        | ExecErr _ _ _ => None
        end).

Definition noGit : GitInfo :=
  {| gitAvailable := false; isRepo := false; repoRoot := None; branch := None |}.
Definition noRepo : GitInfo :=
  {| gitAvailable := true; isRepo := false; repoRoot := None; branch := None |}.

Definition detectGitInfo (cwd : str) : M GitInfo :=
  v ← git [$"--version"];
  match v with
  | ExecErr _ _ _ => mret noGit
  | ExecOk _ _ =>
      r ← git [$"-C"; cwd; $"rev-parse"; $"--is-inside-work-tree"];
      match r with
      | ExecErr _ _ _ => mret noRepo
      | ExecOk out _ =>
          if negb (str_eqb (trim out) $"true") then mret noRepo else
          top ← git [$"-C"; cwd; $"rev-parse"; $"--show-toplevel"];
          br ← git [$"-C"; cwd; $"rev-parse"; $"--abbrev-ref"; $"HEAD"];
          mret {| gitAvailable := true; isRepo := true;
                  repoRoot := match top with
                              | ExecOk o _ => trimmedOrNull o
                              | ExecErr _ _ _ => None
                              end;
                  branch := match br with
                            | ExecOk o _ => trimmedOrNull o
                            | ExecErr _ _ _ => None
                            end |}
      end
  end.

Definition detectUpstream (cwd : str) : M (option str) :=
  r ← git [$"-C"; cwd; $"rev-parse"; $"--abbrev-ref";
           $"--symbolic-full-name"; $"@{u}"];
  mret (match r with
        | ExecOk out _ => trimmedOrNull out
        | ExecErr _ _ _ => None
        end).

Definition infoFields (i : GitInfo) : list (str * json) :=
  [($"gitAvailable", JBool (gitAvailable i)); ($"isRepo", JBool (isRepo i));
   ($"repoRoot", jopt (repoRoot i)); ($"branch", jopt (branch i))].

(** [GET /api/git/info] *)
Definition gitInfo (req : Request) : M Response :=
  let r := resolveCwdFromReq req in
  if negb (c_ok r) then mret (sendError 403 (default [] (c_error r))) else
  let cwd := default [] (c_cwd r) in
  info ← detectGitInfo cwd;
  mret (sendJson ([($"ok", JBool true); ($"cwd", JStr cwd)] ++ infoFields info)).

Definition upstreamHeadOf (cwd : str) (upstream : option str) : M (option str) :=
  match upstream with
  | Some u => revParse cwd u
  | None => mret None
  end.

Definition parseCommit (line : str) : option Commit :=
  match split (ascii_of_nat 31) line with
  | h :: sh :: an :: ad :: sj :: _ =>
      Some {| hash := h; shortHash := sh; author := an; date := ad; subject := sj |}
  | _ => None
  end.

Definition commitJson (pushed isHead : json) (c : Commit) : json :=
  JObj [($"hash", JStr (hash c)); ($"shortHash", JStr (shortHash c));
        ($"author", JStr (author c)); ($"date", JStr (date c));
        ($"subject", JStr (subject c)); ($"pushed", pushed);
        ($"isUpstreamHead", isHead)].

Definition noCommitsYet (msg : str) : bool :=
  let m := toLowerCase msg in
  includes m $"does not have any commits" || includes m $"your current branch".

(** The [catch] clause of the commit listing. *)
Definition commitsFailed (cwd message stderr : str) : M Response :=
  let msg := orElse stderr message in
  if noCommitsYet msg then
    info ← detectGitInfo cwd;
    upstream ← (if isRepo info then detectUpstream cwd else mret None);
    upstreamHead ← upstreamHeadOf cwd upstream;
    mret (sendJson ([($"ok", JBool true); ($"cwd", JStr cwd)] ++ infoFields info ++
                    [($"upstream", jopt upstream);
                     ($"upstreamHead", jopt upstreamHead);
                     ($"commits", JArr [])]))
  else mret (sendError 500 (orElse message $"git log failed")).

(** [GET /api/git/commits] *)
Definition gitCommits (req : Request) : M Response :=
  let r := resolveCwdFromReq req in
  if negb (c_ok r) then mret (sendError 403 (default [] (c_error r))) else
  let cwd := default [] (c_cwd r) in
  let limit := Z.min 200 (Z.max 1 (parseIntOr (default [] (queryLimit req)) 50)) in
  info ← detectGitInfo cwd;
  if negb (gitAvailable info) then
    mret (sendJson [($"ok", JBool true); ($"cwd", JStr cwd);
                    ($"gitAvailable", JBool false); ($"isRepo", JBool false);
                    ($"commits", JArr [])])
  else if negb (isRepo info) then
    mret (sendJson [($"ok", JBool true); ($"cwd", JStr cwd);
                    ($"gitAvailable", JBool true); ($"isRepo", JBool false);
                    ($"commits", JArr [])])
  else
  upstream ← detectUpstream cwd;
  upstreamHead ← upstreamHeadOf cwd upstream;
  lg ← git [$"-C"; cwd; $"log"; $"-n"; decimal (Z.to_N limit);
            $"--date=iso-strict";
            $"--pretty=format:%H%x1f%h%x1f%an%x1f%ad%x1f%s"];
  match lg with
  | ExecErr message _ stderr => commitsFailed cwd message stderr
  | ExecOk out _ =>
      let lines := filterBoolean (map trimEnd (split LF out)) in
      let commits := omap parseCommit lines in
      let respond (cs : list json) :=
        sendJson ([($"ok", JBool true); ($"cwd", JStr cwd)] ++ infoFields info ++
                  [($"upstream", jopt upstream);
                   ($"upstreamHead", jopt upstreamHead);
                   ($"commits", JArr cs)]) in
      match upstream with
      | Some u =>
          rl ← git [$"-C"; cwd; $"rev-list"; $"--max-count=5000"; u ++ $"..HEAD"];
          match rl with
          | ExecErr message _ stderr => commitsFailed cwd message stderr
          | ExecOk upOut _ =>
              let unpushed := filterBoolean (map trim (split LF upOut)) in
              let classify (c : Commit) :=
                commitJson
                  (JBool (negb (existsb (str_eqb (hash c)) unpushed)))
                  (JBool (match upstreamHead with
                          | Some h => str_eqb (hash c) h
                          | None => false
                          end)) c in
              mret (respond (map classify commits))
          end
      | None => mret (respond (map (commitJson JNull JNull) commits))
      end
  end.

(** [POST /api/git/init] *)
Definition gitInit (req : Request) : M Response :=
  let r := resolveCwdFromReq req in
  if negb (c_ok r) then mret (sendError 403 (default [] (c_error r))) else
  let cwd := default [] (c_cwd r) in
  store ← getFs;
  match Fs.statSync store cwd with
  | inl _ => mret (sendError 400 $"cwd not found")
  | inr st =>
      if negb (Fs.isDirectory st)
      then mret (sendError 400 $"cwd is not a directory") else
      info ← detectGitInfo cwd;
      if negb (gitAvailable info) then mret (sendError 400 $"git not available")
      else if isRepo info then
        mret (sendJson ([($"ok", JBool true); ($"cwd", JStr cwd);
                         ($"already", JBool true)] ++ infoFields info))
      else
        i ← git [$"-C"; cwd; $"init"];
        match i with
        | ExecErr message _ _ =>
            mret (sendError 500 (orElse message $"git init failed"))
        | ExecOk _ _ =>
            info2 ← detectGitInfo cwd;
            mret (sendJson ([($"ok", JBool true); ($"cwd", JStr cwd);
                             ($"already", JBool false)] ++ infoFields info2))
        end
  end.

(** [merge-base --is-ancestor commit base] exits with status 0. *)
Definition isAncestor (cwd commit base : str) : M bool :=
  r ← git [$"-C"; cwd; $"merge-base"; $"--is-ancestor"; commit; base];
  mret (match r with ExecOk _ _ => true | ExecErr _ _ _ => false end).

Definition resetFailed (message : str) : Response :=
  sendError 500 (orElse message $"git reset failed").

(** [POST /api/git/reset] *)
Definition gitReset (req : Request) : M Response :=
  let r := resolveCwdFromReq req in
  if negb (c_ok r) then mret (sendError 403 (default [] (c_error r))) else
  let cwd := default [] (c_cwd r) in
  let mode := toLowerCase (default [] (bodyMode req)) in
  if negb (str_eqb mode $"soft") && negb (str_eqb mode $"hard")
  then mret (sendError 400 $"mode must be soft|hard") else
  let commit := trim (default [] (bodyCommit req)) in
  if negb (truthy commit) then mret (sendError 400 $"missing commit") else
  info ← detectGitInfo cwd;
  if negb (gitAvailable info) then mret (sendError 400 $"git not available")
  else if negb (isRepo info) then mret (sendError 400 $"not a git repo")
  else if str_eqb mode $"hard" && negb (confirmHard req)
  then mret (sendError 400 $"hard reset requires confirmHard=true") else
  ex ← git [$"-C"; cwd; $"cat-file"; $"-e"; commit ++ $"^{commit}"];
  match ex with
  | ExecErr _ _ _ => mret (sendError 400 $"invalid commit")
  | ExecOk _ _ =>
  up ← detectUpstream cwd;
  match up with
  | None => mret (sendError 400 $"upstream not configured")
  | Some upstream =>
  isOnUpstream ← isAncestor cwd commit upstream;
  reachable ← isAncestor cwd commit $"HEAD";
  if negb (reachable : bool) then mret (sendError 400 $"commit not reachable from HEAD") else
  upstreamHead ← revParse cwd upstream;
  let blocked : option Response :=
    if (isOnUpstream : bool) then
      match upstreamHead with
      | None => Some (sendError 400 $"cannot resolve upstream head")
      | Some h =>
          if negb (str_eqb commit h)
          then Some (sendError 400 $"only upstream head can be reset to when pushed")
          else None
      end
    else None in
  match blocked with
  | Some resp => mret resp
  | None =>
  rs ← git [$"-C"; cwd; $"reset";
            (if str_eqb mode $"soft" then $"--soft" else $"--hard"); commit];
  match rs with
  | ExecErr message _ _ => mret (resetFailed message)
  | ExecOk _ _ =>
  hd ← git [$"-C"; cwd; $"rev-parse"; $"HEAD"];
  match hd with
  | ExecErr message _ _ => mret (resetFailed message)
  | ExecOk newHead _ =>
      mret (sendJson [($"ok", JBool true); ($"cwd", JStr cwd);
                      ($"mode", JStr mode); ($"upstream", JStr upstream);
                      ($"upstreamHead", jopt upstreamHead);
                      ($"target", JStr commit); ($"head", JStr (trim newHead))])
  end end end end end.

Definition revertFailed (message : str) : Response :=
  sendError 500 (orElse message $"git revert failed").

Definition isConflict (stderr : str) : bool :=
  let m := toLowerCase stderr in
  includes m $"conflict" || includes m $"could not apply"
  || includes m $"after resolving".

Definition hint (code : nat) (msg h : str) : Response :=
  {| status := code; body := JObj [($"error", JStr msg); ($"hint", JStr h)] |}.

(** [POST /api/git/revert]; the texts of the two Chinese hints are
    abbreviated to their ASCII part. *)
Definition gitRevert (req : Request) : M Response :=
  let r := resolveCwdFromReq req in
  if negb (c_ok r) then mret (sendError 403 (default [] (c_error r))) else
  let cwd := default [] (c_cwd r) in
  let commit := trim (default [] (bodyCommit req)) in
  if negb (truthy commit) then mret (sendError 400 $"missing commit") else
  info ← detectGitInfo cwd;
  if negb (gitAvailable info) then mret (sendError 400 $"git not available")
  else if negb (isRepo info) then mret (sendError 400 $"not a git repo") else
  ex ← git [$"-C"; cwd; $"cat-file"; $"-e"; commit ++ $"^{commit}"];
  match ex with
  | ExecErr _ _ _ => mret (sendError 400 $"invalid commit")
  | ExecOk _ _ =>
  reachable ← isAncestor cwd commit $"HEAD";
  if negb (reachable : bool) then mret (sendError 400 $"commit not reachable from HEAD") else
  stt ← git [$"-C"; cwd; $"status"; $"--porcelain"];
  match stt with
  | ExecErr message _ _ => mret (revertFailed message)
  | ExecOk statusOut _ =>
  let statusLines := filterBoolean (map trimEnd (split LF statusOut)) in
  if existsb (fun line => negb (startsWith line $"?? ")) statusLines
  then mret (hint 400 $"working tree not clean" $"commit, stash or restore first")
  else
  pr ← git [$"-C"; cwd; $"rev-list"; $"--parents"; $"-n"; $"1"; commit];
  let parentCount :=
    match pr with
    | ExecOk parentsOut _ => Nat.max 0 (length (words (trim parentsOut)) - 1)
    | ExecErr _ _ _ => 0
    end in
  if Nat.ltb 1 parentCount
  then mret (hint 400 $"merge commit revert not supported"
                  $"git revert -m 1 <commit>")
  else
  rv ← git [$"-C"; cwd; $"revert"; $"--no-edit"; commit];
  match rv with
  | ExecErr message _ stderr =>
      if isConflict stderr
      then mret (hint 409 $"revert conflict"
                      $"git revert --continue / git revert --abort")
      else mret (revertFailed message)
  | ExecOk _ _ =>
  hd ← git [$"-C"; cwd; $"rev-parse"; $"HEAD"];
  match hd with
  | ExecErr message _ _ => mret (revertFailed message)
  | ExecOk newHead _ =>
      upstream ← detectUpstream cwd;
      mret (sendJson [($"ok", JBool true); ($"cwd", JStr cwd);
                      ($"upstream", jopt upstream);
                      ($"reverted", JStr commit); ($"head", JStr (trim newHead))])
  end end end end.


(** A [git reset] invocation: [git -C <cwd> reset ...]. *)
Definition isResetCommand (c : str * list str) : bool :=
  str_eqb c.1 $"git" &&
  match c.2 with
  | _ :: _ :: sub :: _ => str_eqb sub $"reset"
  | _ => false
  end.

(** What the repository answers in a given state of the store. *)
Definition answer (args : list str) (store : Fs.FS) : ExecResult :=
  (tool $"git" args store).1.

Definition upstreamOf (cwd : str) (store : Fs.FS) : option str :=
  match answer [$"-C"; cwd; $"rev-parse"; $"--abbrev-ref";
                $"--symbolic-full-name"; $"@{u}"] store with
  | ExecOk out _ => trimmedOrNull out
  | ExecErr _ _ _ => None
  end.

Definition ancestorOf (cwd commit base : str) (store : Fs.FS) : bool :=
  match answer [$"-C"; cwd; $"merge-base"; $"--is-ancestor"; commit; base]
               store with
  | ExecOk _ _ => true
  | ExecErr _ _ _ => false
  end.

Definition headOf (cwd name : str) (store : Fs.FS) : option str :=
  match answer [$"-C"; cwd; $"rev-parse"; name] store with
  | ExecOk out _ => trimmedOrNull out
  | ExecErr _ _ _ => None
  end.

(** From [w] to [w'] no [git reset] was spawned. *)
Definition noResetBetween (w w' : World) : Prop :=
  exists cmds, spawned w' = spawned w ++ cmds /\
               Forall (fun c => isResetCommand c = false) cmds.

(** The request is refused: an error status, and no [git reset]. *)
Definition refused (w : World) (out : Response * World) : Prop :=
  status out.1 <> 200 /\ noResetBetween w out.2.

End Handlers.
End Git.

(** ** The terminal session multiplexer *)

Module Pty.
Import Js Sandbox.

(** A session object.  [s_sockets] lists the attached sockets in
    insertion order, as a JavaScript [Set] iterates them. *)
Record Session := {
  s_id : str;
  s_shell : nat;
  s_cwd : str;
  s_cols : Z;
  s_rows : Z;
  s_clientId : str;
  s_created : Q;
  s_lastActivity : Q;
  s_history : str;
  s_sockets : list nat
}.

(** Session objects live in a store and are reached by address: the
    registry [terminalSessions] and the listeners of a shell share them. *)
Record State := {
  objects : list Session;
  terminalSessions : gmap str nat;
  readyState : gmap nat nat
}.

Definition initial : State :=
  {| objects := []; terminalSessions := ∅; readyState := ∅ |}.

Inductive Action :=
| WsSend (ws : nat) (data : str)
| WsClose (ws : nat) (code : option nat) (reason : str)
| PtySpawn (shell : nat) (file cwd : str) (cols rows : Z).

(** The query of the WebSocket URL: [searchParams.get(...)]. *)
Record ConnReq := {
  cwdParam : option str;
  sessionIdParam : option str;
  clientIdParam : option str;
  colsParam : option str;
  rowsParam : option str
}.

Inductive Event :=
| Connection (ws : nat) (req : ConnReq)
    (randomBytes : list byte)      (* [crypto.randomBytes(16)] *)
    (spawn : option nat)           (* the shell [pty.spawn] returns, if it does *)
    (t : Q)
| ShellData (addr : nat) (data : str) (t : Q)
| ReadyState (ws : nat) (n : nat).  (* the socket changes state *)

Fixpoint filterHistoryForReplay (data : str) : str :=
  match data with
  | c1 :: ((c2 :: c3 :: c4 :: rest) as tl) =>
      if chr_eqb c1 ESC && chr_eqb c2 "["%char && chr_eqb c3 "3"%char
         && chr_eqb c4 "J"%char
      then filterHistoryForReplay rest
      else c1 :: filterHistoryForReplay tl
  | c :: tl => c :: filterHistoryForReplay tl
  | [] => []
  end.


Definition chunkSize : nat := 16 * 1024.

(** The loop of [sendWsTextInChunks]; [n] bounds the iterations. *)
Fixpoint chunksOf (size n : nat) (s : str) : list str :=
  match n with
  | O => []
  | S n' =>
      match s with
      | [] => []
      | _ => take size s :: chunksOf size n' (drop size s)
      end
  end.

Definition sendWsTextInChunks (ws : nat) (text : str) : list Action :=
  map (WsSend ws) (chunksOf chunkSize (length text) text).

Definition hexDigit (n : N) : ascii :=
  nth (N.to_nat n) $"0123456789abcdef" "0"%char.

(** [crypto.randomBytes(16).toString('hex')] *)
Definition generateSessionId (randomBytes : list byte) : str :=
  flat_map (fun b => let n := Byte.to_N b in
                     [hexDigit (n / 16); hexDigit (n mod 16)]) randomBytes.

Definition addSocket (ws : nat) (socks : list nat) : list nat :=
  if existsb (Nat.eqb ws) socks then socks else socks ++ [ws].

Section Server.
Variable cfg : Config.

Definition trimHistoryForReplay (history : str) : str :=
  let s := history in
  if Nat.leb (length s) (HISTORY_MAX_CHARS cfg) then s else
  let start := length s - HISTORY_MAX_CHARS cfg in
  let start' :=
    match indexOf LF s start with
    | Some nl => if Nat.ltb (nl + 1) (length s) then nl + 1 else start
    | None => start
    end in
  slice_from s start'.

Definition setReadyState (ws n : nat) (st : State) : State :=
  {| objects := objects st; terminalSessions := terminalSessions st;
     readyState := <[ws := n]> (readyState st) |}.

Definition setObject (addr : nat) (s : Session) (st : State) : State :=
  {| objects := <[addr := s]> (objects st);
     terminalSessions := terminalSessions st;
     readyState := readyState st |}.

(** [ws.close(...)]: the socket starts closing. *)
Definition closeSocket (ws : nat) (st : State) : State := setReadyState ws 2 st.

Definition adoptClient (clientId : str) (s : Session) : Session :=
  {| s_id := s_id s; s_shell := s_shell s; s_cwd := s_cwd s;
     s_cols := s_cols s; s_rows := s_rows s; s_clientId := clientId;
     s_created := s_created s; s_lastActivity := s_lastActivity s;
     s_history := s_history s; s_sockets := s_sockets s |}.

Definition attach (ws : nat) (s : Session) : Session :=
  {| s_id := s_id s; s_shell := s_shell s; s_cwd := s_cwd s;
     s_cols := s_cols s; s_rows := s_rows s; s_clientId := s_clientId s;
     s_created := s_created s; s_lastActivity := s_lastActivity s;
     s_history := s_history s; s_sockets := addSocket ws (s_sockets s) |}.

(** The reconnect branch, on the session found at [addr]. *)
Definition reconnect (ws : nat) (sessionId clientId : str) (addr : nat)
    (session : Session) (st : State) : State * list Action :=
  let session1 :=
    if truthy clientId && negb (truthy (s_clientId session))
    then adoptClient clientId session else session in
  let st1 := setObject addr session1 st in
  if truthy clientId && truthy (s_clientId session1)
     && negb (str_eqb (s_clientId session1) clientId)
  then (closeSocket ws st1,
        [WsSend ws ($"SESSION_FORBIDDEN:" ++ sessionId);
         WsClose ws (Some 1008) $"SESSION_FORBIDDEN"])
  else
    let session2 := attach ws session1 in
    (setObject addr session2 st1,
     (if truthy (s_history session2)
      then sendWsTextInChunks ws (s_history session2) else [])
     ++ [WsSend ws ($"SESSION_ID:" ++ s_id session2)]).

(** The branch that creates a session. *)
Definition create (ws : nat) (cwd clientId : str) (cols rows : Z)
    (randomBytes : list byte) (spawn : option nat) (t : Q) (st : State)
  : State * list Action :=
  let newSessionId := generateSessionId randomBytes in
  match spawn with
  | None => (st, [])              (* [pty.spawn] throws *)
  | Some shell =>
      let session :=
        {| s_id := newSessionId; s_shell := shell; s_cwd := cwd;
           s_cols := cols; s_rows := rows; s_clientId := clientId;
           s_created := t; s_lastActivity := t;
           s_history := []; s_sockets := [ws] |} in
      ({| objects := objects st ++ [session];
          terminalSessions :=
            <[newSessionId := length (objects st)]> (terminalSessions st);
          readyState := readyState st |},
       [PtySpawn shell $"/bin/bash" cwd cols rows;
        WsSend ws ([ESC] ++ $"]0;Session: " ++ newSessionId ++ [ascii_of_nat 7]);
        WsSend ws ($"SESSION_ID:" ++ newSessionId)])
  end.

(** [wss.on('connection', ...)]: the socket arrives open. *)
Definition onConnection (ws : nat) (req : ConnReq) (randomBytes : list byte)
    (spawn : option nat) (t : Q) (st0 : State) : State * list Action :=
  let st := setReadyState ws 1 st0 in
  let cwdParam := orElse (default [] (cwdParam req)) $"." in
  let sessionId := default [] (sessionIdParam req) in
  let clientId := default [] (clientIdParam req) in
  let cwd := resolve cfg [ROOT cfg; cwdParam] in
  if negb (withinRoot cfg cwd) then (closeSocket ws st, [WsClose ws None []]) else
  let cols := parseIntOr (default [] (colsParam req)) 80 in
  let rows := parseIntOr (default [] (rowsParam req)) 24 in
  if truthy sessionId then
    match terminalSessions st !! sessionId with
    | Some addr =>
        match objects st !! addr with
        | Some session => reconnect ws sessionId clientId addr session st
        | None => (st, [])        (* the registry holds live objects only *)
        end
    | None =>
        (closeSocket ws st,
         [WsSend ws ($"SESSION_NOT_FOUND:" ++ sessionId);
          WsClose ws (Some 1008) $"SESSION_NOT_FOUND"])
    end
  else create ws cwd clientId cols rows randomBytes spawn t st.

Definition isOpen (st : State) (sock : nat) : bool :=
  match readyState st !! sock with
  | Some n => Nat.eqb n 1
  | None => false
  end.

(** [shell.onData(...)] of the session object at [addr]. *)
Definition onData (addr : nat) (data : str) (t : Q) (st : State)
  : State * list Action :=
  match objects st !! addr with
  | None => (st, [])
  | Some session =>
      let session' :=
        {| s_id := s_id session; s_shell := s_shell session;
           s_cwd := s_cwd session; s_cols := s_cols session;
           s_rows := s_rows session; s_clientId := s_clientId session;
           s_created := s_created session; s_lastActivity := t;
           s_history :=
             trimHistoryForReplay
               (s_history session ++ filterHistoryForReplay data);
           s_sockets := s_sockets session |} in
      (setObject addr session' st,
       map (fun sock => WsSend sock data)
           (List.filter (isOpen st) (s_sockets session)))
  end.

Definition step (e : Event) (st : State) : State * list Action :=
  match e with
  | Connection ws req randomBytes spawn t =>
      onConnection ws req randomBytes spawn t st
  | ShellData addr data t => onData addr data t st
  | ReadyState ws n => (setReadyState ws n st, [])
  end.

Fixpoint run (evs : list Event) (st : State) : State * list Action :=
  match evs with
  | [] => (st, [])
  | e :: rest =>
      let '(st1, out1) := step e st in
      let '(st2, out2) := run rest st1 in
      (st2, out1 ++ out2)
  end.





(** The working directory a connection asks for, resolved. *)
Definition requestedCwd (req : ConnReq) : str :=
  resolve cfg [ROOT cfg; orElse (default [] (cwdParam req)) $"."].


Definition forbidden (ws : nat) (sid : str) : list Action :=
  [WsSend ws ($"SESSION_FORBIDDEN:" ++ sid);
   WsClose ws (Some 1008) $"SESSION_FORBIDDEN"].

(** The frames of a replay: the history in chunks, then the identifier. *)
Definition replay (ws : nat) (session : Session) : list Action :=
  map (WsSend ws) (chunksOf chunkSize (length (s_history session))
                     (s_history session))
  ++ [WsSend ws ($"SESSION_ID:" ++ s_id session)].

End Server.
End Pty.

(** ** Example data *)

Module Examples.
Import Js Sandbox Archive ArchiveApi FileApi Git Pty.

(** A server rooted at [/home/user]; it keeps sixteen characters of
    history and takes uploads of eight bytes. *)
Definition exampleConfig : Config :=
  {| ROOT := $"/home/user"; processCwd := $"/srv/lan-shell"; pid := 4242;
     HISTORY_MAX_CHARS := 16; MAX_UPLOAD_BYTES := 8 |}.

(** A zip archive whose second entry climbs out of the destination. *)
Definition zipSlip : Tool := fun file args store =>
  if existsb (str_eqb $"-Z1") args
  then (ExecOk ($"readme.txt" ++ [LF] ++ $"../../etc/passwd" ++ [LF]) [], store)
  else (ExecOk [] [], <[ $"/etc/passwd" := Fs.File [] 0 ]> store).

Definition archiveWorld : World :=
  {| fs := <[ $"/home/user/a.zip" := Fs.File [] 0 ]>
             (<[ $"/home/user" := Fs.Dir ]> ∅);
     now := 1; spawned := [] |}.

Definition extractHere : ExtractBody :=
  {| path := Some $"a.zip"; dest := Some $"out"; overwrite := true |}.

(** A repository with one hidden directory and a tool that never answers. *)
Definition deadTool : Tool := fun _ _ store => (ExecErr $"spawn git ENOENT" [] [], store).
Definition emptyWorld : World := {| fs := ∅; now := 0; spawned := [] |}.

(** Three repositories: one whose target commit is published below the
    upstream head, one without upstream, one whose target is dangling. *)
Definition says (word : str) (args : list str) : bool :=
  existsb (str_eqb word) args.

Definition publishedRepo : Tool := fun _ args store =>
  if says $"--is-inside-work-tree" args then (ExecOk $"true" [], store)
  else if says $"@{u}" args then (ExecOk $"origin/main" [], store)
  else if says $"origin/main" args && says $"rev-parse" args
  then (ExecOk $"bbbbbbb" [], store)
  else (ExecOk [] [], store).

Definition noUpstreamRepo : Tool := fun _ args store =>
  if says $"--is-inside-work-tree" args then (ExecOk $"true" [], store)
  else if says $"@{u}" args then (ExecErr $"no upstream" [] $"fatal", store)
  else (ExecOk [] [], store).

Definition danglingRepo : Tool := fun _ args store =>
  if says $"--is-inside-work-tree" args then (ExecOk $"true" [], store)
  else if says $"@{u}" args then (ExecOk $"origin/main" [], store)
  else if says $"merge-base" args then (ExecErr $"exit 1" [] [], store)
  else (ExecOk [] [], store).

Definition hardReset : Request :=
  {| queryCwd := None; bodyCwd := Some $"proj"; queryLimit := None;
     bodyMode := Some $"hard"; bodyCommit := Some $"aaaaaaa";
     confirmHard := true |}.

Definition notesWorld : World :=
  {| fs := <[ $"/home/user/notes.txt" := Fs.File [] 0 ]>
             (<[ $"/home/user" := Fs.Dir ]> ∅);
     now := 1; spawned := [] |}.

Definition unconfirmedHardReset : Request :=
  {| queryCwd := None; bodyCwd := Some $"proj"; queryLimit := None;
     bodyMode := Some $"HARD"; bodyCommit := Some $"aaaaaaa";
     confirmHard := false |}.

(** A session on a server that keeps sixteen characters of history. *)
Definition newSession : ConnReq :=
  {| cwdParam := None; sessionIdParam := None; clientIdParam := Some $"alice";
     colsParam := Some $"120"; rowsParam := Some $"40" |}.


(** Alice opens a session; its shell prints a prompt. *)
Definition aliceBytes : list byte := [x00; xff; x1a].
Definition aliceId : str := generateSessionId aliceBytes.

Definition aliceState : State :=
  (run exampleConfig [Connection 1 newSession aliceBytes (Some 0) 0;
            ShellData 0 $"alice$ " 1] initial).1.

Definition reconnectAs (cwd clientId : option str) (sid : str) : ConnReq :=
  {| cwdParam := cwd; sessionIdParam := Some sid; clientIdParam := clientId;
     colsParam := None; rowsParam := None |}.

(** A home directory, and uploads of nine and of five bytes under a limit
    of eight. *)
Definition homeWorld : World :=
  {| fs := <[ $"/home/user" := Fs.Dir ]> ∅; now := 1; spawned := [] |}.

Definition toHome : RawQuery :=
  {| q_dir := Some $"."; q_name := Some $"f.bin"; q_overwrite := None |}.

Definition nineBytes : Upload :=
  {| chunks := [[x01; x02; x03]; [x04; x05; x06]; [x07; x08; x09]];
     ending := End; destroyed := AbortedFirst |}.

Definition nineBytesErrorFirst : Upload :=
  {| chunks := [[x01; x02; x03]; [x04; x05; x06]; [x07; x08; x09]];
     ending := End; destroyed := ErrorFirst |}.

Definition fiveBytes : Upload :=
  {| chunks := [[x01; x02; x03]; [x04; x05]]; ending := End;
     destroyed := AbortedFirst |}.

End Examples.

(** ** Operations of the store on directory trees

    As in [Fs], an operation fails when the kind of an entry forbids it.
    A directory is a key of the store; its members are the keys below
    it. *)

Module Tree.
Import Js.

(** [fs.readFileSync(p)] *)
Definition readFileSync (fs : Fs.FS) (p : str) : str + list byte :=
  match fs !! p with
  | Some (Fs.File c _) => inr c
  | Some Fs.Dir => inl (Fs.message Fs.EISDIR $"read" p)
  | None => inl (Fs.message Fs.ENOENT $"open" p)
  end.

(** The directory that holds [p]: the root directory is always there. *)
Definition parentKind (fs : Fs.FS) (p : str) : option Fs.node :=
  let parent := Path.dirname p in
  if str_eqb parent $"/" then Some Fs.Dir else fs !! parent.

(** [fs.mkdirSync(p, { recursive: false })] *)
Definition mkdirSync (fs : Fs.FS) (p : str) : str + Fs.FS :=
  match fs !! p with
  | Some _ => inl (Fs.message Fs.EEXIST $"mkdir" p)
  | None =>
      match parentKind fs p with
      | Some Fs.Dir => inr (<[p := Fs.Dir]> fs)
      | Some (Fs.File _ _) => inl (Fs.message Fs.ENOTDIR $"mkdir" p)
      | None => inl (Fs.message Fs.ENOENT $"mkdir" p)
      end
  end.

(** The key that [k], at or below [a], gets when [a] becomes [b]. *)
Definition rekey (a b k : str) : str := b ++ drop (length a) k.

Definition carry (a b : str) (kv : str * Fs.node) : option (str * Fs.node) :=
  if Fs.isAtOrBelow a kv.1 then Some (rekey a b kv.1, kv.2) else None.

(** The entries at or below [a], under their new keys. *)
Definition carried (fs : Fs.FS) (a b : str) : Fs.FS :=
  list_to_map (omap (carry a b) (map_to_list fs)).

(** The tree at [a] moves to [b]; what was at [b] is replaced. *)
Definition moveTree (fs : Fs.FS) (a b : str) : Fs.FS :=
  carried fs a b ∪
  filter (fun kv => Fs.isAtOrBelow a kv.1 = false /\ Fs.isAtOrBelow b kv.1 = false) fs.

(** A directory with no member. *)
Definition isEmptyDir (fs : Fs.FS) (p : str) : bool :=
  bool_decide (filter (fun kv => startsWith kv.1 (p ++ $"/") = true) fs = ∅).

Definition renameMessage (e : str) (a b : str) : str :=
  e ++ $", rename '" ++ a ++ $"' -> '" ++ b ++ $"'".

(** [fs.renameSync(a, b)] for files and directories.  The store does
    not tell on which device a path lies: [sameDevice] does, and a rename
    across devices fails with [EXDEV]. *)
Definition renameSync (sameDevice : str -> str -> bool) (fs : Fs.FS) (a b : str)
  : str + Fs.FS :=
  match fs !! a with
  | None => inl (renameMessage (Fs.describe Fs.ENOENT) a b)
  | Some node =>
      if negb (sameDevice a b)
      then inl (renameMessage $"EXDEV: cross-device link not permitted" a b)
      else
        match node with
        | Fs.File c m =>
            match fs !! b with
            | Some Fs.Dir => inl (renameMessage (Fs.describe Fs.EISDIR) a b)
            | _ => inr (<[b := Fs.File c m]> (delete a fs))
            end
        | Fs.Dir =>
            if str_eqb a b then inr fs
            else if startsWith b (a ++ $"/")
            then inl (renameMessage $"EINVAL: invalid argument" a b)
            else
              match fs !! b with
              | Some (Fs.File _ _) =>
                  inl (renameMessage (Fs.describe Fs.ENOTDIR) a b)
              | Some Fs.Dir =>
                  if isEmptyDir fs b then inr (moveTree fs a b)
                  else inl (renameMessage $"ENOTEMPTY: directory not empty" a b)
              | None => inr (moveTree fs a b)
              end
        end
  end.

(** [fs.copyFileSync(src, dest)] at time [now]. *)
Definition copyFileSync (fs : Fs.FS) (now : Q) (src dest : str) : str + Fs.FS :=
  match fs !! src with
  | None => inl (Fs.describe Fs.ENOENT ++ $", copyfile '" ++ src ++ $"' -> '" ++ dest ++ $"'")
  | Some Fs.Dir => inl (Fs.describe Fs.EISDIR ++ $", copyfile '" ++ src ++ $"' -> '" ++ dest ++ $"'")
  | Some (Fs.File c _) =>
      match fs !! dest with
      | Some Fs.Dir => inl (Fs.describe Fs.EISDIR ++ $", copyfile '" ++ src ++ $"' -> '" ++ dest ++ $"'")
      | _ => inr (<[dest := Fs.File c now]> fs)
      end
  end.

End Tree.

(** [obj.key] on the body of a response. *)
Definition field (key : str) (r : Response) : option json :=
  match body r with
  | JObj fields => snd <$> find (fun kv => Js.str_eqb kv.1 key) fields
  | _ => None
  end.

(** ** The shape of resolved paths *)

Module Shape.
Import Js.

(** A segment of a resolved path: clean, and neither [.] nor [..]. *)
Definition proper (seg : str) : Prop :=
  Path.clean seg /\ seg <> $"." /\ seg <> $"..".

(** The absolute path with the segments [segs]. *)
Definition ofSegments (segs : list str) : str :=
  Path.sep :: join [Path.sep] segs.

(** The member [n] of the directory [d]. *)
Definition child (d n : str) : str :=
  (if str_eqb d $"/" then d else d ++ [Path.sep]) ++ n.

End Shape.

(** ** File endpoints: read, make a directory, rename, copy and move a file *)

Module FileOps.
Import Js Sandbox FileApi.

Definition BINARY_SNIFF_BYTES : nat := 8 * 1024.

(** The loop of [looksBinary] over the first [len] bytes. *)
Fixpoint sniff (buf : list byte) (len : nat) : bool :=
  match len, buf with
  | S len', b :: rest => if Byte.eqb b x00 then true else sniff rest len'
  | _, _ => false
  end.

Definition looksBinary (buf : list byte) : bool :=
  if Nat.eqb (length buf) 0 then false
  else sniff buf (Nat.min (length buf) BINARY_SNIFF_BYTES).

Record MkdirBody := {
  m_dir : option str;
  m_name : option str
}.

Record RenameBody := {
  r_path : option str;
  r_newName : option str
}.

(** The counters of a copy or a move. *)
Record Stats := {
  done_ : nat;                (* [copied] or [moved] *)
  skipped : nat;
  overwritten : nat
}.

(** An error with its [code] and [message]. *)
Record Thrown := {
  code : option str;
  message : str
}.

Section Handlers.
Variable cfg : Config.
(** [buf.toString('utf8')] *)
Variable toStringUtf8 : list byte -> str.
(** Whether two paths lie on the same device. *)
Variable sameDevice : str -> str -> bool.

(** [isSubPath(child, parent)] *)
Definition isSubPath (child parent : str) : bool :=
  let rel := Path.relative (processCwd cfg) parent child in
  if negb (truthy rel) then true
  else negb (startsWith rel $"..") && negb (Path.isAbsolute rel).

Definition readFailed (msg : str) : Response :=
  sendError 500 (orElse msg $"read failed").

(** [GET /api/file] *)
Definition getFile (query : option str) : M Response :=
  let r := resolvePathFromQuery cfg query in
  if negb (ok r) then mret (sendError 403 (default [] (error r))) else
  let target := default [] (target r) in
  store ← getFs;
  match Fs.statSync store target with
  | inl msg => mret (readFailed msg)
  | inr st =>
      if negb (Fs.isFile st) then mret (sendError 400 $"not a file")
      else if N.ltb MAX_TEXT_FILE_BYTES (N.of_nat (Fs.size st))
      then mret (sendError 413 ($"file too large (>" ++
                                decimal MAX_TEXT_FILE_BYTES ++ $" bytes)"))
      else
        match Tree.readFileSync store target with
        | inl msg => mret (readFailed msg)
        | inr buf =>
            if looksBinary buf
            then mret (sendError 415 $"binary file not supported")
            else mret (sendJson [($"ok", JBool true); ($"path", JStr target);
                                 ($"size", jnat (Fs.size st));
                                 ($"mtimeMs", JNum (Fs.mtimeMs st));
                                 ($"encoding", JStr $"utf8");
                                 ($"content", JStr (toStringUtf8 buf))])
        end
  end.

Definition mkdirFailed (msg : str) : Response :=
  sendError 500 (orElse msg $"mkdir failed").

(** [POST /api/fs/mkdir] *)
Definition mkdir (body : MkdirBody) : M Response :=
  let dir := resolvePathFromQuery cfg (m_dir body) in
  if negb (ok dir) then mret (sendError 403 (default [] (error dir))) else
  let dirTarget := default [] (target dir) in
  let nm := validateFileName (m_name body) in
  if negb (n_ok nm) then mret (sendError 400 (default [] (n_error nm))) else
  let target := Path.join_paths [dirTarget; default [] (n_name nm)] in
  if negb (withinRoot cfg target) then mret (sendError 403 $"out of root") else
  store ← getFs;
  let '(err, store1) := Fs.mkdirSyncRecursive store dirTarget in
  _ ← putFs store1;
  match err with
  | Some msg => mret (mkdirFailed msg)
  | None =>
      if Fs.existsSync store1 target then mret (sendError 409 $"exists") else
      match Tree.mkdirSync store1 target with
      | inl msg => mret (mkdirFailed msg)
      | inr store2 =>
          _ ← putFs store2;
          match Fs.statSync store2 target with
          | inl msg => mret (mkdirFailed msg)
          | inr st =>
              mret (sendJson [($"ok", JBool true); ($"path", JStr target);
                              ($"mtimeMs", JNum (Fs.mtimeMs st))])
          end
      end
  end.

(** [POST /api/fs/rename] *)
Definition rename (body : RenameBody) : M Response :=
  let r := resolvePathFromQuery cfg (r_path body) in
  if negb (ok r) then mret (sendError 403 (default [] (error r))) else
  let target := default [] (target r) in
  if isRootPath cfg target then mret (sendError 403 $"forbidden at root") else
  let nm := validateFileName (r_newName body) in
  if negb (n_ok nm) then mret (sendError 400 (default [] (n_error nm))) else
  let dest := Path.join_paths [Path.dirname target; default [] (n_name nm)] in
  if negb (withinRoot cfg dest) then mret (sendError 403 $"out of root") else
  store ← getFs;
  if Fs.existsSync store dest then mret (sendError 409 $"dest exists") else
  match Tree.renameSync sameDevice store target dest with
  | inl msg => mret (sendError 500 (orElse msg $"rename failed"))
  | inr store' =>
      _ ← putFs store';
      mret (sendJson [($"ok", JBool true); ($"path", JStr dest)])
  end.

Definition destExists : Thrown :=
  {| code := Some $"EEXIST"; message := $"dest exists" |}.

(** An error of the store: the code leads its message. *)
Definition storeError (msg : str) : Thrown :=
  {| code := head (split ":"%char msg); message := msg |}.

Definition skip (stats : Stats) : Stats :=
  {| done_ := done_ stats; skipped := skipped stats + 1;
     overwritten := overwritten stats |}.

Definition overwrote (stats : Stats) : Stats :=
  {| done_ := done_ stats; skipped := skipped stats;
     overwritten := overwritten stats + 1 |}.

Definition finished (stats : Stats) : Stats :=
  {| done_ := done_ stats + 1; skipped := skipped stats;
     overwritten := overwritten stats |}.

(** [copyFileWithPolicy(src, dest, policy, stats)]: the error thrown,
    if any, and the counters as the call leaves them. *)
Definition copyFileWithPolicy (src dest policy : str) (stats : Stats)
  : M (option Thrown * Stats) :=
  let copy (stats1 : Stats) : M (option Thrown * Stats) :=
    store1 ← getFs;
    t ← getNow;
    match Tree.copyFileSync store1 t src dest with
    | inl msg => mret (Some (storeError msg), stats1)
    | inr store2 => _ ← putFs store2; mret (None, finished stats1)
    end in
  store ← getFs;
  if Fs.existsSync store dest then
    if str_eqb policy $"skip" then mret (None, skip stats)
    else if str_eqb policy $"error" then mret (Some destExists, stats)
    else
      _ ← putFs (Fs.rmSyncRecursive store dest);
      copy (overwrote stats)
  else copy stats.



End Handlers.
End FileOps.

(** ** One-shot commands: [POST /api/run] *)

Module Run.
Import Js Sandbox.

Definition defaultCommands : str := $"npm,node,yarn,pnpm,ls,bash".

(** [ALLOWED_CMDS], read from [process.env.ALLOWED_CMDS]. *)
Definition ALLOWED_CMDS (env : option str) : list str :=
  filterBoolean
    (map trim (split ","%char (orElse (default [] env) defaultCommands))).

(** The fields of the body; [None] stands for [undefined]. *)
Record RunBody := {
  cmd : option json;
  args : option json;
  cwd : option json
}.

Inductive Outcome :=
| Threw                                   (* [path.resolve] rejects [cwd] *)
| Refused (answer : option json)          (* status 403, with or without a body *)
| Spawn (file : str) (args : json) (cwd : str).   (* [pty.spawn(cmd, args, { cwd })] *)

Section Handler.
Variable cfg : Config.
Variable env : option str.

(** The handler up to the call of [pty.spawn]. *)
Definition run (body : RunBody) : Outcome :=
  let resolved :=
    match cwd body with
    | None => Some (resolve cfg [ROOT cfg; $"."])
    | Some (JStr dir) => Some (resolve cfg [ROOT cfg; dir])
    | Some _ => None
    end in
  match resolved with
  | None => Threw
  | Some realCwd =>
      if negb (withinRoot cfg realCwd) then Refused None
      else
        match cmd body with
        | Some (JStr c) =>
            if existsb (str_eqb c) (ALLOWED_CMDS env)
            then Spawn c (default (JArr []) (args body)) realCwd
            else Refused (Some (JObj [($"error", JStr $"command not allowed")]))
        | _ => Refused (Some (JObj [($"error", JStr $"command not allowed")]))
        end
  end.

End Handler.
End Run.

(** ** The session endpoints and the hourly sweep *)

Module Sessions.
Import Js Pty.

Inductive Effect :=
| SocketClose (ws : nat)
| ShellKill (shell : nat).

(** [terminalSessions.get(id)] *)
Definition getSession (st : State) (id : str) : option Session :=
  addr ← terminalSessions st !! id; objects st !! addr.

(** The text of the 404 answers, by its UTF-8 bytes. *)
Definition noSuchSession : str :=
  map ascii_of_nat [228; 188; 154; 232; 175; 157; 228; 184; 141;
                    229; 173; 152; 229; 156; 168].

Definition unregister (id : str) (st : State) : State :=
  {| objects := objects st;
     terminalSessions := delete id (terminalSessions st);
     readyState := readyState st |}.

(** The sockets of the session are closed, its shell is killed and its
    identifier leaves the registry. *)
Definition terminate (id : str) (session : Session) (st : State)
  : State * list Effect :=
  (unregister id (foldl (fun acc ws => closeSocket ws acc) st (s_sockets session)),
   map SocketClose (s_sockets session) ++ [ShellKill (s_shell session)]).


(** The filter of [DELETE /api/sessions] on an entry of the registry. *)
Definition selected (clientId : str) (st : State) (entry : str * nat) : bool :=
  negb (truthy clientId) ||
  match objects st !! entry.2 with
  | Some s => str_eqb (s_clientId s) clientId
  | None => false
  end.

(** One turn of the loop of [DELETE /api/sessions]. *)
Definition terminateById (acc : State * list Effect) (id : str)
  : State * list Effect :=
  match getSession acc.1 id with
  | None => acc
  | Some session =>
      let '(st', effects) := terminate id session acc.1 in
      (st', acc.2 ++ effects)
  end.

(** [DELETE /api/sessions]; the registry is run through in the order of
    its enumeration. *)
Definition deleteSessions (clientIdQuery : option str) (st : State)
  : Response * (State * list Effect) :=
  let clientId := default [] clientIdQuery in
  let ids := (List.filter (selected clientId st)
                (map_to_list (terminalSessions st))).*1 in
  (sendJson [($"ok", JBool true); ($"deleted", jnat (length ids))],
   foldl terminateById (st, []) ids).

(** [GET /api/sessions/:id/history] *)
Definition sessionHistory (sessionId : str) (st : State) : Response :=
  match getSession st sessionId with
  | None => sendError 404 noSuchSession
  | Some session =>
      sendJson [($"history", JStr (s_history session));
                ($"cwd", JStr (s_cwd session));
                ($"cols", JNum (inject_Z (s_cols session)));
                ($"rows", JNum (inject_Z (s_rows session)))]
  end.

Definition DAY : Q := 24 * 60 * 60 * 1000.

(** [now - session.lastActivity > 24 * 60 * 60 * 1000] *)
Definition inactive (now : Q) (s : Session) : bool :=
  negb (Qle_bool (now - s_lastActivity s) DAY).

(** One turn of the sweep. *)
Definition sweepEntry (now : Q) (acc : State * list Effect) (entry : str * nat)
  : State * list Effect :=
  match objects acc.1 !! entry.2 with
  | Some session =>
      if inactive now session
      then (unregister entry.1 acc.1, acc.2 ++ [ShellKill (s_shell session)])
      else acc
  | None => acc
  end.

(** The callback of [setInterval]: sessions idle for more than a day are
    killed and forgotten. *)
Definition sweep (now : Q) (st : State) : State * list Effect :=
  foldl (sweepEntry now) (st, []) (map_to_list (terminalSessions st)).

(** The registry holds live objects only. *)
Definition live (st : State) : Prop :=
  forall id addr, terminalSessions st !! id = Some addr ->
                  is_Some (objects st !! addr).

(** What terminating the session [id] of [st] does to the outside. *)
Definition effectsOf (st : State) (id : str) : list Effect :=
  match getSession st id with
  | Some session => map SocketClose (s_sockets session) ++ [ShellKill (s_shell session)]
  | None => []
  end.

(** The entry of a session that the sweep at [now] reaps. *)
Definition reaped (now : Q) (st : State) (entry : str * nat) : bool :=
  match objects st !! entry.2 with
  | Some session => inactive now session
  | None => false
  end.

(** The payloads sent to [ws], in order. *)
Definition sentTo (ws : nat) (actions : list Action) : list str :=
  omap (fun a => match a with
                 | WsSend ws' data => if Nat.eqb ws' ws then Some data else None
                 | _ => None
                 end) actions.

End Sessions.

(** ** Command sets: [validateCommandNode] *)

Module Commands.
Import Js.

(** [node.key] on a parsed value whose properties are [fields]; [None]
    stands for [undefined]. *)
Definition prop (node : json) (key : str) : option json :=
  match node with
  | JObj fields => snd <$> find (fun kv => str_eqb kv.1 key) fields
  | _ => None
  end.

(** [node && typeof node === 'object'] *)
Definition isObject (node : json) : bool :=
  match node with
  | JObj _ | JArr _ => true
  | _ => false
  end.

(** [typeof v === 'string' && v.trim()] *)
Definition nonBlank (v : option json) : bool :=
  match v with
  | Some (JStr s) => truthy (trim s)
  | _ => false
  end.

(** [v === s] *)
Definition equals (v : option json) (s : str) : bool :=
  match v with
  | Some (JStr x) => str_eqb x s
  | _ => false
  end.

Definition MAX_NODES : N := 5000.
Definition MAX_CONTENT : N := 20000.

(** [validateCommandNode] with [room] levels left before the depth
    passes 20; the counter is threaded through.  The first component is
    the error, if any. *)
Fixpoint validateLevel (room : nat) (node : json) (n : N) {struct room}
  : option str * N :=
  if negb (isObject node) then (Some $"node invalid", n)
  else
    match room with
    | O => (Some $"depth too deep", n)
    | S room' =>
        let type := prop node $"type" in
        if negb (nonBlank (prop node $"id")) then (Some $"id invalid", n)
        else if negb (equals type $"folder") && negb (equals type $"command")
        then (Some $"type invalid", n)
        else if negb (nonBlank (prop node $"name")) then (Some $"name invalid", n)
        else
          let n1 := (n + 1)%N in
          if N.ltb MAX_NODES n1 then (Some $"too many nodes", n1)
          else if equals type $"folder" then
            match prop node $"children" with
            | Some (JArr children) =>
                (fix each (cs : list json) (k : N) : option str * N :=
                   match cs with
                   | [] => (None, k)
                   | child :: rest =>
                       match validateLevel room' child k with
                       | (Some e, k') => (Some e, k')
                       | (None, k') => each rest k'
                       end
                   end) children n1
            | _ => (Some $"children invalid", n1)
            end
          else
            match prop node $"content" with
            | Some (JStr content) =>
                if N.ltb MAX_CONTENT (N.of_nat (length content))
                then (Some $"content too long", n1)
                else
                  match prop node $"autoSend" with
                  | None | Some (JBool _) => (None, n1)
                  | Some _ => (Some $"autoSend invalid", n1)
                  end
            | _ => (Some $"content invalid", n1)
            end
    end.

(** [validateCommandNode(node, depth, counter)] *)
Definition validateCommandNode (node : json) (depth : nat) (n : N)
  : option str * N :=
  validateLevel (21 - depth) node n.

(** The loop over the children of a folder. *)
Fixpoint validateChildren (children : list json) (depth : nat) (n : N)
  : option str * N :=
  match children with
  | [] => (None, n)
  | child :: rest =>
      match validateCommandNode child depth n with
      | (Some e, n') => (Some e, n')
      | (None, n') => validateChildren rest depth n'
      end
  end.

(** A command node: an object with a non-blank [id] and [name], the type
    [command], a string [content] of at most 20000 characters, and
    [autoSend] absent or boolean. *)
Definition isCommand (node : json) : Prop :=
  isObject node = true /\
  nonBlank (prop node $"id") = true /\ nonBlank (prop node $"name") = true /\
  equals (prop node $"type") $"command" = true /\
  (exists content, prop node $"content" = Some (JStr content) /\
                   (N.of_nat (length content) <= MAX_CONTENT)%N) /\
  (prop node $"autoSend" = None \/ exists b, prop node $"autoSend" = Some (JBool b)).

(** A folder node with the given children. *)
Definition isFolder (node : json) (children : list json) : Prop :=
  isObject node = true /\
  nonBlank (prop node $"id") = true /\ nonBlank (prop node $"name") = true /\
  equals (prop node $"type") $"folder" = true /\
  prop node $"children" = Some (JArr children).

(** [Tree depth node size]: [node], met at [depth], is a tree of command
    and folder nodes that reaches no depth beyond 20 and has [size]
    nodes. *)
Inductive Tree : nat -> json -> N -> Prop :=
| tree_command depth node :
    depth <= 20 -> isCommand node -> Tree depth node 1
| tree_folder depth node children size :
    depth <= 20 -> isFolder node children ->
    Forest (S depth) children size ->
    Tree depth node (1 + size)
with Forest : nat -> list json -> N -> Prop :=
| forest_nil depth : Forest depth [] 0
| forest_cons depth node size rest size' :
    Tree depth node size -> Forest depth rest size' ->
    Forest depth (node :: rest) (size + size').

End Commands.

(** ** Command sets: the file and its two endpoints *)

Module CommandSets.
Import Js Commands.

(** [!v] on a value read from JSON; [None] stands for [undefined]. *)
Definition falsy (v : option json) : bool :=
  match v with
  | None | Some JNull | Some (JBool false) | Some (JStr []) => true
  | Some (JNum q) => Qeq_bool q 0
  | Some _ => false
  end.

Section Store.
Variable cfg : Config.
(** [path.join(__dirname, 'data')] *)
Variable DATA_DIR : str.
(** [JSON.stringify(data, null, 2)], [JSON.parse] ([None] when it
    throws), [buf.toString('utf8')] and [date.toISOString()]. *)
Variable stringify : json -> str.
Variable parse : str -> option json.
Variable toStringUtf8 : list byte -> str.
Variable toISOString : Q -> str.

Definition COMMAND_SETS_FILE : str :=
  Path.join_paths [DATA_DIR; $"command-sets.json"].

Definition commandSets (updatedAt : str) (root : json) : json :=
  JObj [($"version", JNum 1); ($"updatedAt", JStr updatedAt); ($"root", root)].

Definition emptyRoot : json :=
  JObj [($"id", JStr $"root"); ($"type", JStr $"folder");
        ($"name", JStr $"root"); ($"children", JArr [])].

Definition defaultCommandSets : M json :=
  t ← getNow; mret (commandSets (toISOString t) emptyRoot).

(** [readCommandSets()] *)
Definition readCommandSets : M json :=
  store ← getFs;
  if negb (Fs.existsSync store COMMAND_SETS_FILE) then defaultCommandSets else
  match Tree.readFileSync store COMMAND_SETS_FILE with
  | inl _ => defaultCommandSets
  | inr buf =>
      match parse (toStringUtf8 buf) with
      | None => defaultCommandSets
      | Some parsed =>
          if negb (isObject parsed) then defaultCommandSets
          else if falsy (prop parsed $"root") then defaultCommandSets
          else
            let root := default JNull (prop parsed $"root") in
            match (validateCommandNode root 0 0).1 with
            | Some _ => defaultCommandSets
            | None =>
                match prop parsed $"updatedAt" with
                | Some (JStr updatedAt) => mret (commandSets updatedAt root)
                | _ => t ← getNow; mret (commandSets (toISOString t) root)
                end
            end
      end
  end.

Definition tmpFile : str :=
  COMMAND_SETS_FILE ++ $"." ++ decimal (pid cfg) ++ $".tmp".

(** [writeCommandSets(payload)]: the data saved, or the message of the
    error thrown. *)
Definition writeCommandSets (payload : json) : M (str + json) :=
  store ← getFs;
  let '(err, store1) := Fs.mkdirSyncRecursive store DATA_DIR in
  _ ← putFs store1;
  match err with
  | Some msg => mret (inl msg)
  | None =>
      t ← getNow;
      let data := commandSets (toISOString t)
                    (default JNull (prop payload $"root")) in
      match Fs.writeFileSync store1 t tmpFile (FileApi.utf8 (stringify data)) with
      | inl msg => mret (inl msg)
      | inr store2 =>
          _ ← putFs store2;
          match Fs.renameSync store2 tmpFile COMMAND_SETS_FILE with
          | inl msg => mret (inl msg)
          | inr store3 => _ ← putFs store3; mret (inr data)
          end
      end
  end.

(** [GET /api/command-sets] *)
Definition getCommandSets : M Response :=
  data ← readCommandSets;
  mret {| status := 200; body := data |}.

(** [PUT /api/command-sets]; [None] stands for a request without
    body. *)
Definition putCommandSets (reqBody : option json) : M Response :=
  let body := if falsy reqBody then JObj [] else default (JObj []) reqBody in
  if negb (isObject body) then mret (sendError 400 $"invalid body")
  else if falsy (prop body $"root") then mret (sendError 400 $"missing root")
  else
    match (validateCommandNode (default JNull (prop body $"root")) 0 0).1 with
    | Some e => mret (sendError 400 (orElse e $"invalid"))
    | None =>
        r ← writeCommandSets body;
        match r with
        | inl _ => mret (sendError 500 $"write failed")
        | inr saved => mret (sendJson [($"ok", JBool true); ($"saved", saved)])
        end
    end.

End Store.
End CommandSets.

(** ** The git endpoints, by the commands they run *)

Module GitCommands.
Import Js Git.

(** From [w] to [w'] nothing was spawned but commands that satisfy
    [P]. *)
Definition between (P : str * list str -> Prop) (w w' : World) : Prop :=
  exists cmds, spawned w' = spawned w ++ cmds /\ Forall P cmds.

(** A computation that spawns nothing but commands that satisfy [P]. *)
Definition Only {A} (P : str * list str -> Prop) (m : M A) : Prop :=
  forall w, between P w (m w).2.

(** A command that carries none of the flags that make [unzip] and [tar]
    replace existing files. *)
Definition keepsOldFiles (c : str * list str) : Prop :=
  ~ In $"-o" c.2 /\ ~ In $"--overwrite" c.2.

(** The invocation [git -C <cwd> <sub> ...]. *)
Definition runs (sub : str) (c : str * list str) : bool :=
  str_eqb c.1 $"git" &&
  match c.2 with
  | _ :: _ :: s :: _ => str_eqb s sub
  | _ => false
  end.

(** An invocation that is not [git -C <cwd> <sub> ...]. *)
Definition quiet (sub : str) (c : str * list str) : Prop := runs sub c = false.

(** The invocations that only inspect a repository; a log is asked for
    1 to 200 commits. *)
Inductive Inspects : str * list str -> Prop :=
| inspects_version : Inspects ($"git", [$"--version"])
| inspects_revParse cwd rest :
    Inspects ($"git", $"-C" :: cwd :: $"rev-parse" :: rest)
| inspects_revList cwd rest :
    Inspects ($"git", $"-C" :: cwd :: $"rev-list" :: rest)
| inspects_log cwd n rest :
    (1 <= n <= 200)%N ->
    Inspects ($"git", $"-C" :: cwd :: $"log" :: $"-n" :: decimal n :: rest).

(** [statusLines.some((line) => !line.startsWith('?? '))] on the output
    of [git status --porcelain]. *)
Definition hasTrackedChanges (statusOut : str) : bool :=
  existsb (fun line => negb (startsWith line $"?? "))
          (filterBoolean (map trimEnd (split LF statusOut))).

(** The number of parents read off [git rev-list --parents -n 1]. *)
Definition parentCount (parentsOut : str) : nat :=
  Nat.max 0 (length (words (trim parentsOut)) - 1).

Section Oracles.
Variable tool : Tool.

Definition commitExists (cwd commit : str) (store : Fs.FS) : bool :=
  match answer tool [$"-C"; cwd; $"cat-file"; $"-e"; commit ++ $"^{commit}"] store with
  | ExecOk _ _ => true
  | ExecErr _ _ _ => false
  end.

Definition statusOf (cwd : str) (store : Fs.FS) : option str :=
  match answer tool [$"-C"; cwd; $"status"; $"--porcelain"] store with
  | ExecOk out _ => Some out
  | ExecErr _ _ _ => None
  end.

Definition parentsOf (cwd commit : str) (store : Fs.FS) : option str :=
  match answer tool [$"-C"; cwd; $"rev-list"; $"--parents"; $"-n"; $"1"; commit]
               store with
  | ExecOk out _ => Some out
  | ExecErr _ _ _ => None
  end.

Definition gitWorks (store : Fs.FS) : bool :=
  match answer tool [$"--version"] store with
  | ExecOk _ _ => true
  | ExecErr _ _ _ => false
  end.

Definition insideWorkTree (cwd : str) (store : Fs.FS) : bool :=
  match answer tool [$"-C"; cwd; $"rev-parse"; $"--is-inside-work-tree"] store with
  | ExecOk out _ => str_eqb (trim out) $"true"
  | ExecErr _ _ _ => false
  end.

End Oracles.

(** The separator of the fields of a log line. *)
Definition US : ascii := ascii_of_nat 31.

(** What [git log --pretty=format:%H%x1f%h%x1f%an%x1f%ad%x1f%s] prints for
    a commit, and for a list of commits. *)
Definition render (c : Commit) : str :=
  join [US] [hash c; shortHash c; author c; date c; subject c].

Definition renderLog (cs : list Commit) : str := join [LF] (map render cs).

(** The commits that [GET /api/git/commits] reads off the output. *)
Definition parseLog (stdout : str) : list Commit :=
  omap parseCommit (filterBoolean (map trimEnd (split LF stdout))).

(** A commit whose fields hold neither a line feed nor a field
    separator, and whose subject does not end in white space. *)
Definition printable (c : Commit) : Prop :=
  Forall (fun f => ~ In LF f /\ ~ In US f)
         [hash c; shortHash c; author c; date c; subject c] /\
  trimEnd (subject c) = subject c.

End GitCommands.

(** ** The listeners of a socket *)

Module Sockets.
Import Js Pty.

(** What a listener asks of the shell or of the socket. *)
Inductive Call :=
| ShellResize (shell : nat) (cols rows : Z)
| ShellWrite (shell : nat) (data : str)
| Send (ws : nat) (data : str).

(** [session.cols = c; session.rows = r; session.lastActivity = new Date()] *)
Definition resized (c r : Z) (t : Q) (s : Session) : Session :=
  {| s_id := s_id s; s_shell := s_shell s; s_cwd := s_cwd s;
     s_cols := c; s_rows := r; s_clientId := s_clientId s;
     s_created := s_created s; s_lastActivity := t;
     s_history := s_history s; s_sockets := s_sockets s |}.

(** [session.lastActivity = new Date()] *)
Definition touched (t : Q) (s : Session) : Session :=
  {| s_id := s_id s; s_shell := s_shell s; s_cwd := s_cwd s;
     s_cols := s_cols s; s_rows := s_rows s; s_clientId := s_clientId s;
     s_created := s_created s; s_lastActivity := t;
     s_history := s_history s; s_sockets := s_sockets s |}.

(** [ws.on('message', ...)] of a connection whose variable [session]
    holds the object at [addr]; the result [None] stands for the
    [TypeError] of a connection whose [session] is [undefined].  An
    address that a listener holds is an index of [objects], which only
    grows, so the second lookup succeeds. *)
Definition onMessage (ws : nat) (session : option nat) (message : str) (t : Q)
    (st : State) : option (State * list Call) :=
  addr ← session;
  s ← objects st !! addr;
  if startsWith message $"RESIZE:" then
    let parts := split ":"%char message in
    let c := parseIntOr (default [] (parts !! 1)) 80 in
    let r := parseIntOr (default [] (parts !! 2)) 24 in
    Some (setObject addr (resized c r t s) st, [ShellResize (s_shell s) c r])
  else if str_eqb message $"GET_SESSION_ID" then
    Some (st, [Send ws ($"SESSION_ID:" ++ s_id s)])
  else
    Some (setObject addr (touched t s) st, [ShellWrite (s_shell s) message]).

(** [session.sockets.delete(ws)] *)
Definition detach (ws : nat) (s : Session) : Session :=
  {| s_id := s_id s; s_shell := s_shell s; s_cwd := s_cwd s;
     s_cols := s_cols s; s_rows := s_rows s; s_clientId := s_clientId s;
     s_created := s_created s; s_lastActivity := s_lastActivity s;
     s_history := s_history s;
     s_sockets := List.filter (fun sock => negb (Nat.eqb sock ws)) (s_sockets s) |}.

(** [ws.on('close', ...)] *)
Definition onClose (ws : nat) (session : option nat) (st : State) : State :=
  match session with
  | None => st
  | Some addr =>
      match objects st !! addr with
      | Some s => setObject addr (detach ws s) st
      | None => st
      end
  end.

End Sockets.

(** ** The list of the sessions *)

Module SessionList.
Import Js Pty.

(** An element of the array that [GET /api/sessions] answers with. *)
Record Entry := {
  e_id : str;
  e_cwd : str;
  e_created : Q;
  e_lastActivity : Q;
  e_cols : Z;
  e_rows : Z;
  e_clientId : str
}.

Definition describe (st : State) (entry : str * nat) : option Entry :=
  session ← objects st !! entry.2;
  Some {| e_id := entry.1; e_cwd := s_cwd session;
          e_created := s_created session;
          e_lastActivity := s_lastActivity session;
          e_cols := s_cols session; e_rows := s_rows session;
          e_clientId := s_clientId session |}.

(** [GET /api/sessions]; the registry is run through in the order of
    its enumeration. *)
Definition listSessions (clientIdQuery : option str) (st : State) : list Entry :=
  let clientId := default [] clientIdQuery in
  let sessions := omap (describe st) (map_to_list (terminalSessions st)) in
  if truthy clientId
  then List.filter (fun s => str_eqb (e_clientId s) clientId) sessions
  else sessions.

End SessionList.

(** ** Uploads in a JSON body *)

Module JsonUpload.
Import Js Sandbox FileApi.

Record UploadBody := {
  u_dir : option str;
  u_name : option str;
  u_dataBase64 : option str;      (* [None]: [typeof dataBase64 !== 'string'] *)
  u_overwrite : bool              (* [Boolean(body.overwrite)] *)
}.

(** [dataBase64.includes(',') ? dataBase64.split(',').pop() : dataBase64] *)
Definition payload (dataBase64 : str) : str :=
  if includes dataBase64 $","
  then default [] (last (split ","%char dataBase64))
  else dataBase64.

Section Handler.
Variable cfg : Config.
(** [Buffer.from(s, 'base64')] *)
Variable fromBase64 : str -> list byte.

Definition uploadFailed (msg : str) : Response :=
  sendError 500 (orElse msg $"upload failed").

(** [POST /api/upload] *)
Definition upload (body : UploadBody) : M Response :=
  let dir := resolvePathFromQuery cfg (u_dir body) in
  if negb (ok dir) then mret (sendError 403 (default [] (error dir))) else
  let dirTarget := default [] (target dir) in
  let nm := validateFileName (u_name body) in
  if negb (n_ok nm) then mret (sendError 400 (default [] (n_error nm))) else
  match u_dataBase64 body with
  | None => mret (sendError 400 $"dataBase64 required")
  | Some dataBase64 =>
  if negb (truthy dataBase64) then mret (sendError 400 $"dataBase64 required") else
  let buf := fromBase64 (payload dataBase64) in
  if Nat.eqb (length buf) 0 then mret (sendError 400 $"invalid data") else
  if N.ltb (MAX_UPLOAD_BYTES cfg) (N.of_nat (length buf))
  then mret (sendError 413 (tooLargeMessage cfg)) else
  store ← getFs;
  match Fs.statSync store dirTarget with
  | inl msg => mret (sendError 400 (orElse msg $"dir invalid"))
  | inr st =>
  if negb (Fs.isDirectory st) then mret (sendError 400 $"dir is not a directory") else
  let target := Path.join_paths [dirTarget; default [] (n_name nm)] in
  if negb (withinRoot cfg target) then mret (sendError 403 $"out of root") else
  if Fs.existsSync store target && negb (u_overwrite body)
  then mret (sendError 409 $"file exists") else
  let tmp := uploadTmp cfg target in
  t ← getNow;
  match Fs.writeFileSync store t tmp buf with
  | inl msg => mret (uploadFailed msg)
  | inr store1 =>
      _ ← putFs store1;
      match Fs.renameSync store1 tmp target with
      | inl msg => mret (uploadFailed msg)
      | inr store2 =>
          _ ← putFs store2;
          match Fs.statSync store2 target with
          | inl msg => mret (uploadFailed msg)
          | inr st2 =>
              mret (sendJson [($"ok", JBool true); ($"path", JStr target);
                              ($"size", jnat (Fs.size st2));
                              ($"mtimeMs", JNum (Fs.mtimeMs st2))])
          end
      end
  end end end.

End Handler.
End JsonUpload.

(** ** More example data *)

Module MoreExamples.
Import Js Sandbox Archive ArchiveApi FileApi Git Pty Examples.

Definition makeDocs : FileOps.MkdirBody :=
  {| FileOps.m_dir := Some $"."; FileOps.m_name := Some $" docs " |}.

Definition renameNotes : FileOps.RenameBody :=
  {| FileOps.r_path := Some $"notes.txt"; FileOps.r_newName := Some $"todo.txt" |}.

(** [buf.toString('utf8')] on buffers of ASCII text. *)
Definition asciiText (buf : list byte) : str := map ascii_of_byte buf.

Definition saveNotes : PutBody :=
  {| p_path := Some $"notes.txt"; p_content := Some $"hi"; p_mtimeMs := None |}.

Definition runLs : Run.RunBody :=
  {| Run.cmd := Some (JStr $"ls"); Run.args := None; Run.cwd := None |}.

(** Alice's session as [aliceState] holds it. *)
Definition aliceSession : Session :=
  {| s_id := aliceId; s_shell := 0; s_cwd := $"/home/user";
     s_cols := 120; s_rows := 40; s_clientId := $"alice";
     s_created := 0; s_lastActivity := 1;
     s_history := $"alice$ "; s_sockets := [1] |}.

Definition twoCommits : list Commit :=
  [{| hash := $"1f0c3a9e"; shortHash := $"1f0c"; author := $"Ada L";
      date := $"2024-05-01T10:00:00+02:00"; subject := $"fix: resize" |};
   {| hash := $"77aa01bc"; shortHash := $"77aa"; author := $"Bo";
      date := $"2024-04-30T09:00:00+02:00"; subject := [] |}].

(** A zip archive with one harmless entry. *)
Definition plainZip : Tool := fun file args store =>
  if existsb (str_eqb $"-Z1") args
  then (ExecOk ($"readme.txt" ++ [LF]) [], store)
  else (ExecOk [] [], <[ $"/home/user/out/readme.txt" := Fs.File [] 0 ]> store).

Definition extractKeeping : ExtractBody :=
  {| path := Some $"a.zip"; dest := Some $"out"; overwrite := false |}.

(** A repository whose work tree holds a modified tracked file. *)
Definition dirtyRepo : Tool := fun _ args store =>
  if says $"--is-inside-work-tree" args then (ExecOk $"true" [], store)
  else if says $"status" args
  then (ExecOk ($" M app.js" ++ [LF] ++ $"?? notes.txt" ++ [LF]) [], store)
  else (ExecOk [] [], store).

Definition revertLast : Request :=
  {| queryCwd := None; bodyCwd := Some $"proj"; queryLimit := None;
     bodyMode := None; bodyCommit := Some $"aaaaaaa"; confirmHard := false |}.

(** Everything on one device; and a second device mounted at [/mnt]. *)
Definition oneDevice (a b : str) : bool := true.

Definition noStats : FileOps.Stats :=
  {| FileOps.done_ := 0; FileOps.skipped := 0; FileOps.overwritten := 0 |}.

(** A command set with one command, and the request that saves it. *)
Definition oneCommand : json :=
  JObj [($"id", JStr $"root"); ($"type", JStr $"folder"); ($"name", JStr $"root");
        ($"children",
         JArr [JObj [($"id", JStr $"c1"); ($"type", JStr $"command");
                     ($"name", JStr $"list"); ($"content", JStr $"ls -la")]])].

Definition saveRequest : option json := Some (JObj [($"root", oneCommand)]).

(** An upload of the two bytes of [hi] as a data URL, and
    [Buffer.from(s, 'base64')] on the one text it carries. *)
Definition uploadHi : JsonUpload.UploadBody :=
  {| JsonUpload.u_dir := Some $"."; JsonUpload.u_name := Some $"hi.txt";
     JsonUpload.u_dataBase64 := Some $"data:text/plain;base64,aGk=";
     JsonUpload.u_overwrite := false |}.

Definition decodeHi (s : str) : list byte :=
  if str_eqb s $"aGk=" then [x68; x69] else [].

End MoreExamples.

(** * Properties *)

(** ** Facts about the string primitives *)

Module JsFacts.
Import Js Examples.

Lemma chr_eqb_eq a b : chr_eqb a b = true <-> a = b.
Proof. apply Ascii.eqb_eq. Qed.

Lemma chr_eqb_refl a : chr_eqb a a = true.
Proof. by apply chr_eqb_eq. Qed.

Lemma chr_eqb_neq a b : chr_eqb a b = false <-> a <> b.
Proof. apply Ascii.eqb_neq. Qed.

Lemma str_eqb_eq a b : str_eqb a b = true <-> a = b.
Proof.
  revert b. induction a as [|x a IH]; intros [|y b]; simpl; try easy.
  rewrite andb_true_iff, chr_eqb_eq, IH. split.
  - by intros [-> ->].
  - by intros [= -> ->].
Qed.

Lemma str_eqb_refl a : str_eqb a a = true.
Proof. by apply str_eqb_eq. Qed.

Lemma str_eqb_neq a b : str_eqb a b = false <-> a <> b.
Proof.
  rewrite <- str_eqb_eq. destruct (str_eqb a b); split; congruence.
Qed.

Lemma startsWith_prefix s p : startsWith s p = true <-> exists r, s = p ++ r.
Proof.
  revert s. induction p as [|x p IH]; intros s; simpl.
  - split; [intros _; by exists s | done].
  - destruct s as [|y s].
    + split; [done | by intros [r ?]].
    + rewrite andb_true_iff, chr_eqb_eq, IH. split.
      * intros [-> [r ->]]. by exists r.
      * intros [r [= -> ->]]. eauto.
Qed.

Lemma truthy_true s : truthy s = true <-> s <> [].
Proof. by destruct s. Qed.

Lemma truthy_false s : truthy s = false <-> s = [].
Proof. by destruct s. Qed.

Lemma filterBoolean_truthy xs : Forall (fun x => truthy x = true) (filterBoolean xs).
Proof.
  unfold filterBoolean. apply List.Forall_forall. intros x Hx.
  by apply List.filter_In in Hx as [_ ?].
Qed.

Lemma In_filterBoolean x xs : x <> [] -> In x (filterBoolean xs) <-> In x xs.
Proof.
  intros Hx. unfold filterBoolean. rewrite List.filter_In.
  rewrite truthy_true. tauto.
Qed.

Lemma existsb_str_eqb x xs : existsb (fun s => str_eqb s x) xs = true <-> In x xs.
Proof.
  rewrite existsb_exists. split.
  - intros [y [Hy Heq]]. apply str_eqb_eq in Heq. by subst.
  - intros Hx. exists x. split; [done | apply str_eqb_refl].
Qed.

End JsFacts.

(** ** The archive gate *)

Module ArchiveFacts.
Import Js JsFacts Sandbox Archive ArchiveApi Examples.

Lemma hasDrivePrefix_spec p :
  hasDrivePrefix p = true <->
  exists c r, isLetter c = true /\ p = c :: ":"%char :: "/"%char :: r.
Proof.
  unfold hasDrivePrefix. destruct p as [|c1 [|c2 [|c3 r]]].
  1-3: split; [done | by intros (? & ? & _ & ?)].
  rewrite !andb_true_iff, !chr_eqb_eq. split.
  - intros [[? ->] ->]. eauto.
  - intros (c & r' & ? & [= -> -> ->]). done.
Qed.

(** The predicate rejects exactly the entries whose normalized form is
    unsafe in the specification's sense. *)
Lemma isSafeArchiveEntry_spec entry :
  isSafeArchiveEntry entry = false <-> unsafeNormalized (normalizeEntryPath entry).
Proof.
  unfold isSafeArchiveEntry, unsafeNormalized.
  set (p := normalizeEntryPath entry). clearbody p.
  destruct (truthy p) eqn:Ht; cbn [negb].
  2: { apply truthy_false in Ht. split; [intros _; by left | done]. }
  apply truthy_true in Ht.
  destruct (startsWith p $"/") eqn:Hs.
  { apply startsWith_prefix in Hs as [r ->]. split; [|done]. right; left. by exists r. }
  destruct (hasDrivePrefix p) eqn:Hd.
  { apply hasDrivePrefix_spec in Hd. split; [intros _; right; right; by left | done]. }
  assert (Hdd : existsb (fun s => str_eqb s $"..") (filterBoolean (split "/"%char p)) = true
                <-> In $".." (split "/"%char p)).
  { rewrite existsb_str_eqb. by apply In_filterBoolean. }
  destruct (existsb _ _) eqn:He.
  { split; [|done]. intros _. right; right; right. by apply Hdd. }
  split; [done|]. intros [?|[[r ->]|[Hx|Hx]]].
  - done.
  - assert (startsWith ("/"%char :: r) $"/" = true) by (apply startsWith_prefix; by exists r).
    congruence.
  - apply hasDrivePrefix_spec in Hx. congruence.
  - apply Hdd in Hx. congruence.
Qed.

Lemma stripDotSlash_eq c1 c2 rest :
  stripDotSlash (c1 :: c2 :: rest) =
    if chr_eqb c1 "."%char && chr_eqb c2 "/"%char
    then stripDotSlash rest else c1 :: c2 :: rest.
Proof. reflexivity. Qed.

Lemma stripDotSlash_spec p :
  stripDotSlash p `suffix_of` p /\ startsWith (stripDotSlash p) $"./" = false.
Proof.
  remember (length p) as n eqn:Hn. revert p Hn.
  induction n as [n IH] using lt_wf_ind. intros p Hn.
  destruct p as [|c1 [|c2 rest]].
  - done.
  - split; [done|]. cbn [stripDotSlash startsWith list_ascii_of_string].
    apply andb_false_r.
  - rewrite stripDotSlash_eq.
    destruct (chr_eqb c1 "."%char && chr_eqb c2 "/"%char) eqn:Hdot.
    + destruct (IH (length rest)) with (p := rest) as [Hsuf Hdone];
        [simpl in Hn; lia|done|].
      split; [|done]. by do 2 apply suffix_cons_r.
    + split; [done|].
      cbn [startsWith list_ascii_of_string]. rewrite andb_true_r.
      unfold chr_eqb in *.
      by rewrite (Ascii.eqb_sym "."%char), (Ascii.eqb_sym "/"%char).
Qed.

(** What normalizing an entry achieves: no NUL, no backslash, and no
    leading [./] is left. *)
Lemma normalizeEntryPath_spec entry :
  let p := normalizeEntryPath entry in
  ~ In NUL p /\ ~ In backslash p /\ startsWith p $"./" = false.
Proof.
  unfold normalizeEntryPath.
  set (raw := List.filter (fun c => negb (isNul c)) entry).
  set (q := map (fun c => if chr_eqb c backslash then "/"%char else c) raw).
  destruct (stripDotSlash_spec q) as [[k Hk] Hdone].
  assert (Hq : forall c, In c (stripDotSlash q) -> In c q).
  { intros c Hc. rewrite Hk. apply in_or_app. by right. }
  split; [|split; [|done]].
  - intros Hin. apply Hq in Hin. subst q.
    apply in_map_iff in Hin as (c & Hc & Hraw). subst raw.
    apply filter_In in Hraw as [_ Hnn]. unfold isNul in Hnn.
    destruct (chr_eqb c backslash); [discriminate Hc|].
    subst c. by rewrite chr_eqb_refl in Hnn.
  - intros Hin. apply Hq in Hin. subst q.
    apply in_map_iff in Hin as (c & Hc & _).
    destruct (chr_eqb c backslash) eqn:Hb; [discriminate Hc|].
    subst c. by rewrite chr_eqb_refl in Hb.
Qed.

Lemma Unified_spec entry u :
  Unified entry u <->
  u = map (fun c => if chr_eqb c backslash then "/"%char else c)
          (List.filter (fun c => negb (isNul c)) entry).
Proof.
  split.
  - induction 1 as [|e u _ IH|e u _ IH|c e u Hn Hb _ IH].
    + done.
    + cbn [List.filter]. unfold isNul at 1. by rewrite chr_eqb_refl.
    + cbn [List.filter]. unfold isNul at 1.
      assert (chr_eqb backslash NUL = false) as -> by reflexivity.
      cbn [negb map]. by rewrite chr_eqb_refl, IH.
    + cbn [List.filter]. unfold isNul at 1.
      apply chr_eqb_neq in Hn as ->. cbn [negb map].
      apply chr_eqb_neq in Hb as ->. by rewrite IH.
  - intros ->. induction entry as [|c e IH]; [constructor|].
    cbn [List.filter]. unfold isNul at 1.
    destruct (chr_eqb c NUL) eqn:Hn; cbn [negb map].
    + apply chr_eqb_eq in Hn as ->. by constructor.
    + destruct (chr_eqb c backslash) eqn:Hb.
      * apply chr_eqb_eq in Hb as ->. by constructor.
      * apply chr_eqb_neq in Hn, Hb. by constructor.
Qed.

Lemma Stripped_spec u p : Stripped u p <-> stripDotSlash u = p.
Proof.
  split.
  - induction 1 as [p Hp|u p _ IH]; [|by rewrite stripDotSlash_eq].
    destruct p as [|c1 [|c2 rest]]; [done..|].
    rewrite stripDotSlash_eq.
    cbn [startsWith list_ascii_of_string] in Hp. rewrite andb_true_r in Hp.
    unfold chr_eqb in *.
    by rewrite (Ascii.eqb_sym c1), (Ascii.eqb_sym c2), Hp.
  - intros <-. remember (length u) as n eqn:Hn. revert u Hn.
    induction n as [n IH] using lt_wf_ind. intros u Hn.
    destruct u as [|c1 [|c2 rest]].
    + by constructor.
    + constructor. cbn [startsWith list_ascii_of_string]. apply andb_false_r.
    + rewrite stripDotSlash_eq.
      destruct (chr_eqb c1 "."%char && chr_eqb c2 "/"%char) eqn:Hdot.
      * apply andb_true_iff in Hdot as [->%chr_eqb_eq ->%chr_eqb_eq].
        constructor. apply (IH (length rest)); [simpl in Hn; lia|done].
      * constructor. cbn [startsWith list_ascii_of_string]. rewrite andb_true_r.
        unfold chr_eqb in *.
        by rewrite (Ascii.eqb_sym "."%char), (Ascii.eqb_sym "/"%char).
Qed.

(** [normalizeEntryPath] computes the normalization of the
    specification. *)
Lemma Normalized_spec entry p :
  Normalized entry p <-> normalizeEntryPath entry = p.
Proof.
  unfold Normalized, normalizeEntryPath. split.
  - intros (u & ->%Unified_spec & Hs%Stripped_spec). exact Hs.
  - intros <-. eexists. split; [by apply Unified_spec|by apply Stripped_spec].
Qed.

End ArchiveFacts.

Module ArchiveGate.
Import Js JsFacts Sandbox Archive ArchiveApi ArchiveFacts Examples.

Lemma parseListing_truthy out : Forall (fun x => truthy x = true) (parseListing out).
Proof. apply filterBoolean_truthy. Qed.

Lemma listArchiveEntries_truthy tool filePath type w entries w1 :
  listArchiveEntries tool filePath type w = (inr entries, w1) ->
  Forall (fun x => truthy x = true) entries.
Proof.
  unfold listArchiveEntries. unfold_monad.
  repeat case_match; intros; simplify_eq; auto using parseListing_truthy.
Qed.

Lemma inspect_entries_truthy cfg tool body w l w1 :
  inspect cfg tool body w = (inr l, w1) ->
  Forall (fun x => truthy x = true) (l_entries l).
Proof.
  unfold inspect. unfold_monad.
  repeat case_match; intros; simplify_eq; simpl;
    eauto using listArchiveEntries_truthy.
Qed.

Lemma find_first_unsafe pre bad post :
  Forall (fun e => isSafeArchiveEntry e = true) pre ->
  isSafeArchiveEntry bad = false ->
  find (fun x => negb (isSafeArchiveEntry x)) (pre ++ bad :: post) = Some bad.
Proof.
  induction 1 as [|e pre He _ IH]; intros Hbad; simpl.
  - by rewrite Hbad.
  - rewrite He. simpl. auto.
Qed.

Lemma find_none_all_safe entries :
  find (fun x => negb (isSafeArchiveEntry x)) entries = None ->
  Forall (fun e => isSafeArchiveEntry e = true) entries.
Proof.
  intros H. apply List.Forall_forall. intros e He.
  eapply find_none in H; [|exact He]. by destruct (isSafeArchiveEntry e).
Qed.

(** C2.  [normalizeEntryPath] computes the normalization of the
    specification: the entry with every backslash turned into [/] and
    every NUL dropped, then without its leading [./]s.  The safety
    predicate rejects exactly the entries whose normalized form is empty,
    absolute, led by a drive letter or holds a [..] segment, the
    normalized form being free of NUL, of backslashes and of a leading
    [./]; and [POST /api/archive/extract] runs a tool after the listing
    only when every listed entry is safe: the first unsafe entry ends the
    request with an error, the world left as the listing left it. *)
Theorem isSafeArchiveEntry_gates_extraction :
  (forall entry p, Normalized entry p <-> normalizeEntryPath entry = p) /\
  (forall entry p,
      Normalized entry p ->
      (isSafeArchiveEntry entry = false <-> unsafeNormalized p)) /\
  (forall entry,
      isSafeArchiveEntry entry = false <->
      unsafeNormalized (normalizeEntryPath entry)) /\
  (forall entry,
      let p := normalizeEntryPath entry in
      ~ In NUL p /\ ~ In backslash p /\ startsWith p $"./" = false) /\
  (forall cfg tool body w,
      match inspect cfg tool body w with
      | (inl early, w1) => archiveExtract cfg tool body w = (early, w1)
      | (inr l, w1) =>
          let '(resp, w') := archiveExtract cfg tool body w in
          (spawned w' <> spawned w1 ->
           Forall (fun e => isSafeArchiveEntry e = true) (l_entries l)) /\
          (forall pre bad post,
              l_entries l = pre ++ bad :: post ->
              Forall (fun e => isSafeArchiveEntry e = true) pre ->
              isSafeArchiveEntry bad = false ->
              w' = w1 /\ status resp <> 200 /\
              ((N.of_nat (length (l_entries l)) <= 20000)%N ->
               resp = sendError 400 ($"unsafe entry path: " ++ bad)))
      end).
Proof.
  split; [apply Normalized_spec|].
  split.
  { intros entry p <-%Normalized_spec. apply isSafeArchiveEntry_spec. }
  split; [apply isSafeArchiveEntry_spec|].
  split; [apply normalizeEntryPath_spec|].
  intros cfg tool body w.
  destruct (inspect cfg tool body w) as [[early|l] w1] eqn:Hi.
  { unfold archiveExtract. unfold_monad. by rewrite Hi. }
  pose proof (inspect_entries_truthy _ _ _ _ _ _ Hi) as Htr.
  unfold archiveExtract. unfold_monad. rewrite Hi.
  unfold checkAndExtract. unfold_monad.
  destruct (Nat.eqb (length (l_entries l)) 0) eqn:Hlen.
  { apply Nat.eqb_eq in Hlen. split; [done|].
    intros pre bad post Heq. rewrite Heq, length_app in Hlen. simpl in Hlen. lia. }
  destruct (N.ltb 20000 (N.of_nat (length (l_entries l)))) eqn:Hmany.
  { apply N.ltb_lt in Hmany. split; [done|].
    intros pre bad post Heq Hpre Hbad. repeat split; [done|]. lia. }
  destruct (find _ (l_entries l)) as [bad'|] eqn:Hfind.
  - pose proof (find_some _ _ Hfind) as [Hin Hneg].
    assert (truthy bad' = true) as Hb'.
    { rewrite List.Forall_forall in Htr. auto. }
    destruct bad' as [|c rest]; [done|].
    split; [done|].
    intros pre bad post Heq Hpre Hbad.
    rewrite Heq, (find_first_unsafe _ _ _ Hpre Hbad) in Hfind.
    injection Hfind as <-. done.
  - apply find_none_all_safe in Hfind.
    assert (Hno : forall pre bad post,
               l_entries l = pre ++ bad :: post ->
               isSafeArchiveEntry bad = false -> False).
    { intros pre bad post Heq Hbad. rewrite Heq in Hfind.
      apply Forall_app in Hfind as [_ Hfind].
      apply Forall_cons in Hfind as [Hfind _]. congruence. }
    repeat case_match; simplify_eq; (split; [done|]);
      intros pre bad post Heq Hpre Hbad; by destruct (Hno _ _ _ Heq Hbad).
Qed.

Lemma isSafeArchiveEntry_gates_extraction_witness :
  isSafeArchiveEntry $"../../etc/passwd" = false /\
  (normalizeEntryPath ("."%char :: backslash :: $"./readme.txt") = $"readme.txt" /\
   isSafeArchiveEntry ("."%char :: backslash :: $"./readme.txt") = true) /\
  (normalizeEntryPath ($"docs" ++ backslash :: "."%char :: NUL :: "."%char
                         :: backslash :: $"etc")
     = $"docs/../etc" /\
   isSafeArchiveEntry ($"docs" ++ backslash :: "."%char :: NUL :: "."%char
                         :: backslash :: $"etc") = false) /\
  isSafeArchiveEntry ($"C:" ++ backslash :: $"boot.ini") = false /\
  (archiveExtract exampleConfig zipSlip extractHere archiveWorld).1 =
    sendError 400 $"unsafe entry path: ../../etc/passwd" /\
  spawned (archiveExtract exampleConfig zipSlip extractHere archiveWorld).2 =
    [($"unzip", [$"-Z1"; $"/home/user/a.zip"])].
Proof.
  destruct isSafeArchiveEntry_gates_extraction as (Hnorm & Hspec & Hpred & _ & Hgate).
  assert (Hbad : isSafeArchiveEntry $"../../etc/passwd" = false).
  { apply Hpred. right. right. right. vm_compute. auto. }
  split; [exact Hbad|].
  assert (Hreadme : Normalized ("."%char :: backslash :: $"./readme.txt") $"readme.txt").
  { eexists. split.
    - apply unified_keep; [done|done|]. apply unified_backslash.
      repeat (apply unified_keep; [done|done|]). apply unified_nil.
    - do 2 apply stripped_more. by apply stripped_here. }
  assert (Hclimb : Normalized ($"docs" ++ backslash :: "."%char :: NUL :: "."%char
                                 :: backslash :: $"etc") $"docs/../etc").
  { eexists. split.
    - cbn [app list_ascii_of_string].
      do 4 (apply unified_keep; [done|done|]). apply unified_backslash.
      apply unified_keep; [done|done|]. apply unified_nul.
      apply unified_keep; [done|done|]. apply unified_backslash.
      repeat (apply unified_keep; [done|done|]). apply unified_nil.
    - by apply stripped_here. }
  assert (Hdrive : Normalized ($"C:" ++ backslash :: $"boot.ini") $"C:/boot.ini").
  { eexists. split.
    - cbn [app list_ascii_of_string].
      do 2 (apply unified_keep; [done|done|]). apply unified_backslash.
      repeat (apply unified_keep; [done|done|]). apply unified_nil.
    - by apply stripped_here. }
  split.
  { split; [by apply Hnorm|].
    destruct (isSafeArchiveEntry ("."%char :: backslash :: $"./readme.txt")) eqn:E;
      [done|].
    apply (Hspec _ _ Hreadme) in E.
    destruct E as [E|[[r E]|[(c & r & _ & E)|E]]]; [discriminate E..|].
    vm_compute in E. by repeat destruct E as [E|E]. }
  split.
  { split; [by apply Hnorm|]. apply (Hspec _ _ Hclimb).
    right. right. right. vm_compute. auto. }
  split.
  { apply (Hspec _ _ Hdrive). right. right. left.
    exists "C"%char, $"boot.ini". by split. }
  specialize (Hgate exampleConfig zipSlip extractHere archiveWorld).
  destruct (inspect exampleConfig zipSlip extractHere archiveWorld) as [[early|l] w1] eqn:Hi;
    [discriminate Hi|].
  injection Hi as <- <-.
  destruct (archiveExtract exampleConfig zipSlip extractHere archiveWorld) as [resp w'].
  destruct Hgate as [_ Hfirst].
  destruct (Hfirst [$"readme.txt"] $"../../etc/passwd" [] eq_refl) as (-> & _ & Hresp).
  - constructor; [reflexivity|constructor].
  - exact Hbad.
  - split; [apply Hresp; vm_compute; discriminate|reflexivity].
Defined.

End ArchiveGate.

(** ** Resolved paths *)

Module PathFacts.
Import Js JsFacts Path.

Lemma resolveLoop_absolute cwd paths acc :
  isAbsolute cwd = true -> (resolveLoop (paths ++ [cwd]) acc).2 = true.
Proof.
  intros Habs. revert acc. induction paths as [|p paths IH]; intros acc; simpl.
  - destruct cwd as [|c cwd]; [done|]. simpl. simpl in Habs. by rewrite Habs.
  - destruct (truthy p); [|apply IH]. destruct (isAbsolute p); [done|apply IH].
Qed.

Lemma split_cons_inv c s :
  split sep (c :: s) =
    if chr_eqb c sep then [] :: split sep s
    else match split sep s with
         | seg :: segs => (c :: seg) :: segs
         | [] => [[c]]
         end.
Proof. reflexivity. Qed.

Lemma split_nonempty s : split sep s <> [].
Proof.
  induction s as [|c s IH]; [done|]. rewrite split_cons_inv.
  destruct (chr_eqb c sep); [done|]. by destruct (split sep s).
Qed.

Lemma split_slashfree s : Forall (fun seg => ~ In sep seg) (split sep s).
Proof.
  induction s as [|c s IH]; [simpl; constructor; [by intros []|constructor]|].
  rewrite split_cons_inv. destruct (chr_eqb c sep) eqn:Hc.
  - constructor; [by intros []|done].
  - destruct (split sep s) as [|seg segs] eqn:Hs; [by destruct (split_nonempty s)|].
    apply Forall_cons in IH as [H1 H2]. constructor; [|done].
    intros [->|Hin]; [|done]. by rewrite chr_eqb_refl in Hc.
Qed.

Lemma normStep_clean acc seg :
  Forall clean acc -> ~ In sep seg -> Forall clean (normStep false acc seg).
Proof.
  intros Hacc Hseg. unfold normStep.
  destruct (negb (truthy seg) || isDot seg) eqn:Hskip; [done|].
  destruct (isDotDot seg).
  - destruct acc as [|top below]; [done|].
    apply Forall_cons in Hacc as [? ?]. by destruct (isDotDot top); [constructor|].
  - constructor; [|done]. split; [|done].
    apply orb_false_iff in Hskip as [Ht _]. apply negb_false_iff in Ht.
    by apply truthy_true.
Qed.

Lemma normalizeSegments_clean segs :
  Forall (fun seg => ~ In sep seg) segs ->
  Forall clean (normalizeSegments false segs).
Proof.
  unfold normalizeSegments. intros Hsegs. apply Forall_rev.
  assert (forall acc, Forall clean acc ->
            Forall clean (fold_left (normStep false) segs acc)) as H; [|by apply H].
  induction Hsegs as [|seg segs Hseg _ IH]; intros acc Hacc; simpl; [done|].
  apply IH. by apply normStep_clean.
Qed.

(** An absolute working directory makes every resolved path a separator
    followed by clean segments joined by separators. *)
Lemma resolve_shape cwd args :
  isAbsolute cwd = true ->
  exists segs, Forall clean segs /\ resolve cwd args = sep :: join [sep] segs.
Proof.
  intros Habs. unfold resolve.
  pose proof (resolveLoop_absolute cwd (rev args) [] Habs) as Hloop.
  destruct (resolveLoop (rev args ++ [cwd]) []) as [rp abs]. simpl in Hloop. subst abs.
  cbn [negb]. unfold normalizeString. eexists. split; [|reflexivity].
  apply normalizeSegments_clean, split_slashfree.
Qed.

Lemma split_clean_one x : ~ In sep x -> split sep x = [x].
Proof.
  induction x as [|c x IH]; intros Hx; [done|]. rewrite split_cons_inv.
  assert (chr_eqb c sep = false) as -> by (apply chr_eqb_neq; intros ->; apply Hx; by left).
  rewrite IH; [done|]. intros ?. apply Hx. by right.
Qed.

Lemma split_clean_app x rest :
  ~ In sep x -> split sep (x ++ sep :: rest) = x :: split sep rest.
Proof.
  induction x as [|c x IH]; intros Hx.
  - change ([] ++ sep :: rest) with (sep :: rest).
    by rewrite split_cons_inv, chr_eqb_refl.
  - change ((c :: x) ++ sep :: rest) with (c :: (x ++ sep :: rest)).
    rewrite split_cons_inv.
    assert (chr_eqb c sep = false) as -> by (apply chr_eqb_neq; intros ->; apply Hx; by left).
    rewrite IH; [done|]. intros ?. apply Hx. by right.
Qed.

Lemma join_cons x y ys : join [sep] (x :: y :: ys) = x ++ sep :: join [sep] (y :: ys).
Proof. reflexivity. Qed.

Lemma split_join x xs :
  Forall clean (x :: xs) -> split sep (join [sep] (x :: xs)) = x :: xs.
Proof.
  revert x. induction xs as [|y ys IH]; intros x Hc.
  - apply Forall_cons in Hc as [[_ Hx] _]. by apply split_clean_one.
  - apply Forall_cons in Hc as [[_ Hx] Hrest].
    rewrite join_cons, split_clean_app by done. f_equal. by apply IH.
Qed.

Lemma filterBoolean_clean xs : Forall clean xs -> filterBoolean xs = xs.
Proof.
  induction 1 as [|x xs [Hx _] _ IH]; [done|]. unfold filterBoolean in *. simpl.
  apply truthy_true in Hx as ->. by rewrite IH.
Qed.

Lemma segments_shape cwd p segs :
  Forall clean segs ->
  resolve cwd [p] = sep :: join [sep] segs ->
  segments cwd p = segs.
Proof.
  intros Hc Hr. unfold segments. rewrite Hr.
  change (split sep (sep :: join [sep] segs)) with ([] :: split sep (join [sep] segs)).
  destruct segs as [|x xs]; [done|].
  rewrite split_join by done.
  change (filterBoolean ([] :: x :: xs)) with (filterBoolean (x :: xs)).
  by apply filterBoolean_clean.
Qed.

Lemma join_app r rs x rest :
  join [sep] ((r :: rs) ++ x :: rest) =
  join [sep] (r :: rs) ++ sep :: join [sep] (x :: rest).
Proof.
  revert r. induction rs as [|r' rs IH]; intros r; [done|].
  change ((r :: r' :: rs) ++ x :: rest) with (r :: (r' :: rs) ++ x :: rest).
  change ((r' :: rs) ++ x :: rest) with (r' :: (rs ++ x :: rest)).
  rewrite join_cons. change (r' :: (rs ++ x :: rest)) with ((r' :: rs) ++ x :: rest).
  rewrite IH, join_cons. by rewrite <- app_assoc.
Qed.

Lemma join_app_prefix rs rest :
  startsWith (sep :: join [sep] (rs ++ rest)) (sep :: join [sep] rs) = true.
Proof.
  apply startsWith_prefix.
  destruct rest as [|x rest]; [exists []; by rewrite !app_nil_r|].
  destruct rs as [|r rs]; [by eexists|].
  exists (sep :: join [sep] (x :: rest)). by rewrite join_app.
Qed.

End PathFacts.

(** ** The path sandbox *)

Module SandboxFacts.
Import Js JsFacts Path Sandbox PathFacts Examples.

Section WithConfig.
Variable cfg : Config.

(** Every path whose canonical form lies inside the root is accepted. *)
Lemma withinRoot_complete p :
  isAbsolute (processCwd cfg) = true ->
  liesInsideRoot cfg p = true -> withinRoot cfg p = true.
Proof.
  intros Habs Hin. unfold liesInsideRoot, withinRoot, Sandbox.resolve in *.
  destruct (resolve_shape (processCwd cfg) [ROOT cfg] Habs) as (rs & Hrs & Hr).
  destruct (resolve_shape (processCwd cfg) [p] Habs) as (ps & Hps & Hp).
  rewrite (segments_shape _ _ _ Hrs Hr), (segments_shape _ _ _ Hps Hp) in Hin.
  apply bool_decide_eq_true in Hin.
  rewrite Hr, Hp. rewrite <- (take_drop (length rs) ps), Hin.
  apply join_app_prefix.
Qed.
End WithConfig.

(** C1.  With the root [/home/user], the query path [../user2/secret]
    resolves to [/home/user2/secret], which lies outside the root, and
    [resolvePathFromQuery] accepts it: the root is compared as a string
    prefix, not segment by segment. *)
Theorem resolvePathFromQuery_accepts_sibling_of_root :
  resolvePathFromQuery exampleConfig (Some $"../user2/secret") =
    {| ok := true; error := None;
       target := Some $"/home/user2/secret"; raw := $"../user2/secret" |}
  /\ liesInsideRoot exampleConfig $"/home/user2/secret" = false.
Proof. split; vm_compute; reflexivity. Qed.

End SandboxFacts.

(** ** The git workflow *)

Module GitFacts.
Import Js JsFacts Sandbox Git Examples.

Section WithServer.
Variable cfg : Config.
Variable tool : Tool.






End WithServer.



End GitFacts.

Module ResetFacts.
Import Js JsFacts Sandbox Git GitFacts Examples.

Section WithServer.
Variable cfg : Config.
Variable tool : Tool.

Lemma noReset_refl w : noResetBetween w w.
Proof. exists []. by rewrite app_nil_r. Qed.

Lemma noReset_trans w1 w2 w3 :
  noResetBetween w1 w2 -> noResetBetween w2 w3 -> noResetBetween w1 w3.
Proof.
  intros [c1 [H1 F1]] [c2 [H2 F2]]. exists (c1 ++ c2). split.
  - by rewrite H2, H1, app_assoc.
  - by apply Forall_app.
Qed.

(** One git call: what it answers and what it logs. *)
Lemma git_call args w :
  git tool args w =
    (answer tool args (fs w),
     {| fs := (tool $"git" args (fs w)).2; now := now w;
        spawned := spawned w ++ [($"git", args)] |}).
Proof.
  unfold git, execFileAsync, answer. by destruct (tool _ _ _).
Qed.

Lemma git_noReset args w :
  isResetCommand ($"git", args) = false ->
  noResetBetween w (git tool args w).2.
Proof.
  intros H. rewrite git_call. simpl. exists [($"git", args)].
  split; [done|]. by constructor.
Qed.

Lemma detectGitInfo_noReset cwd w :
  noResetBetween w (detectGitInfo tool cwd w).2.
Proof.
  unfold detectGitInfo. unfold_monad.
  pose proof (git_noReset [$"--version"] w eq_refl) as Q1.
  destruct (git tool _ w) as [v w1]. simpl in Q1.
  destruct v; [|done].
  pose proof (git_noReset [$"-C"; cwd; $"rev-parse"; $"--is-inside-work-tree"]
                w1 eq_refl) as Q2.
  destruct (git tool _ w1) as [r w2]. simpl in Q2.
  destruct r; [|by eapply noReset_trans].
  destruct (negb _); [by eapply noReset_trans|].
  pose proof (git_noReset [$"-C"; cwd; $"rev-parse"; $"--show-toplevel"]
                w2 eq_refl) as Q3.
  destruct (git tool _ w2) as [top w3]. simpl in Q3.
  pose proof (git_noReset [$"-C"; cwd; $"rev-parse"; $"--abbrev-ref"; $"HEAD"]
                w3 eq_refl) as Q4.
  destruct (git tool _ w3) as [br w4]. simpl in Q4.
  simpl. eauto using noReset_trans.
Qed.

Lemma detectUpstream_spec cwd w :
  (detectUpstream tool cwd w).1 = upstreamOf tool cwd (fs w) /\
  noResetBetween w (detectUpstream tool cwd w).2.
Proof.
  unfold detectUpstream, upstreamOf. unfold_monad.
  destruct (git tool _ w) as [r w1] eqn:E.
  pose proof (git_call [$"-C"; cwd; $"rev-parse"; $"--abbrev-ref";
                        $"--symbolic-full-name"; $"@{u}"] w) as Hc.
  rewrite E in Hc. injection Hc as -> ->. split; [done|].
  simpl. exists [($"git", [$"-C"; cwd; $"rev-parse"; $"--abbrev-ref";
                           $"--symbolic-full-name"; $"@{u}"])].
  split; [done|]. by constructor.
Qed.

Lemma isAncestor_spec cwd commit base w :
  (isAncestor tool cwd commit base w).1 = ancestorOf tool cwd commit base (fs w) /\
  noResetBetween w (isAncestor tool cwd commit base w).2.
Proof.
  unfold isAncestor, ancestorOf. unfold_monad.
  rewrite git_call. simpl. split; [done|].
  exists [($"git", [$"-C"; cwd; $"merge-base"; $"--is-ancestor"; commit; base])].
  split; [done|]. by constructor.
Qed.

Lemma revParse_spec cwd name w :
  (revParse tool cwd name w).1 = headOf tool cwd name (fs w) /\
  noResetBetween w (revParse tool cwd name w).2.
Proof.
  unfold revParse, headOf. unfold_monad.
  rewrite git_call. simpl. split; [done|].
  exists [($"git", [$"-C"; cwd; $"rev-parse"; name])].
  split; [done|]. by constructor.
Qed.

(** [git reset] is spawned only after every check has passed. *)
Lemma gitReset_checks req w :
  let cwd := default [] (c_cwd (resolveCwdFromReq cfg req)) in
  let mode := toLowerCase (default [] (bodyMode req)) in
  let commit := trim (default [] (bodyCommit req)) in
  refused w (gitReset cfg tool req w) \/
  ((mode = $"hard" -> confirmHard req = true) /\
   exists s1 s2 s3 s4 upstream,
     upstreamOf tool cwd s1 = Some upstream /\
     ancestorOf tool cwd commit $"HEAD" s3 = true /\
     (ancestorOf tool cwd commit upstream s2 = true ->
      headOf tool cwd upstream s4 = Some commit)).
Proof.
  intros cwd mode commit. unfold gitReset, refused.
  fold cwd mode commit.
  destruct (negb (c_ok _)); [left; split; [done|apply noReset_refl]|].
  destruct (negb (str_eqb mode $"soft") && negb (str_eqb mode $"hard")) eqn:Hmode;
    [left; split; [done|apply noReset_refl]|].
  destruct (negb (truthy commit)); [left; split; [done|apply noReset_refl]|].
  unfold_monad.
  pose proof (detectGitInfo_noReset cwd w) as Q1.
  destruct (detectGitInfo tool cwd w) as [info w1]. simpl in Q1.
  destruct (negb (gitAvailable info)); [left; by split|].
  destruct (negb (isRepo info)); [left; by split|].
  destruct (str_eqb mode $"hard" && negb (confirmHard req)) eqn:Hconfirm;
    [left; by split|].
  assert (Hhard : mode = $"hard" -> confirmHard req = true).
  { intros Hm. rewrite Hm, str_eqb_refl in Hconfirm.
    by destruct (confirmHard req). }
  pose proof (git_noReset [$"-C"; cwd; $"cat-file"; $"-e"; commit ++ $"^{commit}"]
                w1 eq_refl) as Q2.
  destruct (git tool _ w1) as [ex w2]. simpl in Q2.
  assert (Q12 : noResetBetween w w2) by eauto using noReset_trans.
  destruct ex; [|left; by split].
  pose proof (detectUpstream_spec cwd w2) as [U Q3].
  destruct (detectUpstream tool cwd w2) as [up w3]. cbn [fst snd] in U, Q3.
  assert (Q13 : noResetBetween w w3) by eauto using noReset_trans.
  destruct up as [upstream|]; [|left; by split].
  pose proof (isAncestor_spec cwd commit upstream w3) as [A1 Q4].
  destruct (isAncestor tool cwd commit upstream w3) as [onUp w4]. cbn [fst snd] in A1, Q4.
  pose proof (isAncestor_spec cwd commit $"HEAD" w4) as [A2 Q5].
  destruct (isAncestor tool cwd commit $"HEAD" w4) as [reach w5]. cbn [fst snd] in A2, Q5.
  assert (Q15 : noResetBetween w w5) by eauto using noReset_trans.
  destruct reach; cbn [negb]; [|left; by split].
  pose proof (revParse_spec cwd upstream w5) as [R Q6].
  destruct (revParse tool cwd upstream w5) as [h w6]. cbn [fst snd] in R, Q6.
  assert (Q16 : noResetBetween w w6) by eauto using noReset_trans.
  destruct onUp.
  - destruct h as [h0|]; [|left; by split].
    destruct (str_eqb commit h0) eqn:Heq; cbn [negb]; [|left; by split].
    apply str_eqb_eq in Heq. subst h0. right. split; [done|].
    exists (fs w2), (fs w3), (fs w4), (fs w5), upstream.
    repeat split; congruence.
  - right. split; [done|].
    exists (fs w2), (fs w3), (fs w4), (fs w5), upstream.
    repeat split; congruence.
Qed.

End WithServer.
End ResetFacts.

Module ResetTheorems.
Import Js JsFacts Sandbox Git GitFacts ResetFacts Examples.

(** C3.  Whatever the mode and the confirmation flag, [POST
    /api/git/reset] is refused, with no [git reset] spawned, when the
    target commit is an ancestor of (or equal to) the configured upstream
    and is not the commit the upstream ref resolves to; when no upstream
    is configured; and when the target is not reachable from [HEAD]. *)
Theorem gitReset_protects_published_history cfg tool req w :
  let cwd := default [] (c_cwd (resolveCwdFromReq cfg req)) in
  let commit := trim (default [] (bodyCommit req)) in
  (forall upstream,
      (forall store, upstreamOf tool cwd store = Some upstream) ->
      (forall store, ancestorOf tool cwd commit upstream store = true) ->
      (forall store, headOf tool cwd upstream store <> Some commit) ->
      refused w (gitReset cfg tool req w)) /\
  ((forall store, upstreamOf tool cwd store = None) ->
   refused w (gitReset cfg tool req w)) /\
  ((forall store, ancestorOf tool cwd commit $"HEAD" store = false) ->
   refused w (gitReset cfg tool req w)).
Proof.
  intros cwd commit.
  destruct (gitReset_checks cfg tool req w)
    as [Hr|[_ (s1 & s2 & s3 & s4 & up & Hup & Hreach & Hhead)]];
    [split; [|split]; intros; exact Hr|].
  fold cwd commit in Hup, Hreach, Hhead.
  split; [|split].
  - intros upstream Hu Ha Hh.
    rewrite Hu in Hup. injection Hup as <-.
    specialize (Hhead (Ha s2)). by destruct (Hh s4).
  - intros Hu. by rewrite Hu in Hup.
  - intros Ha. by rewrite Ha in Hreach.
Qed.

Lemma gitReset_protects_published_history_witness :
  refused emptyWorld
    (gitReset exampleConfig publishedRepo hardReset emptyWorld) /\
  refused emptyWorld
    (gitReset exampleConfig noUpstreamRepo hardReset emptyWorld) /\
  refused emptyWorld
    (gitReset exampleConfig danglingRepo hardReset emptyWorld).
Proof.
  split; [|split].
  - apply (proj1 (gitReset_protects_published_history
                    exampleConfig publishedRepo hardReset emptyWorld)
             $"origin/main").
    + intros store. reflexivity.
    + intros store. reflexivity.
    + intros store. vm_compute. discriminate.
  - apply (proj1 (proj2 (gitReset_protects_published_history
                    exampleConfig noUpstreamRepo hardReset emptyWorld))).
    intros store. reflexivity.
  - apply (proj2 (proj2 (gitReset_protects_published_history
                    exampleConfig danglingRepo hardReset emptyWorld))).
    intros store. reflexivity.
Defined.

End ResetTheorems.

(** ** Deleting *)

Module DeleteFacts.
Import Js JsFacts Sandbox FileApi GitFacts Examples.

Section WithConfig.
Variable cfg : Config.

Lemma rmSyncRecursive_gone (store : Fs.FS) p :
  Fs.rmSyncRecursive store p !! p = None.
Proof.
  unfold Fs.rmSyncRecursive. apply map_lookup_filter_None. right.
  intros x _. simpl. unfold Fs.isAtOrBelow. by rewrite str_eqb_refl.
Qed.

Lemma resolvePathFromQuery_target raw t :
  target (resolvePathFromQuery cfg raw) = Some t ->
  ok (resolvePathFromQuery cfg raw) = true /\
  t = resolve cfg [ROOT cfg; default $"." raw].
Proof.
  unfold resolvePathFromQuery.
  destruct (negb (withinRoot cfg _)); simpl; [done|].
  intros [= <-]. by destruct raw.
Qed.

(** An entry below the root is removed, whatever else the body says. *)
Lemma deletePath_removes body w t :
  target (resolvePathFromQuery cfg (d_path body)) = Some t ->
  isRootPath cfg t = false ->
  is_Some (fs w !! t) ->
  status (deletePath cfg body w).1 = 200 /\
  fs (deletePath cfg body w).2 !! t = None.
Proof.
  intros Ht Hroot [n Hn]. unfold deletePath.
  destruct (resolvePathFromQuery_target _ _ Ht) as [Hok _].
  rewrite Hok, Ht. cbn [negb from_option id]. rewrite Hroot.
  unfold_monad. unfold Fs.statSync, Fs.rmSyncForce. rewrite Hn.
  destruct n as [c m|]; simpl.
  - split; [done|]. apply lookup_delete_eq.
  - split; [done|]. apply rmSyncRecursive_gone.
Qed.

(** The root itself is never deleted. *)
Lemma deletePath_root body w :
  isRootPath cfg (resolve cfg [ROOT cfg; default $"." (d_path body)]) = true ->
  status (deletePath cfg body w).1 = 403 /\ (deletePath cfg body w).2 = w.
Proof.
  intros Hroot. unfold deletePath.
  destruct (ok (resolvePathFromQuery cfg (d_path body))) eqn:Hok; cbn [negb];
    [|done].
  assert (target (resolvePathFromQuery cfg (d_path body)) =
          Some (resolve cfg [ROOT cfg; default $"." (d_path body)])) as ->.
  { revert Hok. unfold resolvePathFromQuery.
    destruct (negb (withinRoot cfg _)); simpl; [done|]. by destruct (d_path body). }
  cbn [from_option id]. by rewrite Hroot.
Qed.

End WithConfig.

(** C9, as stated, fails: a body that carries nothing but the path, hence
    no confirmation of any kind, makes the server remove the file. *)
Lemma delete_without_confirmation_removes :
  let body := {| d_path := Some $"notes.txt"; d_others := [] |} in
  let out := deletePath exampleConfig body notesWorld in
  is_Some (fs notesWorld !! $"/home/user/notes.txt") /\
  status out.1 = 200 /\
  fs out.2 !! $"/home/user/notes.txt" = None.
Proof. split; [by eexists|]. split; vm_compute; reflexivity. Qed.

End DeleteFacts.

Module Confirmation.
Import Js JsFacts Sandbox Git FileApi GitFacts ResetFacts DeleteFacts Examples.

(** C9, amended.  A reset whose mode is [hard] is refused, with no [git
    reset] spawned, unless [confirmHard] is set.  A delete request is not
    confirmed at the server: only the path is read, and an existing entry
    other than the root is removed.  Deleting the root itself is refused
    with status 403 and changes nothing. *)
Theorem hard_reset_confirmed_delete_unconfirmed cfg tool :
  (forall req w,
      toLowerCase (default [] (bodyMode req)) = $"hard" ->
      confirmHard req = false ->
      refused w (gitReset cfg tool req w)) /\
  (forall body w,
      deletePath cfg body w =
      deletePath cfg {| d_path := d_path body; d_others := [] |} w) /\
  (forall body w t,
      target (resolvePathFromQuery cfg (d_path body)) = Some t ->
      isRootPath cfg t = false ->
      is_Some (fs w !! t) ->
      status (deletePath cfg body w).1 = 200 /\
      fs (deletePath cfg body w).2 !! t = None) /\
  (forall body w,
      isRootPath cfg (resolve cfg [ROOT cfg; default $"." (d_path body)]) = true ->
      status (deletePath cfg body w).1 = 403 /\ (deletePath cfg body w).2 = w).
Proof.
  split; [|split; [|split]].
  - intros req w Hmode Hconfirm.
    destruct (gitReset_checks cfg tool req w) as [Hr|[Hhard _]]; [done|].
    specialize (Hhard Hmode). congruence.
  - reflexivity.
  - apply deletePath_removes.
  - apply deletePath_root.
Qed.

Lemma hard_reset_confirmed_delete_unconfirmed_witness :
  refused emptyWorld
    (gitReset exampleConfig publishedRepo
       unconfirmedHardReset emptyWorld) /\
  (status (deletePath exampleConfig
             {| d_path := Some $"notes.txt"; d_others := [($"confirm", JBool false)] |}
             notesWorld).1 = 200 /\
   fs (deletePath exampleConfig
             {| d_path := Some $"notes.txt"; d_others := [($"confirm", JBool false)] |}
             notesWorld).2 !! $"/home/user/notes.txt" = None) /\
  (status (deletePath exampleConfig
             {| d_path := Some $"./"; d_others := [] |} notesWorld).1 = 403 /\
   (deletePath exampleConfig
             {| d_path := Some $"./"; d_others := [] |} notesWorld).2 = notesWorld).
Proof.
  pose proof (hard_reset_confirmed_delete_unconfirmed
                exampleConfig publishedRepo)
    as (Hreset & _ & Hdel & Hroot).
  split; [|split].
  - apply Hreset; reflexivity.
  - apply Hdel.
    + reflexivity.
    + reflexivity.
    + by eexists.
  - apply Hroot. reflexivity.
Defined.

End Confirmation.

(** ** The replay buffer *)

Module ReplayFacts.
Import Js JsFacts Sandbox Pty Examples.









Section WithConfig.
Variable cfg : Config.
Local Abbreviation MAX := (HISTORY_MAX_CHARS cfg).










End WithConfig.
End ReplayFacts.

Module ReplayInvariant.
Import Js JsFacts Sandbox Pty ReplayFacts Examples.

Section WithConfig.
Variable cfg : Config.









End WithConfig.


End ReplayInvariant.

(** ** Connections *)

Module ConnectionFacts.
Import Js JsFacts Sandbox Pty ReplayFacts Examples.

Lemma chunkSize_pos : 0 < chunkSize.
Proof. unfold chunkSize. lia. Qed.

Lemma chunksOf_concat size n (s : str) :
  0 < size -> length s <= n -> concat (chunksOf size n s) = s.
Proof.
  intros Hsize. revert s. induction n as [|n IH]; intros s Hlen.
  - destruct s; [done|simpl in Hlen; lia].
  - destruct s as [|c s]; [done|].
    cbn [chunksOf concat]. rewrite IH; [apply take_drop|].
    rewrite length_drop. simpl in *. lia.
Qed.

Lemma chunksOf_bounded size n (s : str) :
  0 < size ->
  Forall (fun c => 0 < length c <= size) (chunksOf size n s).
Proof.
  intros Hsize. revert s. induction n as [|n IH]; intros s; [constructor|].
  destruct s as [|c s]; [constructor|].
  cbn [chunksOf]. constructor; [|apply IH].
  rewrite length_take. simpl. lia.
Qed.

Section WithConfig.
Variable cfg : Config.

Lemma onConnection_outside ws req rnd spawn t st :
  withinRoot cfg (requestedCwd cfg req) = false ->
  onConnection cfg ws req rnd spawn t st =
    (closeSocket ws (setReadyState ws 1 st), [WsClose ws None []]).
Proof. intros H. unfold onConnection. fold (requestedCwd cfg req). by rewrite H. Qed.


Lemma onConnection_known ws req rnd spawn t st addr session :
  let sid := default [] (sessionIdParam req) in
  withinRoot cfg (requestedCwd cfg req) = true ->
  truthy sid = true ->
  terminalSessions st !! sid = Some addr ->
  objects st !! addr = Some session ->
  onConnection cfg ws req rnd spawn t st =
    reconnect ws sid (default [] (clientIdParam req)) addr session
      (setReadyState ws 1 st).
Proof.
  intros sid Hin Hsid Hreg Hobj. unfold onConnection.
  fold (requestedCwd cfg req) sid. rewrite Hin, Hsid. simpl. by rewrite Hreg, Hobj.
Qed.




(** C5, amended.  On a reconnect to a known session whose working
    directory passed the root check: a session without owner takes a
    non-empty client identifier as its owner; a non-empty client
    identifier that differs from the owner is answered with
    [SESSION_FORBIDDEN] and a close, the session being left as it was;
    in every other case, an empty client identifier included, the socket
    is attached and receives the stored history in chunks of at most
    [chunkSize] characters, then the session identifier, ahead of what
    later events send.  A reconnect whose working directory failed the
    root check is closed and nothing else happens. *)
Theorem reconnect_owner_check_and_replay ws req rnd spawn t st addr session :
  let sid := default [] (sessionIdParam req) in
  let cid := default [] (clientIdParam req) in
  let owner := s_clientId session in
  let out := onConnection cfg ws req rnd spawn t st in
  truthy sid = true ->
  terminalSessions st !! sid = Some addr ->
  objects st !! addr = Some session ->
  (withinRoot cfg (requestedCwd cfg req) = false ->
   out.2 = [WsClose ws None []] /\ objects out.1 = objects st) /\
  (withinRoot cfg (requestedCwd cfg req) = true ->
   (truthy cid = true -> truthy owner = true -> owner <> cid ->
    out.2 = forbidden ws sid /\ objects out.1 = objects st /\
    readyState out.1 !! ws = Some 2) /\
   (truthy cid = false \/ truthy owner = false \/ owner = cid ->
    exists session',
      objects out.1 !! addr = Some session' /\
      s_clientId session' = (if truthy owner then owner else cid) /\
      s_history session' = s_history session /\
      s_id session' = s_id session /\
      In ws (s_sockets session') /\
      out.2 = replay ws session /\
      concat (chunksOf chunkSize (length (s_history session))
                (s_history session)) = s_history session /\
      Forall (fun c => 0 < length c <= chunkSize)
        (chunksOf chunkSize (length (s_history session)) (s_history session)) /\
      forall evs,
        (run cfg (Connection ws req rnd spawn t :: evs) st).2 =
        replay ws session ++ (run cfg evs out.1).2)).
Proof.
  intros sid cid owner out Hsid Hreg Hobj. subst out. split.
  { intros Hout. by rewrite onConnection_outside. }
  intros Hin.
  rewrite (onConnection_known _ _ _ _ _ _ addr session) by done.
  fold sid cid. unfold reconnect. fold owner.
  assert (Hlt : addr < length (objects st)) by (by eapply lookup_lt_Some).
  split.
  - intros Hc Ho Hne. rewrite Hc, Ho. cbn [negb andb]. fold owner.
    rewrite Ho. assert (str_eqb owner cid = false) as -> by (by apply str_eqb_neq).
    simpl. repeat split.
    + by apply list_insert_id.
    + by rewrite lookup_insert_eq.
  - intros Hcase.
    set (session1 := if truthy cid && negb (truthy owner)
                     then adoptClient cid session else session).
    assert (H1 : s_clientId session1 = if truthy owner then owner else cid).
    { subst session1. destruct (truthy owner) eqn:Ho.
      - by rewrite andb_false_r.
      - rewrite andb_true_r. destruct (truthy cid) eqn:Hc; [done|].
        apply truthy_false in Ho, Hc. unfold owner in *. congruence. }
    assert (H2 : s_history session1 = s_history session
                 /\ s_id session1 = s_id session
                 /\ s_sockets session1 = s_sockets session).
    { subst session1. by destruct (_ && _). }
    destruct H2 as (Hh & Hi & Hsock).
    assert (Hpass : truthy cid && truthy (s_clientId session1)
                    && negb (str_eqb (s_clientId session1) cid) = false).
    { rewrite H1. destruct (truthy cid) eqn:Hc; [|done].
      destruct (truthy owner) eqn:Ho; cbn [andb].
      - destruct Hcase as [?|[?|Heq]]; [done|done|].
        by rewrite Ho, Heq, str_eqb_refl.
      - by rewrite Hc, str_eqb_refl. }
    rewrite Hpass.
    exists (attach ws session1). cbn [fst snd].
    assert (Hreplay :
      (if truthy (s_history (attach ws session1))
       then sendWsTextInChunks ws (s_history (attach ws session1)) else [])
      ++ [WsSend ws ($"SESSION_ID:" ++ s_id (attach ws session1))]
      = replay ws session).
    { unfold replay, sendWsTextInChunks. simpl. rewrite Hh, Hi.
      by destruct (s_history session). }
    repeat split.
    + simpl. rewrite list_insert_insert_eq.
      by rewrite list_lookup_insert_eq.
    + done.
    + done.
    + done.
    + simpl. unfold addSocket. rewrite Hsock.
      destruct (existsb (Nat.eqb ws) (s_sockets session)) eqn:He.
      * apply existsb_exists in He as [x [Hx Heq]].
        apply Nat.eqb_eq in Heq. by subst.
      * apply in_or_app. right. by left.
    + exact Hreplay.
    + apply chunksOf_concat; [apply chunkSize_pos|done].
    + apply chunksOf_bounded, chunkSize_pos.
    + intros evs. cbn [run step].
      rewrite (onConnection_known _ _ _ _ _ _ addr session) by done.
      fold sid cid. unfold reconnect. fold owner session1.
      rewrite Hpass, Hreplay.
      by destruct (run cfg evs _).
Qed.

End WithConfig.
End ConnectionFacts.

Module ConnectionExamples.
Import Js JsFacts Sandbox Pty ReplayFacts ConnectionFacts Examples.



(** C5, as stated, fails twice.  A reconnect that supplies no client
    identifier is attached to Alice's session and receives its history;
    and a reconnect by Alice herself, sent with a working directory
    outside the root, is closed with neither replay nor identifier. *)
Lemma reconnect_without_client_id_gets_replay :
  s_clientId <$> objects aliceState !! 0 = Some $"alice" /\
  terminalSessions aliceState !! aliceId = Some 0 /\
  (onConnection exampleConfig 9 (reconnectAs None None aliceId) [] None 2 aliceState).2
    = [WsSend 9 $"alice$ "; WsSend 9 ($"SESSION_ID:" ++ aliceId)] /\
  (onConnection exampleConfig 9 (reconnectAs (Some $"/etc") (Some $"alice") aliceId)
     [] None 2 aliceState).2
    = [WsClose 9 None []].
Proof. repeat split; vm_compute; reflexivity. Qed.

Lemma reconnect_owner_check_and_replay_witness :
  (onConnection exampleConfig 9 (reconnectAs None (Some $"bob") aliceId) [] None 2
     aliceState).2 = forbidden 9 aliceId /\
  (onConnection exampleConfig 9 (reconnectAs None (Some $"alice") aliceId) [] None 2
     aliceState).2
    = [WsSend 9 $"alice$ "; WsSend 9 ($"SESSION_ID:" ++ aliceId)].
Proof.
  assert (Hobj : objects aliceState !! 0 =
                 Some {| s_id := aliceId; s_shell := 0; s_cwd := $"/home/user";
                         s_cols := 120; s_rows := 40; s_clientId := $"alice";
                         s_created := 0; s_lastActivity := 1;
                         s_history := $"alice$ "; s_sockets := [1] |})
    by reflexivity.
  split.
  - pose proof (reconnect_owner_check_and_replay exampleConfig 9
                  (reconnectAs None (Some $"bob") aliceId) [] None 2 aliceState 0 _
                  eq_refl eq_refl Hobj) as [_ Hin].
    destruct (Hin eq_refl) as [Hforbid _].
    destruct Hforbid as (Hout & _); [reflexivity|reflexivity|discriminate|].
    exact Hout.
  - pose proof (reconnect_owner_check_and_replay exampleConfig 9
                  (reconnectAs None (Some $"alice") aliceId) [] None 2 aliceState 0 _
                  eq_refl eq_refl Hobj) as [_ Hin].
    destruct (Hin eq_refl) as [_ Hpass].
    destruct Hpass as (s' & _ & _ & _ & _ & _ & Hout & _);
      [right; right; reflexivity|].
    exact Hout.
Defined.

End ConnectionExamples.

(** ** Streaming uploads *)

Module UploadFacts.
Import Js JsFacts Sandbox FileApi GitFacts Examples.

Section WithConfig.
Variable cfg : Config.

(** What the ['data'] listener has done once the chunks are consumed:
    the temp file holds the chunks before the one that crossed the
    limit, or all of them. *)
Lemma pump_spec limit tmp t cs : forall acc store,
  store !! tmp = Some (Fs.File acc t) ->
  (N.of_nat (length acc) <= limit)%N ->
  exists k,
    k <= length cs /\
    (pump limit tmp cs (N.of_nat (length acc)) t store).2 =
      <[tmp := Fs.File (acc ++ concat (take k cs)) t]> store /\
    (N.of_nat (length (acc ++ concat (take k cs))) <= limit)%N /\
    (if (pump limit tmp cs (N.of_nat (length acc)) t store).1.1
     then k < length cs /\
          (limit < N.of_nat (length (acc ++ concat (take (S k) cs))))%N
     else k = length cs /\
          (pump limit tmp cs (N.of_nat (length acc)) t store).1.2 =
            N.of_nat (length (acc ++ concat cs))).
Proof.
  induction cs as [|chunk cs IH]; intros acc store Hacc Hle.
  - exists 0. simpl. rewrite app_nil_r. repeat split; try done.
    by rewrite insert_id.
  - cbn [pump].
    destruct (N.ltb limit (N.of_nat (length acc) + N.of_nat (length chunk))) eqn:Hover.
    + apply N.ltb_lt in Hover. exists 0. simpl. rewrite !app_nil_r.
      repeat split; try done; [lia|by rewrite insert_id|lia|].
      rewrite length_app. lia.
    + apply N.ltb_ge in Hover.
      assert (Hstore : Fs.appendSync store t tmp chunk
                       = <[tmp := Fs.File (acc ++ chunk) t]> store).
      { unfold Fs.appendSync. by rewrite Hacc. }
      rewrite Hstore.
      replace (N.of_nat (length acc) + N.of_nat (length chunk))%N
        with (N.of_nat (length (acc ++ chunk))) by (rewrite length_app; lia).
      destruct (IH (acc ++ chunk) (<[tmp := Fs.File (acc ++ chunk) t]> store))
        as (k & Hk & Hfs & Hlen & Hflag).
      { by rewrite lookup_insert_eq. }
      { rewrite length_app. lia. }
      exists (S k). cbn [take concat length].
      rewrite !app_assoc. split; [lia|]. split.
      { rewrite Hfs. by rewrite insert_insert_eq. }
      split; [done|].
      destruct (pump _ _ _ _ _ _).1.1.
      * destruct Hflag as [Hlt Hcross]. split; [lia|].
        cbn [take concat] in Hcross. by rewrite <- !app_assoc in *.
      * destruct Hflag as [-> Hw]. split; [done|].
        by rewrite <- !app_assoc in *.
Qed.

Lemma uploadTmp_ne target : uploadTmp cfg target <> target.
Proof.
  unfold uploadTmp. intros H. apply (f_equal length) in H.
  rewrite !length_app in H. simpl in H. lia.
Qed.

Lemma uploadTmp_nonempty target : uploadTmp cfg target <> [].
Proof.
  unfold uploadTmp. intros H. apply (f_equal length) in H.
  rewrite !length_app in H. simpl in H. lia.
Qed.

Lemma unlinkQuiet_lookup store p :
  p <> [] ->
  store !! p <> Some Fs.Dir ->
  Fs.unlinkQuiet store p !! p = None /\
  forall p', p' <> p -> Fs.unlinkQuiet store p !! p' = store !! p'.
Proof.
  intros Hp Hnd. unfold Fs.unlinkQuiet, Fs.existsSync, Fs.unlinkSync.
  apply truthy_true in Hp as ->. cbn [andb].
  destruct (store !! p) as [[c m|]|] eqn:Hl; [|done|done].
  split; [apply lookup_delete_eq|]. intros p' Hne. by apply lookup_delete_ne.
Qed.

Lemma unlinkQuiet_absent store p : store !! p = None -> Fs.unlinkQuiet store p = store.
Proof.
  intros H. unfold Fs.unlinkQuiet, Fs.existsSync. rewrite H.
  by rewrite andb_false_r.
Qed.

Lemma unlinkQuiet_file store p c m :
  p <> [] -> store !! p = Some (Fs.File c m) -> Fs.unlinkQuiet store p = delete p store.
Proof.
  intros Hp H. unfold Fs.unlinkQuiet, Fs.existsSync, Fs.unlinkSync. rewrite H.
  by destruct p.
Qed.

(** The transfer, from a store where the temp path is not a directory. *)
Lemma transfer_spec target up w :
  fs w !! uploadTmp cfg target <> Some Fs.Dir ->
  let tmp := uploadTmp cfg target in
  let limit := MAX_UPLOAD_BYTES cfg in
  let out := transfer cfg target up w in
  ((limit < bytesOf (chunks up))%N ->
   out.1 = match destroyed up with
           | AbortedFirst => sendError 500 $"client aborted"
           | ErrorFirst => sendError 413 (tooLargeMessage cfg)
           end /\
   fs out.2 !! tmp = None /\
   (forall p, p <> tmp -> fs out.2 !! p = fs w !! p)) /\
  ((bytesOf (chunks up) <= limit)%N -> ending up = End ->
   fs w !! target <> Some Fs.Dir ->
   status out.1 = 200 /\
   fs out.2 !! target = Some (Fs.File (concat (chunks up)) (now w)) /\
   fs out.2 !! tmp = None /\
   (forall p, p <> tmp -> p <> target -> fs out.2 !! p = fs w !! p)).
Proof.
  intros Hnd tmp limit out. subst out.
  destruct (unlinkQuiet_lookup _ _ (uploadTmp_nonempty target) Hnd) as [Hgone Hrest].
  fold tmp in Hgone, Hrest.
  unfold transfer, streamToFileWithLimit. unfold_monad. fold tmp limit. cbn [fs now].
  set (store0 := Fs.unlinkQuiet (fs w) tmp) in *.
  unfold Fs.writeFileSync. rewrite Hgone.
  set (opened := <[tmp := Fs.File [] (now w)]> store0).
  destruct (pump_spec limit tmp (now w) (chunks up) [] opened)
    as (k & Hk & Hfs & Hlen & Hflag).
  { subst opened. by rewrite lookup_insert_eq. }
  { simpl. lia. }
  change (N.of_nat (length (@nil byte))) with 0%N in Hfs, Hflag.
  cbn [app] in Hfs, Hlen, Hflag.
  destruct (pump limit tmp (chunks up) 0 (now w) opened) as [[over written] store'].
  cbn [fst snd] in Hfs, Hflag. subst opened.
  rewrite insert_insert_eq in Hfs. subst store'.
  set (held := <[tmp := Fs.File (concat (take k (chunks up))) (now w)]> store0).
  assert (Hheld : Fs.unlinkQuiet held tmp = store0).
  { rewrite (unlinkQuiet_file _ _ (concat (take k (chunks up))) (now w)).
    - subst held. rewrite delete_insert_eq. by apply delete_id.
    - apply uploadTmp_nonempty.
    - subst held. by rewrite lookup_insert_eq. }
  split.
  - intros Hbig. destruct over.
    2: { destruct Hflag as [-> Hw]. rewrite firstn_all in Hlen.
         unfold bytesOf in Hbig. lia. }
    destruct (destroyed up); cbn [fs now fst snd]; rewrite Hheld;
      unfold uploadFailed; unfold_monad; cbn [fs now fst snd];
      rewrite (unlinkQuiet_absent _ _ Hgone).
    + change (includes $"client aborted" $"payload too large") with false.
      cbn [fst snd fs]. split; [done|]. split; [done|]. exact Hrest.
    + change (includes $"payload too large" $"payload too large") with true.
      cbn [fst snd fs]. split; [done|]. split; [done|]. exact Hrest.
  - intros Hsmall Hend Htarget. destruct over.
    { destruct Hflag as [Hlt Hcross]. unfold bytesOf in Hsmall.
      assert (length (concat (take (S k) (chunks up))) <= length (concat (chunks up))).
      { rewrite <- (take_drop (S k) (chunks up)) at 2.
        rewrite concat_app, length_app. lia. }
      lia. }
    destruct Hflag as [-> Hw]. clear Hw Hheld.
    rewrite Hend. cbn [fs now fst snd].
    unfold Fs.renameSync. subst held. rewrite firstn_all.
    rewrite lookup_insert_eq.
    rewrite lookup_insert_ne by apply uploadTmp_ne.
    assert (Hne : target <> tmp).
    { intros H. symmetry in H. by apply uploadTmp_ne in H. }
    rewrite (Hrest _ Hne).
    set (moved := <[target := Fs.File (concat (chunks up)) (now w)]>
                    (delete tmp (<[tmp := Fs.File (concat (chunks up)) (now w)]> store0))).
    assert (Hmoved : (moved !! target = Some (Fs.File (concat (chunks up)) (now w)))
                     /\ moved !! tmp = None
                     /\ forall p, p <> tmp -> p <> target -> moved !! p = fs w !! p).
    { subst moved. split; [by rewrite lookup_insert_eq|]. split.
      - rewrite lookup_insert_ne by done. by rewrite lookup_delete_eq.
      - intros p Hp1 Hp2. rewrite lookup_insert_ne by done.
        rewrite lookup_delete_ne by done. rewrite lookup_insert_ne by done.
        by apply Hrest. }
    destruct Hmoved as (Hm1 & Hm2 & Hm3).
    destruct (fs w !! target) as [[c m|]|] eqn:Ht; [|done|];
      cbn [fs now fst snd]; unfold Fs.statSync; rewrite Hm1;
      cbn [fst snd status sendJson fs]; done.
Qed.

End WithConfig.
End UploadFacts.

Module UploadTheorems.
Import Js JsFacts Sandbox FileApi GitFacts UploadFacts Examples.

Lemma pump_elsewhere limit tmp t cs : forall written store p,
  p <> tmp -> (pump limit tmp cs written t store).2 !! p = store !! p.
Proof.
  induction cs as [|chunk cs IH]; intros written store p Hp; [done|].
  cbn [pump]. destruct (N.ltb _ _); [done|].
  rewrite IH by done. unfold Fs.appendSync.
  destruct (store !! tmp) as [[c m|]|]; [|done|done].
  by rewrite lookup_insert_ne.
Qed.

(** For an upload that passed the checks of [POST /api/upload-raw] and
    whose temp path is not a directory: when the bytes received exceed
    [MAX_UPLOAD_BYTES] the request fails, with 413 when an ['error']
    listener hears of it first and with 500 [client aborted] when the
    ['aborted'] listener does; the temp file is gone, no other path has
    changed, and the temp file never held more than the chunks that came
    before the one crossing the limit.  When the stream ends within the
    limit and the target is not a directory, the temp file is renamed
    onto the target, which then holds exactly the bytes received, and
    until that rename the transfer writes to the temp file only. *)
Lemma upload_limit_and_round_trip cfg q up w target :
  checkUpload cfg q (fs w) = inr target ->
  fs w !! uploadTmp cfg target <> Some Fs.Dir ->
  let tmp := uploadTmp cfg target in
  let limit := MAX_UPLOAD_BYTES cfg in
  let out := uploadRaw cfg q up w in
  ((limit < bytesOf (chunks up))%N ->
   out.1 = match destroyed up with
           | AbortedFirst => sendError 500 $"client aborted"
           | ErrorFirst => sendError 413 (tooLargeMessage cfg)
           end /\
   fs out.2 !! tmp = None /\
   (forall p, p <> tmp -> fs out.2 !! p = fs w !! p) /\
   (forall t store,
       store !! tmp = Some (Fs.File [] t) ->
       exists k,
         k < length (chunks up) /\
         (pump limit tmp (chunks up) 0 t store).2 !! tmp =
           Some (Fs.File (concat (take k (chunks up))) t) /\
         (bytesOf (take k (chunks up)) <= limit)%N /\
         (limit < bytesOf (take (S k) (chunks up)))%N)) /\
  ((bytesOf (chunks up) <= limit)%N -> ending up = End ->
   fs w !! target <> Some Fs.Dir ->
   status out.1 = 200 /\
   fs out.2 !! target = Some (Fs.File (concat (chunks up)) (now w)) /\
   fs out.2 !! tmp = None /\
   (forall t store p,
       p <> tmp -> (pump limit tmp (chunks up) 0 t store).2 !! p = store !! p)).
Proof.
  intros Hcheck Hnd tmp limit out. subst out.
  unfold uploadRaw. unfold_monad. rewrite Hcheck.
  destruct (transfer_spec cfg target up w Hnd) as [Hover Hwithin].
  fold tmp limit in Hover, Hwithin. split.
  - intros Hbig. destruct (Hover Hbig) as (H1 & H2 & H3).
    repeat split; try done.
    intros t store Hstore.
    destruct (pump_spec limit tmp t (chunks up) [] store Hstore)
      as (k & Hk & Hfs & Hlen & Hflag); [simpl; lia|].
    change (N.of_nat (length (@nil byte))) with 0%N in Hfs, Hflag.
    cbn [app] in Hfs, Hlen, Hflag.
    destruct (pump limit tmp (chunks up) 0 t store).1.1.
    + destruct Hflag as [Hlt Hcross]. exists k. rewrite Hfs, lookup_insert_eq.
      by repeat split.
    + destruct Hflag as [-> _]. rewrite firstn_all in Hlen.
      unfold bytesOf in Hbig. lia.
  - intros Hsmall Hend Htarget.
    destruct (Hwithin Hsmall Hend Htarget) as (H1 & H2 & H3 & _).
    repeat split; try done. intros t store p Hp. by apply pump_elsewhere.
Qed.

(** The two orders of the listeners, and a round trip. *)
Lemma upload_limit_and_round_trip_examples :
  (uploadRaw exampleConfig toHome nineBytesErrorFirst homeWorld).1 =
    sendError 413 $"file too large (>8 bytes)" /\
  fs (uploadRaw exampleConfig toHome nineBytes homeWorld).2
    !! $"/home/user/f.bin.4242.upload.tmp" = None /\
  fs (uploadRaw exampleConfig toHome fiveBytes homeWorld).2
    !! $"/home/user/f.bin" = Some (Fs.File [x01; x02; x03; x04; x05] 1).
Proof.
  pose proof (upload_limit_and_round_trip exampleConfig toHome nineBytesErrorFirst
                homeWorld $"/home/user/f.bin" eq_refl) as [Hold _];
    [vm_compute; discriminate|].
  pose proof (upload_limit_and_round_trip exampleConfig toHome nineBytes
                homeWorld $"/home/user/f.bin" eq_refl) as [Hover _];
    [vm_compute; discriminate|].
  pose proof (upload_limit_and_round_trip exampleConfig toHome fiveBytes
                homeWorld $"/home/user/f.bin" eq_refl) as [_ Hwithin];
    [vm_compute; discriminate|].
  destruct Hold as (H0 & _); [vm_compute; reflexivity|].
  destruct Hover as (_ & H2 & _); [vm_compute; reflexivity|].
  destruct Hwithin as (_ & H3 & _);
    [vm_compute; discriminate|reflexivity|vm_compute; discriminate|].
  split; [exact H0|]. split; [exact H2|exact H3].
Qed.

(** C6.  With a limit of eight bytes, an upload of nine bytes that passes
    every check of [POST /api/upload-raw] is not answered 413: the
    ['aborted'] listener, which [req.destroy] calls before any ['error']
    listener on Node 16 and later, settles the transfer with
    [client aborted], and the handler answers 500.  The store is left as
    it was. *)
Theorem upload_over_limit_answered_client_aborted :
  let out := uploadRaw exampleConfig toHome nineBytes homeWorld in
  destroyed nineBytes = AbortedFirst /\
  checkUpload exampleConfig toHome (fs homeWorld) = inr $"/home/user/f.bin" /\
  (MAX_UPLOAD_BYTES exampleConfig < bytesOf (chunks nineBytes))%N /\
  out.1 = sendError 500 $"client aborted" /\
  status out.1 <> 413 /\
  fs out.2 = fs homeWorld.
Proof. repeat split; vm_compute; (reflexivity || discriminate). Qed.

End UploadTheorems.

(** ** Writing a text file *)

Module PutFileFacts.
Import Js JsFacts Sandbox FileApi GitFacts Examples.

(** C8.  With the root [/home/user], writing the new file
    [../user2/notes.txt] passes both root checks, so the server creates
    the directory [/home/user2], which lies outside the root, and writes
    the file there. *)
Theorem putFile_creates_parent_outside_root :
  let body := {| p_path := Some $"../user2/notes.txt";
                 p_content := Some $"hi"; p_mtimeMs := None |} in
  let out := putFile exampleConfig body homeWorld in
  status out.1 = 200 /\
  fs homeWorld !! $"/home/user2" = None /\
  fs out.2 !! $"/home/user2" = Some Fs.Dir /\
  fs out.2 !! $"/home/user2/notes.txt" = Some (Fs.File (utf8 $"hi") 1) /\
  withinRoot exampleConfig $"/home/user2" = true /\
  liesInsideRoot exampleConfig $"/home/user2" = false.
Proof. repeat split; vm_compute; reflexivity. Qed.

Section WithConfig.
Variable cfg : Config.

(** The optimistic lock: a stale modification time stops the write. *)
Lemma putFile_conflict body w t content c m expected :
  target (resolvePathFromQuery cfg (p_path body)) = Some t ->
  p_content body = Some content ->
  (N.of_nat (length (utf8 content)) <= MAX_TEXT_FILE_BYTES)%N ->
  fs w !! t = Some (Fs.File c m) ->
  (N.of_nat (length c) <= MAX_TEXT_FILE_BYTES)%N ->
  p_mtimeMs body = Some (Some expected) ->
  ~ (Qabs (m - expected) <= 2)%Q ->
  putFile cfg body w =
    ({| status := 409;
        body := JObj [($"error", JStr $"file changed on disk");
                      ($"currentMtimeMs", JNum m)] |}, w).
Proof.
  intros Ht Hc Hsmall Hfile Hsize Hm Hstale. unfold putFile.
  destruct (DeleteFacts.resolvePathFromQuery_target _ _ _ Ht) as [Hok _].
  rewrite Hok, Ht, Hc. cbn [negb from_option id].
  assert (N.ltb MAX_TEXT_FILE_BYTES (N.of_nat (length (utf8 content))) = false)
    as -> by (by apply N.ltb_ge).
  unfold_monad. unfold Fs.existsSync, Fs.statSync. rewrite Hfile.
  cbn [Fs.isFile Fs.size Fs.mtimeMs negb].
  assert (N.ltb MAX_TEXT_FILE_BYTES (N.of_nat (length c)) = false)
    as -> by (by apply N.ltb_ge).
  rewrite Hm.
  destruct (Qle_bool (Qabs (m - expected)) 2) eqn:Hq; [|done].
  apply Qle_bool_iff in Hq. contradiction.
Qed.

Lemma putTmp_ne target : putTmp cfg target <> target.
Proof.
  unfold putTmp. intros H. apply (f_equal length) in H.
  rewrite !length_app in H. simpl in H. lia.
Qed.

(** The write succeeds only by renaming a complete temp file: after it
    the target holds the new content and the temp file is gone. *)
Lemma writeViaTemp_written target content w :
  status (writeViaTemp cfg target content w).1 = 200 ->
  fs (writeViaTemp cfg target content w).2 !! target =
    Some (Fs.File (utf8 content) (now w)) /\
  fs (writeViaTemp cfg target content w).2 !! putTmp cfg target = None.
Proof.
  unfold writeViaTemp. unfold_monad. cbn [fs now].
  set (tmp := putTmp cfg target).
  assert (Hne : tmp <> target) by apply putTmp_ne.
  unfold Fs.writeFileSync.
  set (written := <[tmp := Fs.File (utf8 content) (now w)]> (fs w)).
  assert (Hw : Fs.renameSync written tmp target =
               match fs w !! target with
               | Some Fs.Dir => inl (Fs.message Fs.EISDIR $"rename" tmp)
               | _ => inr (<[target := Fs.File (utf8 content) (now w)]>
                             (delete tmp written))
               end).
  { unfold Fs.renameSync. subst written. rewrite lookup_insert_eq.
    by rewrite lookup_insert_ne. }
  assert (Hfinal : forall store,
             store = <[target := Fs.File (utf8 content) (now w)]> (delete tmp written) ->
             store !! target = Some (Fs.File (utf8 content) (now w)) /\
             store !! tmp = None).
  { intros store ->. split; [by rewrite lookup_insert_eq|].
    rewrite lookup_insert_ne by done. apply lookup_delete_eq. }
  destruct (fs w !! tmp) as [[c m|]|] eqn:Htmp; [|done|];
    cbn [fs now fst snd]; fold written; rewrite Hw;
    (destruct (fs w !! target) as [[c' m'|]|] eqn:Ht; [|done|]);
    cbn [fs now fst snd]; unfold Fs.statSync;
    destruct (Hfinal _ eq_refl) as [H1 H2]; rewrite H1;
    cbn [fs now fst snd]; intros _; by split.
Qed.

(** For a new file, a parent that fails the root check stops the
    request before any directory is made. *)
Lemma putFile_parent_guard body w t content :
  target (resolvePathFromQuery cfg (p_path body)) = Some t ->
  p_content body = Some content ->
  fs w !! t = None ->
  withinRoot cfg (Path.dirname t) = false ->
  putFile cfg body w = (sendError 403 $"out of root", w) \/
  status (putFile cfg body w).1 = 413.
Proof.
  intros Ht Hc Hnew Hout. unfold putFile.
  destruct (DeleteFacts.resolvePathFromQuery_target _ _ _ Ht) as [Hok _].
  rewrite Hok, Ht, Hc. cbn [negb from_option id].
  destruct (N.ltb _ _); [by right|]. left.
  unfold_monad. unfold Fs.existsSync. rewrite Hnew, Hout. cbn [negb].
  by destruct w.
Qed.

(** Content above the ceiling is refused before the store is touched. *)
Lemma putFile_too_large body w content :
  ok (resolvePathFromQuery cfg (p_path body)) = true ->
  p_content body = Some content ->
  (MAX_TEXT_FILE_BYTES < N.of_nat (length (utf8 content)))%N ->
  status (putFile cfg body w).1 = 413 /\ (putFile cfg body w).2 = w.
Proof.
  intros Hok Hc Hbig. unfold putFile. rewrite Hok, Hc. cbn [negb].
  by assert (N.ltb MAX_TEXT_FILE_BYTES (N.of_nat (length (utf8 content))) = true)
    as -> by (by apply N.ltb_lt).
Qed.

End WithConfig.
End PutFileFacts.

(** ** Resolved paths and file names *)

Module ShapeFacts.
Import Js JsFacts Path PathFacts Shape.

Lemma proper_clean seg : proper seg -> clean seg.
Proof. by intros [? _]. Qed.

Lemma Forall_proper_clean segs : Forall proper segs -> Forall clean segs.
Proof. intros H. eapply Forall_impl; [done|apply proper_clean]. Qed.

Lemma normStep_proper acc seg :
  proper seg -> normStep false acc seg = seg :: acc.
Proof.
  intros [[Hne _] [Hd Hdd]]. unfold normStep, isDot, isDotDot.
  apply truthy_true in Hne. apply str_eqb_neq in Hd, Hdd.
  by rewrite Hne, Hd, Hdd.
Qed.

Lemma normStep_keeps_proper acc seg :
  Forall proper acc -> ~ In sep seg -> Forall proper (normStep false acc seg).
Proof.
  intros Hacc Hseg. unfold normStep.
  destruct (negb (truthy seg) || isDot seg) eqn:Hskip; [done|].
  apply orb_false_iff in Hskip as [Ht Hdot]. apply negb_false_iff in Ht.
  destruct (isDotDot seg) eqn:Hdd.
  - destruct acc as [|top below]; [done|].
    apply Forall_cons in Hacc as [? ?]. by destruct (isDotDot top); [constructor|].
  - constructor; [|done]. repeat split; [by apply truthy_true|done| |].
    + by apply str_eqb_neq.
    + by apply str_eqb_neq.
Qed.

Lemma fold_normStep_proper segs : forall acc,
  Forall proper segs -> fold_left (normStep false) segs acc = rev segs ++ acc.
Proof.
  induction segs as [|seg segs IH]; intros acc Hs; [done|].
  apply Forall_cons in Hs as [Hseg Hs]. simpl.
  rewrite normStep_proper by done. rewrite IH by done.
  by rewrite <- app_assoc.
Qed.

Lemma normalizeSegments_proper segs :
  Forall proper segs -> normalizeSegments false segs = segs.
Proof.
  intros Hs. unfold normalizeSegments. rewrite fold_normStep_proper by done.
  by rewrite app_nil_r, rev_involutive.
Qed.

Lemma normalizeSegments_keeps_proper segs :
  Forall (fun seg => ~ In sep seg) segs ->
  Forall proper (normalizeSegments false segs).
Proof.
  unfold normalizeSegments. intros Hsegs. apply Forall_rev.
  assert (forall acc, Forall proper acc ->
            Forall proper (fold_left (normStep false) segs acc)) as H; [|by apply H].
  induction Hsegs as [|seg segs Hseg _ IH]; intros acc Hacc; simpl; [done|].
  apply IH. by apply normStep_keeps_proper.
Qed.

(** Under an absolute working directory every resolved path is a
    separator followed by proper segments joined by separators. *)
Lemma resolve_proper cwd args :
  isAbsolute cwd = true ->
  exists segs, Forall proper segs /\ resolve cwd args = ofSegments segs.
Proof.
  intros Habs. unfold resolve, ofSegments.
  pose proof (resolveLoop_absolute cwd (rev args) [] Habs) as Hloop.
  destruct (resolveLoop (rev args ++ [cwd]) []) as [rp abs]. simpl in Hloop. subst abs.
  cbn [negb]. unfold normalizeString. eexists. split; [|reflexivity].
  apply normalizeSegments_keeps_proper, split_slashfree.
Qed.

Lemma join_nonempty x xs : x <> [] -> join [sep] (x :: xs) <> [].
Proof. destruct xs; [done|]. rewrite join_cons. by destruct x. Qed.

Lemma join_snoc segs n :
  segs <> [] -> join [sep] (segs ++ [n]) = join [sep] segs ++ sep :: n.
Proof. destruct segs as [|x xs]; [done|]. intros _. by rewrite join_app. Qed.

Lemma ofSegments_child segs n :
  Forall clean segs -> ofSegments (segs ++ [n]) = child (ofSegments segs) n.
Proof.
  intros Hsegs. unfold child, ofSegments. destruct segs as [|x xs].
  - reflexivity.
  - rewrite join_snoc by done.
    destruct (str_eqb (sep :: join [sep] (x :: xs)) $"/") eqn:He;
      [|by rewrite <- app_assoc].
    apply str_eqb_eq in He. apply Forall_cons in Hsegs as [[Hx _] _].
    pose proof (join_nonempty x xs Hx) as Hj.
    destruct (join [sep] (x :: xs)); [done|discriminate He].
Qed.

Lemma dropWhileB_app f (l1 l2 : str) :
  Forall (fun c => f c = true) l1 ->
  dropWhileB f (l1 ++ l2) = dropWhileB f l2.
Proof. induction 1 as [|c l1 Hc _ IH]; [done|]. simpl. by rewrite Hc. Qed.

Lemma dropWhileB_stop f c (l : str) : f c = false -> dropWhileB f (c :: l) = c :: l.
Proof. intros H. simpl. by rewrite H. Qed.

Lemma last_not_sep n : clean n -> exists c r, rev n = c :: r /\ chr_eqb c sep = false.
Proof.
  intros [Hne Hsep]. destruct (rev n) as [|c r] eqn:Hr.
  - apply (f_equal (@rev _)) in Hr. rewrite rev_involutive in Hr. done.
  - exists c, r. split; [done|]. apply chr_eqb_neq. intros ->. apply Hsep.
    apply in_rev. rewrite Hr. by left.
Qed.

Lemma Forall_not_sep n :
  ~ In sep n -> Forall (fun c => negb (chr_eqb c sep) = true) (rev n).
Proof.
  intros Hsep. apply Forall_forall. intros c Hc.
  apply negb_true_iff, chr_eqb_neq. intros ->. apply Hsep, in_rev.
  by apply list_elem_of_In.
Qed.

(** [path.dirname] of a member is its directory. *)
Lemma dirname_child segs n :
  Forall clean segs -> clean n ->
  dirname (ofSegments (segs ++ [n])) = ofSegments segs.
Proof.
  intros Hsegs Hn. unfold ofSegments, dirname.
  rewrite chr_eqb_refl. cbn [andb].
  destruct (last_not_sep n Hn) as (c & r & Hrev & Hc).
  destruct Hn as [Hne Hsep].
  destruct segs as [|x xs].
  - change (join [sep] ([] ++ [n])) with n.
    rewrite Hrev, dropWhileB_stop by done. rewrite <- Hrev.
    rewrite <- (app_nil_r (rev n)), dropWhileB_app by by apply Forall_not_sep.
    reflexivity.
  - rewrite join_snoc by done. rewrite rev_app_distr. cbn [rev].
    rewrite <- app_assoc. cbn [app].
    rewrite Hrev. cbn [app]. rewrite dropWhileB_stop by done.
    change (c :: r ++ sep :: rev (join [sep] (x :: xs)))
      with ((c :: r) ++ sep :: rev (join [sep] (x :: xs))).
    rewrite <- Hrev, dropWhileB_app by by apply Forall_not_sep.
    rewrite dropWhileB_stop by (by rewrite chr_eqb_refl).
    rewrite length_rev.
    apply Forall_cons in Hsegs as [[Hx _] _].
    pose proof (join_nonempty x xs Hx) as Hj.
    destruct (join [sep] (x :: xs)) as [|j js] eqn:Hjoin; [done|].
    cbn [length Nat.eqb]. by rewrite rev_involutive.
Qed.

Lemma endsWith_clean p n : clean n -> endsWith (p ++ n) [sep] = false.
Proof.
  intros Hn. destruct (last_not_sep n Hn) as (c & r & Hrev & Hc).
  unfold endsWith. rewrite rev_app_distr, Hrev. cbn [rev app startsWith].
  apply chr_eqb_neq in Hc. rewrite andb_true_r. apply chr_eqb_neq. congruence.
Qed.

(** [path.join] of a resolved directory and a proper name is the member
    of that name. *)
Lemma join_paths_child segs n :
  Forall proper segs -> proper n ->
  join_paths [ofSegments segs; n] = ofSegments (segs ++ [n]).
Proof.
  intros Hsegs Hn. pose proof (proper_clean n Hn) as Hcn.
  assert (Hall : Forall proper (segs ++ [n])) by (apply Forall_app; by split; [|constructor]).
  unfold join_paths, ofSegments. cbn [filterBoolean List.filter truthy].
  destruct Hcn as [Hne Hsep]. pose proof Hne as Ht. apply truthy_true in Ht.
  rewrite Ht. cbn [join].
  set (p := (sep :: join [sep] segs) ++ [sep] ++ n).
  assert (Hsplit : normalizeSegments false (split sep p) = segs ++ [n]).
  { subst p. cbn [app]. rewrite split_cons_inv, chr_eqb_refl.
    destruct segs as [|x xs].
    - cbn [join app]. rewrite split_cons_inv, chr_eqb_refl.
      rewrite split_clean_one by done.
      unfold normalizeSegments. cbn [fold_left].
      repeat change (normStep false [] []) with (@nil str).
      by rewrite (normStep_proper [] n Hn).
    - rewrite <- join_snoc by done.
      change ((x :: xs) ++ [n]) with (x :: (xs ++ [n])) in *.
      rewrite split_join by by apply Forall_proper_clean.
      unfold normalizeSegments.
      change (fold_left (normStep false) ([] :: x :: xs ++ [n]) [])
        with (fold_left (normStep false) (x :: xs ++ [n]) []).
      fold (normalizeSegments false (x :: xs ++ [n])).
      by apply normalizeSegments_proper. }
  unfold normalize.
  assert (truthy p = true) as -> by done.
  assert (isAbsolute p = true) as -> by (subst p; apply chr_eqb_refl).
  assert (endsWith p [sep] = false) as ->.
  { subst p. rewrite app_assoc. by apply endsWith_clean. }
  cbn [negb]. unfold normalizeString. rewrite Hsplit.
  assert (truthy (join [sep] (segs ++ [n])) = true) as ->; [|done].
  apply truthy_true. destruct segs as [|x xs]; [done|].
  apply join_nonempty. apply Forall_cons in Hsegs as [[[? _] _] _]. done.
Qed.

Lemma startsWith_cancel (p s t : str) :
  startsWith (p ++ s) (p ++ t) = startsWith s t.
Proof. induction p as [|c p IH]; [done|]. cbn. by rewrite chr_eqb_refl. Qed.

(** Two members of a directory lie below one another only when they are
    the same. *)
Lemma child_not_below d l n r :
  clean l -> clean n -> l <> n ->
  startsWith (child d l) (child d n ++ sep :: r) = false.
Proof.
  intros Hl [Hn Hsn] Hne. unfold child. rewrite <- app_assoc, startsWith_cancel.
  destruct (startsWith l (n ++ sep :: r)) eqn:E; [|done].
  apply startsWith_prefix in E as [k ->]. destruct Hl as [_ Hl]. exfalso.
  apply Hl. apply in_or_app. left. apply in_or_app. right. by left.
Qed.

Lemma child_neq d l n : l <> n -> child d l <> child d n.
Proof. unfold child. by intros Hne ?%app_inv_head. Qed.

End ShapeFacts.

(** ** File names and containment *)

Module NameFacts.
Import Js JsFacts Path PathFacts Shape ShapeFacts Sandbox Archive FileApi FileOps.

Lemma includes_single s c : includes s [c] = true <-> In c s.
Proof.
  induction s as [|x s IH].
  - split; [discriminate|intros []].
  - cbn [includes startsWith]. rewrite andb_true_r, orb_true_iff, IH, chr_eqb_eq.
    split; (intros [?|?]; [left|right]); done.
Qed.

Lemma includes_single_false s c : includes s [c] = false <-> ~ In c s.
Proof.
  rewrite <- includes_single. by destruct (includes s [c]).
Qed.

(** What [validateFileName] accepts. *)
Lemma validateFileName_spec name :
  let n := trim (default [] name) in
  n_ok (validateFileName name) = true <->
  proper n /\ ~ In backslash n /\ ~ In NUL n.
Proof.
  intros n. unfold validateFileName. fold n. unfold proper, clean.
  destruct (truthy n) eqn:Ht; cbn [negb].
  2:{ apply truthy_false in Ht. split; [discriminate|]. by intros [[[? _] _] _]. }
  apply truthy_true in Ht.
  destruct (str_eqb n $".") eqn:Hd; cbn [orb].
  { apply str_eqb_eq in Hd. split; [discriminate|]. by intros [[_ [? _]] _]. }
  destruct (str_eqb n $"..") eqn:Hdd.
  { apply str_eqb_eq in Hdd. split; [discriminate|]. by intros [[_ [_ ?]] _]. }
  apply str_eqb_neq in Hd, Hdd.
  destruct (includes n $"/") eqn:Hs; cbn [orb].
  { apply (includes_single n "/"%char) in Hs. split; [discriminate|].
    by intros [[[_ ?] _] _]. }
  apply (includes_single_false n "/"%char) in Hs.
  destruct (includes n [backslash]) eqn:Hb.
  { apply includes_single in Hb. split; [discriminate|]. by intros [_ [? _]]. }
  apply includes_single_false in Hb.
  destruct (includes n [NUL]) eqn:Hz.
  { apply includes_single in Hz. split; [discriminate|]. by intros [_ [_ ?]]. }
  apply includes_single_false in Hz. cbn [n_ok]. by repeat split.
Qed.

Lemma validateFileName_name name :
  n_ok (validateFileName name) = true ->
  n_name (validateFileName name) = Some (trim (default [] name)).
Proof.
  unfold validateFileName.
  repeat (match goal with |- context [if ?b then _ else _] => destruct b end;
          cbn [n_ok nameError n_name]; try discriminate).
  done.
Qed.

Section WithConfig.
Variable cfg : Config.
Hypothesis absolute : isAbsolute (processCwd cfg) = true.

(** A proper name, joined to a resolved directory, is a member of
    it. *)
Lemma member_of_resolved args n :
  proper n ->
  let d := Sandbox.resolve cfg args in
  join_paths [d; n] = child d n /\ dirname (join_paths [d; n]) = d.
Proof using absolute.
  intros Hn d.
  destruct (resolve_proper (processCwd cfg) args absolute) as (segs & Hsegs & Hd).
  fold (Sandbox.resolve cfg args) in Hd. fold d in Hd. split.
  - rewrite Hd, join_paths_child by done.
    apply ofSegments_child. by apply Forall_proper_clean.
  - rewrite Hd, join_paths_child by done.
    apply dirname_child; [by apply Forall_proper_clean|apply Hn].
Qed.

(** X1.  A name that [validateFileName] accepts is the trimmed input;
    it is not empty, is neither [.] nor [..] and holds no separator, no
    backslash and no NUL.  Joined to any resolved directory it names a
    member of that directory: the directory of the joined path is the
    directory itself. *)
Theorem accepted_name_is_member args name :
  n_ok (validateFileName name) = true ->
  let d := Sandbox.resolve cfg args in
  let n := trim (default [] name) in
  n_name (validateFileName name) = Some n /\
  (proper n /\ ~ In backslash n /\ ~ In NUL n) /\
  join_paths [d; n] = child d n /\
  dirname (join_paths [d; n]) = d.
Proof using absolute.
  intros Hok d n.
  pose proof (validateFileName_name name Hok) as Hname.
  apply validateFileName_spec in Hok. fold n in Hok.
  destruct Hok as (Hn & Hb & Hz).
  destruct (member_of_resolved args n Hn) as [Hjoin Hdir].
  split; [exact Hname|]. split; [by repeat split; try apply Hn|].
  split; [exact Hjoin|exact Hdir].
Qed.

Lemma dropCommon_spec (a b : list str) :
  exists common,
    a = common ++ (dropCommon a b).1 /\ b = common ++ (dropCommon a b).2 /\
    match (dropCommon a b).1, (dropCommon a b).2 with
    | x :: _, y :: _ => x <> y
    | _, _ => True
    end.
Proof.
  revert b. induction a as [|x a IH]; intros b.
  - exists []. by destruct b.
  - destruct b as [|y b]; [by exists []|]. cbn [dropCommon].
    destruct (str_eqb x y) eqn:He.
    + apply str_eqb_eq in He as ->. destruct (IH b) as (common & Ha & Hb & Hd).
      exists (y :: common). cbn [app]. by rewrite <- Ha, <- Hb.
    + apply str_eqb_neq in He. by exists [].
Qed.

Lemma startsWith_head (r t : str) :
  clean r -> startsWith (r ++ sep :: t) $".." = startsWith r $"..".
Proof.
  intros [Hne Hsep]. destruct r as [|c1 [|c2 r]]; [done| |done].
  cbn [app startsWith list_ascii_of_string]. rewrite !andb_true_r.
  assert (chr_eqb "."%char sep = false) as -> by done.
  by rewrite andb_false_r.
Qed.

Lemma segments_proper p :
  exists segs, Forall proper segs /\ segments (processCwd cfg) p = segs.
Proof using absolute.
  destruct (resolve_proper (processCwd cfg) [p] absolute) as (segs & Hsegs & Hr).
  exists segs. split; [done|].
  apply segments_shape; [by apply Forall_proper_clean|done].
Qed.

(** X2.  [isSubPath(child, parent)] holds exactly when the segments of
    the resolved parent lead those of the resolved child and the first
    segment after them, if there is one, does not begin with two
    dots. *)
Theorem isSubPath_spec child parent :
  isSubPath cfg child parent = true <->
  exists rest,
    segments (processCwd cfg) child = segments (processCwd cfg) parent ++ rest /\
    match rest with
    | [] => True
    | r :: _ => startsWith r $".." = false
    end.
Proof using absolute.
  unfold isSubPath, relative.
  destruct (segments_proper parent) as (ps & Hps & ->).
  destruct (segments_proper child) as (cs & Hcs & ->).
  destruct (dropCommon_spec ps cs) as (common & Ha & Hb & Hd).
  destruct (dropCommon ps cs) as [up down]. cbn [fst snd] in *.
  destruct up as [|u up].
  - rewrite app_nil_r in Ha. subst common. cbn [map app].
    destruct down as [|r ds].
    + cbn. split; [intros _|done]. exists []. by rewrite Hb.
    + assert (Hr : clean r).
      { rewrite Hb in Hcs. apply Forall_app in Hcs as [_ Hcs].
        apply Forall_cons in Hcs as [Hr _]. by apply proper_clean. }
      assert (Hrel : exists t, join [sep] (r :: ds) = r ++ t /\
                          (t = [] \/ exists t', t = sep :: t')).
      { destruct ds; [exists []; by rewrite app_nil_r; split; [|left]|].
        rewrite join_cons. eexists. split; [done|right; by eexists]. }
      destruct Hrel as (t & Hj & Ht).
      assert (Hsw : startsWith (join [sep] (r :: ds)) $".." = startsWith r $"..").
      { rewrite Hj. destruct Ht as [->|[t' ->]]; [by rewrite app_nil_r|].
        by apply startsWith_head. }
      assert (Habs : isAbsolute (join [sep] (r :: ds)) = false).
      { rewrite Hj. destruct Hr as [Hne Hsep]. destruct r as [|c r]; [done|].
        cbn. apply chr_eqb_neq. intros ->. apply Hsep. by left. }
      assert (Htr : truthy (join [sep] (r :: ds)) = true).
      { rewrite Hj. destruct Hr as [Hne _]. by destruct r. }
      rewrite Htr, Hsw, Habs. cbn [negb]. rewrite andb_true_r.
      split.
      * intros H. exists (r :: ds). split; [done|]. by apply negb_true_iff.
      * intros (rest & Hrest & Hfirst). rewrite Hb in Hrest.
        apply app_inv_head in Hrest. subst rest. by apply negb_true_iff.
  - cbn [map app join]. split.
    + destruct (map (fun _ : str => $"..") up ++ down); cbn; discriminate.
    + intros (rest & Hrest & _). exfalso.
      rewrite Ha, Hb, <- app_assoc in Hrest. apply app_inv_head in Hrest.
      subst down. cbn [app] in Hd. done.
Qed.

End WithConfig.

Lemma accepted_name_is_member_witness :
  let cfg := Examples.exampleConfig in
  n_name (validateFileName (Some $"  notes.txt ")) = Some $"notes.txt" /\
  join_paths [Sandbox.resolve cfg [ROOT cfg; $"docs"]; $"notes.txt"]
    = $"/home/user/docs/notes.txt".
Proof.
  destruct (accepted_name_is_member Examples.exampleConfig eq_refl
              [ROOT Examples.exampleConfig; $"docs"] (Some $"  notes.txt ") eq_refl)
    as (H1 & _ & H2 & _).
  split; [exact H1|exact H2].
Defined.

Lemma isSubPath_spec_witness :
  isSubPath Examples.exampleConfig $"/home/user/a/b" $"/home/user/a" = true /\
  isSubPath Examples.exampleConfig $"/home/user/a/..b" $"/home/user/a" = false.
Proof.
  split.
  - apply (isSubPath_spec Examples.exampleConfig eq_refl). exists [$"b"]. by split.
  - destruct (isSubPath Examples.exampleConfig $"/home/user/a/..b" $"/home/user/a") eqn:E;
      [|done].
    apply (isSubPath_spec Examples.exampleConfig eq_refl) in E as (rest & Hrest & Hfirst).
    vm_compute in Hrest. injection Hrest as <-. discriminate Hfirst.
Defined.

End NameFacts.

(** ** Trees of the store *)

Module TreeFacts.
Import Js JsFacts Path PathFacts Shape ShapeFacts Tree.

Lemma isAtOrBelow_inv a k :
  Fs.isAtOrBelow a k = true ->
  exists r, k = a ++ r /\ (r = [] \/ exists r', r = sep :: r').
Proof.
  unfold Fs.isAtOrBelow. intros [H|H]%orb_true_iff.
  - apply str_eqb_eq in H as ->. exists []. split; [by rewrite app_nil_r|by left].
  - apply startsWith_prefix in H as [r ->]. exists (sep :: r).
    split; [by rewrite <- app_assoc|right; by eexists].
Qed.

Lemma isAtOrBelow_self a : Fs.isAtOrBelow a a = true.
Proof. unfold Fs.isAtOrBelow. by rewrite str_eqb_refl. Qed.

Lemma isAtOrBelow_member a s : Fs.isAtOrBelow a (a ++ sep :: s) = true.
Proof.
  unfold Fs.isAtOrBelow. apply orb_true_iff. right.
  apply startsWith_prefix. exists s. by rewrite <- app_assoc.
Qed.

Lemma rekey_app a b r : rekey a b (a ++ r) = b ++ r.
Proof. unfold rekey. by rewrite drop_app_length. Qed.

Lemma rekey_below a b k :
  Fs.isAtOrBelow a k = true -> Fs.isAtOrBelow b (rekey a b k) = true.
Proof.
  intros (r & -> & Hr)%isAtOrBelow_inv. rewrite rekey_app.
  destruct Hr as [->|[r' ->]]; [rewrite app_nil_r; apply isAtOrBelow_self|].
  apply isAtOrBelow_member.
Qed.

Lemma rekey_inj a b k1 k2 :
  Fs.isAtOrBelow a k1 = true -> Fs.isAtOrBelow a k2 = true ->
  rekey a b k1 = rekey a b k2 -> k1 = k2.
Proof.
  intros (r1 & -> & _)%isAtOrBelow_inv (r2 & -> & _)%isAtOrBelow_inv.
  rewrite !rekey_app. by intros ->%app_inv_head.
Qed.

Lemma carry_NoDup a b (l : list (str * Fs.node)) :
  NoDup (l.*1) -> NoDup ((omap (carry a b) l).*1).
Proof.
  induction l as [|[k v] l IH]; [done|]. cbn [fmap list_fmap fst].
  intros [Hk Hl]%NoDup_cons.
  change (omap (carry a b) ((k, v) :: l))
    with (match carry a b (k, v) with
          | Some y => y :: omap (carry a b) l
          | None => omap (carry a b) l
          end).
  unfold carry at 1. cbn [fst snd].
  destruct (Fs.isAtOrBelow a k) eqn:Hb; [|by apply IH].
  cbn [fmap list_fmap fst]. apply NoDup_cons. split; [|by apply IH].
  intros ([k' v'] & Hk' & Hin)%list_elem_of_fmap. cbn [fst] in Hk'.
  apply list_elem_of_omap in Hin as ([k0 v0] & Hin & Hc).
  unfold carry in Hc. cbn [fst snd] in Hc.
  destruct (Fs.isAtOrBelow a k0) eqn:Hb0; [|done]. injection Hc as <- <-.
  apply rekey_inj in Hk'; [|done..]. subst k0.
  apply Hk. apply list_elem_of_fmap. by exists (k, v0).
Qed.

(** Where the entries of a moved tree come from. *)
Lemma carried_lookup (fs : Fs.FS) a b k v :
  carried fs a b !! k = Some v <->
  exists k0, fs !! k0 = Some v /\ Fs.isAtOrBelow a k0 = true /\ k = rekey a b k0.
Proof.
  unfold carried.
  rewrite <- elem_of_list_to_map by apply carry_NoDup, NoDup_fst_map_to_list.
  rewrite list_elem_of_omap. split.
  - intros ([k0 v0] & Hin & Hc). apply elem_of_map_to_list in Hin.
    unfold carry in Hc. cbn [fst snd] in Hc.
    destruct (Fs.isAtOrBelow a k0) eqn:Hb; [|done]. injection Hc as <- <-.
    by exists k0.
  - intros (k0 & Hin & Hb & ->). exists (k0, v). split.
    + by apply elem_of_map_to_list.
    + unfold carry. cbn [fst snd]. by rewrite Hb.
Qed.

Lemma carried_at (fs : Fs.FS) a b r :
  r = [] \/ (exists r', r = sep :: r') ->
  carried fs a b !! (b ++ r) = fs !! (a ++ r).
Proof.
  intros Hr. apply option_eq. intros v. rewrite carried_lookup. split.
  - intros (k0 & Hin & Hb & Hk).
    apply isAtOrBelow_inv in Hb as (r0 & -> & _). rewrite rekey_app in Hk.
    by apply app_inv_head in Hk as ->.
  - intros Hin. exists (a ++ r). repeat split; [done| |by rewrite rekey_app].
    destruct Hr as [->|[r' ->]]; [rewrite app_nil_r; apply isAtOrBelow_self|].
    apply isAtOrBelow_member.
Qed.

Lemma carried_elsewhere (fs : Fs.FS) a b k :
  Fs.isAtOrBelow b k = false -> carried fs a b !! k = None.
Proof.
  intros Hk. apply eq_None_not_Some. intros [v Hv].
  apply carried_lookup in Hv as (k0 & _ & Hb & ->).
  apply (rekey_below a b) in Hb. congruence.
Qed.

(** A moved tree: its entries follow, the rest of the store stays. *)
Lemma moveTree_at (fs : Fs.FS) a b r :
  r = [] \/ (exists r', r = sep :: r') ->
  moveTree fs a b !! (b ++ r) = fs !! (a ++ r).
Proof.
  intros Hr. unfold moveTree. rewrite lookup_union, carried_at by done.
  assert (filter (fun kv : str * Fs.node =>
                    Fs.isAtOrBelow a kv.1 = false /\ Fs.isAtOrBelow b kv.1 = false)
                 fs !! (b ++ r) = None) as ->.
  { apply map_lookup_filter_None. right. intros x _ [_ H]. cbn [fst] in H.
    destruct Hr as [->|[r' ->]].
    - rewrite app_nil_r, isAtOrBelow_self in H. done.
    - rewrite isAtOrBelow_member in H. done. }
  by destruct (fs !! (a ++ r)).
Qed.

Lemma moveTree_top (fs : Fs.FS) a b : moveTree fs a b !! b = fs !! a.
Proof.
  pose proof (moveTree_at fs a b [] (or_introl eq_refl)) as H.
  by rewrite !app_nil_r in H.
Qed.

Lemma moveTree_elsewhere (fs : Fs.FS) a b k :
  Fs.isAtOrBelow a k = false -> Fs.isAtOrBelow b k = false ->
  moveTree fs a b !! k = fs !! k.
Proof.
  intros Ha Hb. unfold moveTree.
  rewrite lookup_union, carried_elsewhere by done.
  rewrite (left_id None _). apply option_eq. intros v.
  rewrite map_lookup_filter_Some. cbn [fst]. split; [by intros [? _]|by intros ?].
Qed.

Lemma moveTree_source (fs : Fs.FS) a b k :
  Fs.isAtOrBelow a k = true -> Fs.isAtOrBelow b k = false ->
  moveTree fs a b !! k = None.
Proof.
  intros Ha Hb. unfold moveTree.
  rewrite lookup_union, carried_elsewhere by done.
  rewrite (left_id None _). apply map_lookup_filter_None. right.
  intros x _ [H _]. cbn [fst] in H. congruence.
Qed.

Lemma rmSyncRecursive_elsewhere (fs : Fs.FS) p k :
  Fs.isAtOrBelow p k = false -> Fs.rmSyncRecursive fs p !! k = fs !! k.
Proof.
  intros Hk. unfold Fs.rmSyncRecursive. apply option_eq. intros v.
  rewrite map_lookup_filter_Some. cbn [fst]. split; [by intros [? _]|by intros ?].
Qed.


(** [mkdir -p] keeps what is there, and leaves every directory it
    visited in place when it does not fail. *)
Lemma mkdirs_keeps dirs : forall (fs : Fs.FS) k v,
  fs !! k = Some v -> (Fs.mkdirs dirs fs).2 !! k = Some v.
Proof.
  induction dirs as [|d dirs IH]; intros fs k v Hk; [done|]. cbn [Fs.mkdirs].
  destruct (fs !! d) as [[c m|]|] eqn:Hd; [done|by apply IH|].
  apply IH. rewrite lookup_insert_ne; [done|]. intros ->. congruence.
Qed.

Lemma mkdirs_made dirs : forall (fs : Fs.FS) d,
  (Fs.mkdirs dirs fs).1 = None -> In d dirs ->
  (Fs.mkdirs dirs fs).2 !! d = Some Fs.Dir.
Proof.
  induction dirs as [|d0 dirs IH]; intros fs d Hok Hin; [done|].
  cbn [Fs.mkdirs] in *.
  destruct (fs !! d0) as [[c m|]|] eqn:Hd; [done| |].
  - destruct Hin as [->|Hin]; [by apply mkdirs_keeps|by apply IH].
  - destruct Hin as [->|Hin]; [|by apply IH].
    apply mkdirs_keeps. apply lookup_insert_eq.
Qed.

Lemma ancestors_last segs x :
  Forall clean (segs ++ [x]) ->
  In (ofSegments (segs ++ [x])) (Fs.ancestors (ofSegments (segs ++ [x]))).
Proof.
  intros Hc. unfold Fs.ancestors, ofSegments.
  assert (Hs : filterBoolean (split "/"%char (sep :: join [sep] (segs ++ [x])))
               = segs ++ [x]).
  { change (split "/"%char (sep :: join [sep] (segs ++ [x])))
      with ([] :: split sep (join [sep] (segs ++ [x]))).
    change (filterBoolean ([] :: split sep (join [sep] (segs ++ [x]))))
      with (filterBoolean (split sep (join [sep] (segs ++ [x])))).
    destruct (segs ++ [x]) as [|y ys] eqn:E; [by destruct segs|].
    rewrite split_join by done. by apply filterBoolean_clean. }
  rewrite Hs. apply in_map_iff. exists (length (segs ++ [x])). split.
  - by rewrite firstn_all.
  - apply in_seq. rewrite length_app. cbn. lia.
Qed.

Lemma mkdirSyncRecursive_made (fs : Fs.FS) segs :
  Forall clean segs -> segs <> [] ->
  (Fs.mkdirSyncRecursive fs (ofSegments segs)).1 = None ->
  (Fs.mkdirSyncRecursive fs (ofSegments segs)).2 !! ofSegments segs = Some Fs.Dir.
Proof.
  intros Hc Hne Hok. unfold Fs.mkdirSyncRecursive in *.
  apply mkdirs_made; [done|].
  destruct (exists_last Hne) as (segs' & x & ->). by apply ancestors_last.
Qed.

End TreeFacts.

(** ** Making directories and renaming *)

Module DirectoryFacts.
Import Js JsFacts Path PathFacts Shape ShapeFacts Tree TreeFacts.
Import Sandbox FileApi FileOps NameFacts.

Section WithConfig.
Variable cfg : Config.
Variable sameDevice : str -> str -> bool.
Hypothesis absolute : isAbsolute (processCwd cfg) = true.

Lemma resolvePathFromQuery_ok raw :
  ok (resolvePathFromQuery cfg raw) = true ->
  target (resolvePathFromQuery cfg raw) =
    Some (Sandbox.resolve cfg [ROOT cfg; default $"." raw]).
Proof.
  unfold resolvePathFromQuery.
  destruct (negb (withinRoot cfg _)); simpl; [done|]. by destruct raw.
Qed.

Lemma mkdirSync_member (store : Fs.FS) d n :
  dirname (child d n) = d ->
  store !! child d n = None ->
  d = $"/" \/ store !! d = Some Fs.Dir ->
  Tree.mkdirSync store (child d n) = inr (<[child d n := Fs.Dir]> store).
Proof.
  intros Hd Hfree Hdir. unfold Tree.mkdirSync, parentKind. rewrite Hfree, Hd.
  destruct (str_eqb d $"/") eqn:He; [done|].
  destruct Hdir as [Hd'|Hd']; [|by rewrite Hd']. subst d. by rewrite str_eqb_refl in He.
Qed.

(** X3.  [POST /api/fs/mkdir] never changes or removes an entry of the
    store; when it answers 200, the member it was asked for did not
    exist before, is a directory afterwards, and so is the directory
    that holds it. *)
Theorem mkdir_makes_the_member body w :
  let out := mkdir cfg body w in
  (forall k v, fs w !! k = Some v -> fs out.2 !! k = Some v) /\
  (status out.1 = 200 ->
   let d := Sandbox.resolve cfg [ROOT cfg; default $"." (m_dir body)] in
   let n := trim (default [] (m_name body)) in
   fs w !! child d n = None /\
   fs out.2 !! child d n = Some Fs.Dir /\
   (d = $"/" \/ fs out.2 !! d = Some Fs.Dir)).
Proof using absolute.
  unfold mkdir.
  destruct (ok (resolvePathFromQuery cfg (m_dir body))) eqn:Hok; cbn [negb];
    [|by split].
  rewrite (resolvePathFromQuery_ok _ Hok). cbn [from_option id].
  set (d := Sandbox.resolve cfg [ROOT cfg; default $"." (m_dir body)]).
  destruct (n_ok (validateFileName (m_name body))) eqn:Hname; cbn [negb];
    [|by split].
  pose proof (validateFileName_name _ Hname) as Hn.
  pose proof (proj1 (validateFileName_spec _) Hname) as (Hproper & _).
  destruct (member_of_resolved cfg absolute
              [ROOT cfg; default $"." (m_dir body)] _ Hproper)
    as (Hjoin & Hdirname).
  fold d in Hjoin, Hdirname. rewrite Hn. cbn [from_option id].
  set (n := trim (default [] (m_name body))) in *.
  rewrite Hjoin in *.
  destruct (withinRoot cfg (child d n)); cbn [negb]; [|by split].
  unfold_monad. cbn [fs now spawned].
  destruct (Fs.mkdirSyncRecursive (fs w) d) as [err store1] eqn:Hmk.
  assert (Hkeep : forall k v, fs w !! k = Some v -> store1 !! k = Some v).
  { intros k v Hk. pose proof (mkdirs_keeps (Fs.ancestors d) (fs w) k v Hk) as H.
    unfold Fs.mkdirSyncRecursive in Hmk. by rewrite Hmk in H. }
  destruct err as [msg|]; cbn [fs fst snd]; [by split|].
  unfold Fs.existsSync.
  destruct (store1 !! child d n) as [x|] eqn:Hfree; cbn [fs fst snd]; [by split|].
  assert (Hdir : d = $"/" \/ store1 !! d = Some Fs.Dir).
  { destruct (resolve_proper (processCwd cfg)
                [ROOT cfg; default $"." (m_dir body)] absolute)
      as (segs & Hsegs & Hshape).
    fold (Sandbox.resolve cfg [ROOT cfg; default $"." (m_dir body)]) in Hshape.
    fold d in Hshape. destruct segs as [|x xs]; [by left|right].
    pose proof (mkdirSyncRecursive_made (fs w) (x :: xs)
                  (Forall_proper_clean _ Hsegs)) as H.
    rewrite <- Hshape, Hmk in H. by apply H. }
  rewrite (mkdirSync_member store1 d n Hdirname Hfree Hdir).
  cbn [fs fst snd]. unfold Fs.statSync. rewrite lookup_insert_eq. cbn [fst snd fs].
  split.
  - intros k v Hk. rewrite lookup_insert_ne; [by apply Hkeep|].
    intros <-. apply Hkeep in Hk. congruence.
  - intros _. repeat split.
    + destruct (fs w !! child d n) as [v|] eqn:E; [|done].
      apply Hkeep in E. congruence.
    + apply lookup_insert_eq.
    + destruct Hdir as [?|Hdir]; [by left|right].
      rewrite lookup_insert_ne; [done|]. intros E. congruence.
Qed.

(** A resolved path is the root directory or a member of its
    directory. *)
Lemma resolved_shape args :
  let t := Sandbox.resolve cfg args in
  exists segs, Forall proper segs /\ dirname t = ofSegments segs /\
    (t = $"/" /\ segs = [] \/
     exists l, proper l /\ t = child (ofSegments segs) l).
Proof using absolute.
  intros t.
  destruct (resolve_proper (processCwd cfg) args absolute) as (segs & Hsegs & Hr).
  fold (Sandbox.resolve cfg args) in Hr. fold t in Hr. rewrite Hr.
  destruct segs as [|l segs _] using rev_ind.
  { exists []. split; [done|]. split; [done|]. by left. }
  exists segs. apply Forall_app in Hsegs as [Hsegs [Hl _]%Forall_cons].
  split; [done|]. split.
  - apply dirname_child; [by apply Forall_proper_clean|by apply proper_clean].
  - right. exists l. split; [done|].
    apply ofSegments_child. by apply Forall_proper_clean.
Qed.

(** X4.  When [POST /api/fs/rename] answers 200 the new name was free,
    lies in the directory of the old one, and holds what the old name
    held; the old name is gone; the members of a renamed directory
    follow it; every entry outside the old and the new name is
    untouched.  When it answers anything else the store is unchanged. *)
Theorem rename_moves_within_directory body w :
  let out := rename cfg sameDevice body w in
  let target := Sandbox.resolve cfg [ROOT cfg; default $"." (r_path body)] in
  let dest := child (dirname target) (trim (default [] (r_newName body))) in
  (status out.1 = 200 ->
   dirname dest = dirname target /\
   fs w !! dest = None /\
   is_Some (fs w !! target) /\
   fs out.2 !! dest = fs w !! target /\
   fs out.2 !! target = None /\
   (fs w !! target = Some Fs.Dir ->
    forall s, fs out.2 !! (dest ++ sep :: s) = fs w !! (target ++ sep :: s)) /\
   (forall k, Fs.isAtOrBelow target k = false -> Fs.isAtOrBelow dest k = false ->
              fs out.2 !! k = fs w !! k)) /\
  (status out.1 <> 200 -> out.2 = w).
Proof using absolute.
  unfold rename.
  destruct (ok (resolvePathFromQuery cfg (r_path body))) eqn:Hok; cbn [negb];
    [|by split].
  rewrite (resolvePathFromQuery_ok _ Hok). cbn [from_option id].
  set (target := Sandbox.resolve cfg [ROOT cfg; default $"." (r_path body)]).
  destruct (isRootPath cfg target); [by split|].
  destruct (n_ok (validateFileName (r_newName body))) eqn:Hname; cbn [negb];
    [|by split].
  pose proof (validateFileName_name _ Hname) as Hn.
  pose proof (proj1 (validateFileName_spec _) Hname) as (Hproper & _).
  rewrite Hn. cbn [from_option id].
  set (n := trim (default [] (r_newName body))) in *.
  destruct (resolved_shape [ROOT cfg; default $"." (r_path body)])
    as (segs & Hsegs & Hdir & Hshape).
  fold target in Hdir, Hshape. rewrite Hdir.
  rewrite join_paths_child by done.
  rewrite ofSegments_child by by apply Forall_proper_clean.
  set (dest := child (ofSegments segs) n).
  assert (Hdd : dirname dest = ofSegments segs).
  { subst dest. rewrite <- ofSegments_child by by apply Forall_proper_clean.
    apply dirname_child; [by apply Forall_proper_clean|by apply proper_clean]. }
  assert (Hbelow : target <> dest -> Fs.isAtOrBelow dest target = false).
  { intros Hne. unfold Fs.isAtOrBelow. apply orb_false_iff.
    split; [by apply str_eqb_neq|].
    destruct Hshape as [[Ht ->]|(l & Hl & Ht)].
    - rewrite Ht. subst dest. unfold child, ofSegments. cbn.
      destruct Hproper as [[Hne' _] _]. by destruct n.
    - rewrite Ht. apply child_not_below; [by apply proper_clean..|].
      intros ->. by apply Hne. }
  destruct (withinRoot cfg dest); cbn [negb]; [|by split].
  unfold_monad. cbn [fs now spawned]. unfold Fs.existsSync.
  destruct (fs w !! dest) as [x|] eqn:Hfree; [by split|].
  unfold Tree.renameSync.
  destruct (fs w !! target) as [[c m|]|] eqn:Ht;
    [destruct (sameDevice target dest); cbn [negb fst snd fs];
     [|split; [done|by intros _; destruct w]]..|];
    rewrite ?Hfree; cbn [fst snd fs].
  - (* a file *)
    assert (target <> dest) by congruence.
    split; [intros _|done]. repeat split; try done.
    + apply lookup_insert_eq.
    + rewrite lookup_insert_ne by done. apply lookup_delete_eq.
    + intros k Hk1 Hk2. rewrite lookup_insert_ne, lookup_delete_ne; [done| |].
      * intros <-. by rewrite isAtOrBelow_self in Hk1.
      * intros <-. by rewrite isAtOrBelow_self in Hk2.
  - (* a directory *)
    assert (target <> dest) by congruence.
    assert (str_eqb target dest = false) as -> by by apply str_eqb_neq.
    destruct (startsWith dest (target ++ $"/")) eqn:Hin; cbn [fst snd fs].
    { split; [done|by intros _; destruct w]. }
    split; [intros _|done]. repeat split; try done.
    + by rewrite moveTree_top.
    + apply moveTree_source; [apply isAtOrBelow_self|by apply Hbelow].
    + intros _ s. apply moveTree_at. right. by eexists.
    + intros k Hk1 Hk2. by apply moveTree_elsewhere.
  - split; [done|by intros _; destruct w].
Qed.

End WithConfig.
Lemma mkdir_makes_the_member_witness :
  status (mkdir Examples.exampleConfig MoreExamples.makeDocs Examples.homeWorld).1 = 200 /\
  fs (mkdir Examples.exampleConfig MoreExamples.makeDocs Examples.homeWorld).2
    !! $"/home/user/docs" = Some Fs.Dir /\
  fs (mkdir Examples.exampleConfig MoreExamples.makeDocs Examples.homeWorld).2
    !! $"/home/user" = Some Fs.Dir.
Proof.
  assert (Hok : status (mkdir Examples.exampleConfig MoreExamples.makeDocs
                          Examples.homeWorld).1 = 200) by (vm_compute; reflexivity).
  destruct (mkdir_makes_the_member Examples.exampleConfig eq_refl
              MoreExamples.makeDocs Examples.homeWorld) as [Hkeep Hmade].
  destruct (Hmade Hok) as (_ & Hdir & _).
  split; [exact Hok|]. split; [exact Hdir|].
  apply Hkeep. vm_compute. reflexivity.
Defined.

Lemma rename_moves_within_directory_witness :
  let out := rename Examples.exampleConfig MoreExamples.oneDevice
               MoreExamples.renameNotes Examples.notesWorld in
  status out.1 = 200 /\
  fs out.2 !! $"/home/user/todo.txt" = Some (Fs.File [] 0) /\
  fs out.2 !! $"/home/user/notes.txt" = None /\
  fs out.2 !! $"/home/user" = Some Fs.Dir.
Proof.
  intros out.
  assert (Hok : status out.1 = 200) by (vm_compute; reflexivity).
  destruct (rename_moves_within_directory Examples.exampleConfig
              MoreExamples.oneDevice eq_refl
              MoreExamples.renameNotes Examples.notesWorld) as [Hdone _].
  destruct (Hdone Hok) as (_ & _ & _ & Hdest & Hsrc & _ & Hrest).
  split; [exact Hok|]. split; [|split; [exact Hsrc|]].
  - etransitivity; [exact Hdest|]. vm_compute. reflexivity.
  - etransitivity; [apply Hrest; vm_compute; reflexivity|]. vm_compute. reflexivity.
Defined.

End DirectoryFacts.

(** ** Reading text files *)

Module ReadFacts.
Import Js JsFacts Sandbox FileApi FileOps DirectoryFacts.

Lemma sniff_spec buf : forall len,
  sniff buf len = true <-> exists i, i < len /\ buf !! i = Some x00.
Proof.
  induction buf as [|b buf IH]; intros len.
  - destruct len; (split; [discriminate|by intros (i & _ & ?)]).
  - destruct len as [|len]; [split; [discriminate|intros (i & ? & _); lia]|].
    cbn [sniff]. destruct (Byte.eqb b x00) eqn:Hb.
    + apply Byte.byte_dec_bl in Hb as ->. split; [intros _|done].
      exists 0. split; [lia|done].
    + rewrite IH. split.
      * intros (i & Hi & Hx). exists (S i). split; [lia|done].
      * intros ([|i] & Hi & Hx).
        -- injection Hx as ->. discriminate Hb.
        -- exists i. split; [lia|done].
Qed.

(** X5.  [looksBinary] tells whether one of the first 8192 bytes is
    zero. *)
Theorem looksBinary_spec buf :
  looksBinary buf = true <->
  exists i, i < BINARY_SNIFF_BYTES /\ buf !! i = Some x00.
Proof.
  unfold looksBinary. destruct (Nat.eqb (length buf) 0) eqn:He.
  - apply Nat.eqb_eq in He. destruct buf; [|done].
    split; [discriminate|by intros (i & _ & ?)].
  - rewrite sniff_spec. split; intros (i & Hi & Hx); exists i; (split; [|done]).
    + lia.
    + apply lookup_lt_Some in Hx. lia.
Qed.

Section WithConfig.
Variable cfg : Config.
Variable toStringUtf8 : list byte -> str.

(** What [GET /api/file] answers for a regular file. *)
Lemma getFile_file q w c m :
  ok (resolvePathFromQuery cfg q) = true ->
  let t := Sandbox.resolve cfg [ROOT cfg; default $"." q] in
  fs w !! t = Some (Fs.File c m) ->
  (N.of_nat (length c) <= MAX_TEXT_FILE_BYTES)%N ->
  getFile cfg toStringUtf8 q w =
    (if looksBinary c then sendError 415 $"binary file not supported"
     else sendJson [($"ok", JBool true); ($"path", JStr t);
                    ($"size", jnat (length c)); ($"mtimeMs", JNum m);
                    ($"encoding", JStr $"utf8");
                    ($"content", JStr (toStringUtf8 c))], w).
Proof.
  intros Hok t Hfile Hsize. unfold getFile.
  rewrite Hok, (resolvePathFromQuery_ok cfg _ Hok). cbn [negb from_option id].
  fold t. unfold_monad. unfold Fs.statSync, Tree.readFileSync. rewrite Hfile.
  cbn [Fs.isFile Fs.size Fs.mtimeMs negb].
  assert (N.ltb MAX_TEXT_FILE_BYTES (N.of_nat (length c)) = false) as ->
    by by apply N.ltb_ge.
  by destruct (looksBinary c).
Qed.

(** What a file looks like when [GET /api/file] answers 200. *)
Lemma getFile_ok_inv q w :
  status (getFile cfg toStringUtf8 q w).1 = 200 ->
  ok (resolvePathFromQuery cfg q) = true /\
  exists c m,
    fs w !! Sandbox.resolve cfg [ROOT cfg; default $"." q] = Some (Fs.File c m) /\
    (N.of_nat (length c) <= MAX_TEXT_FILE_BYTES)%N /\
    looksBinary c = false.
Proof.
  unfold getFile.
  destruct (ok (resolvePathFromQuery cfg q)) eqn:Hok; cbn [negb]; [|done].
  rewrite (resolvePathFromQuery_ok cfg _ Hok). cbn [from_option id].
  unfold_monad. unfold Fs.statSync, Tree.readFileSync.
  destruct (fs w !! _) as [[c m|]|] eqn:Hfile; [|done..].
  cbn [Fs.isFile Fs.size Fs.mtimeMs negb].
  destruct (N.ltb MAX_TEXT_FILE_BYTES (N.of_nat (length c))) eqn:Hs; [done|].
  destruct (looksBinary c) eqn:Hb; [done|]. intros _.
  split; [done|]. exists c, m. repeat split; [|done]. by apply N.ltb_ge.
Qed.

(** What the store holds when [PUT /api/file] answers 200. *)
Lemma putFile_ok_inv body w :
  status (putFile cfg body w).1 = 200 ->
  exists content,
    p_content body = Some content /\
    ok (resolvePathFromQuery cfg (p_path body)) = true /\
    (N.of_nat (length (utf8 content)) <= MAX_TEXT_FILE_BYTES)%N /\
    fs (putFile cfg body w).2
      !! Sandbox.resolve cfg [ROOT cfg; default $"." (p_path body)]
      = Some (Fs.File (utf8 content) (now w)).
Proof.
  unfold putFile.
  destruct (ok (resolvePathFromQuery cfg (p_path body))) eqn:Hok; cbn [negb];
    [|done].
  rewrite (resolvePathFromQuery_ok cfg _ Hok). cbn [from_option id].
  set (t := Sandbox.resolve cfg [ROOT cfg; default $"." (p_path body)]).
  destruct (p_content body) as [content|]; [|done].
  destruct (N.ltb MAX_TEXT_FILE_BYTES (N.of_nat (length (utf8 content)))) eqn:Hs;
    [done|].
  apply N.ltb_ge in Hs.
  assert (Hwrite : forall w1, now w1 = now w ->
            status (writeViaTemp cfg t content w1).1 = 200 ->
            exists c, Some content = Some c /\ true = true /\
              (N.of_nat (length (utf8 c)) <= MAX_TEXT_FILE_BYTES)%N /\
              fs (writeViaTemp cfg t content w1).2 !! t
                = Some (Fs.File (utf8 c) (now w))).
  { intros w1 Hnow H200. exists content. repeat split; [done|].
    rewrite <- Hnow. by apply PutFileFacts.writeViaTemp_written. }
  unfold_monad. cbn [fs now spawned]. unfold Fs.existsSync, Fs.statSync.
  destruct (fs w !! t) as [[c m|]|] eqn:Hfile; cbn [fst snd].
  - cbn [Fs.isFile Fs.size Fs.mtimeMs negb].
    destruct (N.ltb MAX_TEXT_FILE_BYTES (N.of_nat (length c))); [done|].
    destruct (p_mtimeMs body) as [[expected|]|]; [|by apply Hwrite..].
    destruct (Qle_bool (Qabs (m - expected)) 2); [by apply Hwrite|done].
  - done.
  - destruct (withinRoot cfg (Path.dirname t)); cbn [negb fst snd]; [|done].
    destruct (Fs.mkdirSyncRecursive (fs w) (Path.dirname t)) as [[msg|] store'];
      cbn [fst snd]; [done|].
    by apply Hwrite.
Qed.

(** X6.  A text that [PUT /api/file] stored is what [GET /api/file]
    reads back from the same path: its UTF-8 bytes decoded, their number
    and the time of the write; the read is refused with 415 exactly
    when one of the first 8192 bytes is zero.  The read leaves the world
    as the write left it. *)
Theorem put_then_get body w :
  status (putFile cfg body w).1 = 200 ->
  exists content,
    p_content body = Some content /\
    let w' := (putFile cfg body w).2 in
    let t := Sandbox.resolve cfg [ROOT cfg; default $"." (p_path body)] in
    getFile cfg toStringUtf8 (p_path body) w' =
      (if looksBinary (utf8 content)
       then sendError 415 $"binary file not supported"
       else sendJson [($"ok", JBool true); ($"path", JStr t);
                      ($"size", jnat (length (utf8 content)));
                      ($"mtimeMs", JNum (now w));
                      ($"encoding", JStr $"utf8");
                      ($"content", JStr (toStringUtf8 (utf8 content)))], w').
Proof.
  intros (content & Hc & Hok & Hsize & Hfile)%putFile_ok_inv.
  exists content. split; [done|]. by apply getFile_file.
Qed.

(** X7.  The modification time that [GET /api/file] reports is accepted
    by [PUT /api/file] on the same path and the same store: whatever the
    new content, the write is not refused as a conflict. *)
Theorem reported_mtime_is_accepted q w m content :
  status (getFile cfg toStringUtf8 q w).1 = 200 ->
  field $"mtimeMs" (getFile cfg toStringUtf8 q w).1 = Some (JNum m) ->
  status (putFile cfg {| p_path := q; p_content := Some content;
                         p_mtimeMs := Some (Some m) |} w).1 <> 409.
Proof.
  intros H200 Hm.
  destruct (getFile_ok_inv q w H200) as (Hok & c & m' & Hfile & Hsize & Hb).
  rewrite (getFile_file q w c m' Hok Hfile Hsize), Hb in Hm.
  injection Hm as <-.
  unfold putFile. cbn [p_path p_content p_mtimeMs].
  rewrite Hok, (resolvePathFromQuery_ok cfg _ Hok). cbn [negb from_option id].
  destruct (N.ltb MAX_TEXT_FILE_BYTES (N.of_nat (length (utf8 content))));
    [done|].
  unfold_monad. cbn [fs now spawned]. unfold Fs.existsSync, Fs.statSync.
  rewrite Hfile. cbn [Fs.isFile Fs.size Fs.mtimeMs negb fst snd].
  assert (N.ltb MAX_TEXT_FILE_BYTES (N.of_nat (length c)) = false) as ->
    by by apply N.ltb_ge.
  assert (Qle_bool (Qabs (m' - m')) 2 = true) as ->.
  { apply Qle_bool_iff.
    assert (m' - m' == 0)%Q as -> by ring. done. }
  cbn [fst snd]. unfold writeViaTemp. unfold_monad. cbn [fs now spawned].
  repeat (match goal with
          | |- context [match ?x with _ => _ end] => destruct x; cbn [fst snd]
          end); done.
Qed.

End WithConfig.
Lemma put_then_get_witness :
  let w' := (putFile Examples.exampleConfig MoreExamples.saveNotes Examples.notesWorld).2 in
  status (putFile Examples.exampleConfig MoreExamples.saveNotes Examples.notesWorld).1 = 200 /\
  getFile Examples.exampleConfig MoreExamples.asciiText (Some $"notes.txt") w' =
    (sendJson [($"ok", JBool true); ($"path", JStr $"/home/user/notes.txt");
               ($"size", jnat 2); ($"mtimeMs", JNum 1);
               ($"encoding", JStr $"utf8"); ($"content", JStr $"hi")], w').
Proof.
  intros w'.
  assert (Hok : status (putFile Examples.exampleConfig MoreExamples.saveNotes
                          Examples.notesWorld).1 = 200) by (vm_compute; reflexivity).
  split; [exact Hok|].
  destruct (put_then_get Examples.exampleConfig MoreExamples.asciiText
              MoreExamples.saveNotes Examples.notesWorld Hok) as (content & Hc & Hget).
  injection Hc as <-. exact Hget.
Defined.

Lemma reported_mtime_is_accepted_witness :
  field $"mtimeMs" (getFile Examples.exampleConfig MoreExamples.asciiText
                      (Some $"notes.txt") Examples.notesWorld).1 = Some (JNum 0) /\
  status (putFile Examples.exampleConfig
            {| p_path := Some $"notes.txt"; p_content := Some $"new";
               p_mtimeMs := Some (Some 0%Q) |} Examples.notesWorld).1 <> 409.
Proof.
  assert (Hm : field $"mtimeMs" (getFile Examples.exampleConfig MoreExamples.asciiText
                 (Some $"notes.txt") Examples.notesWorld).1 = Some (JNum 0))
    by (vm_compute; reflexivity).
  split; [exact Hm|].
  apply (reported_mtime_is_accepted Examples.exampleConfig MoreExamples.asciiText
           (Some $"notes.txt") Examples.notesWorld 0%Q $"new");
    [vm_compute; reflexivity|exact Hm].
Defined.

End ReadFacts.

(** ** Copying and moving a file under a conflict policy *)

Module PolicyFacts.
Import Js JsFacts Tree TreeFacts Sandbox FileApi FileOps.

Lemma copyFileSync_elsewhere (store store' : Fs.FS) t src dest k :
  Tree.copyFileSync store t src dest = inr store' ->
  k <> dest -> store' !! k = store !! k.
Proof.
  unfold Tree.copyFileSync. intros H Hk.
  destruct (store !! src) as [[c m|]|]; [|done..].
  destruct (store !! dest) as [[c' m'|]|]; [|done|];
    injection H as <-; by rewrite lookup_insert_ne.
Qed.

Lemma copyFileSync_copied (store store' : Fs.FS) t src dest :
  Tree.copyFileSync store t src dest = inr store' ->
  exists c m, store !! src = Some (Fs.File c m) /\
              store' !! dest = Some (Fs.File c t).
Proof.
  unfold Tree.copyFileSync. intros H.
  destruct (store !! src) as [[c m|]|]; [|done..].
  exists c, m. split; [done|].
  destruct (store !! dest) as [[c' m'|]|]; [|done|];
    injection H as <-; apply lookup_insert_eq.
Qed.

Lemma not_below_neq dest k : Fs.isAtOrBelow dest k = false -> k <> dest.
Proof. intros H ->. by rewrite isAtOrBelow_self in H. Qed.

Lemma rmSyncRecursive_keeps (store : Fs.FS) p k v :
  Fs.rmSyncRecursive store p !! k = Some v -> store !! k = Some v.
Proof.
  unfold Fs.rmSyncRecursive. by intros [? _]%map_lookup_filter_Some.
Qed.

(** X8.  [copyFileWithPolicy] changes nothing outside the destination.
    A destination that exists is left as it is, and the store with it,
    under the policies [skip], which counts it as skipped, and [error],
    which throws [EEXIST].  A copy that is counted has put the content of
    the source, a regular file, at the destination, with the time of the
    copy. *)
Theorem copyFileWithPolicy_policy src dest policy stats w :
  let out := copyFileWithPolicy src dest policy stats w in
  (forall k, Fs.isAtOrBelow dest k = false -> fs out.2 !! k = fs w !! k) /\
  (is_Some (fs w !! dest) -> policy = $"skip" -> out = ((None, skip stats), w)) /\
  (is_Some (fs w !! dest) -> policy = $"error" ->
   out = ((Some destExists, stats), w)) /\
  (done_ out.1.2 = S (done_ stats) ->
   out.1.1 = None /\
   exists c m, fs w !! src = Some (Fs.File c m) /\
               fs out.2 !! dest = Some (Fs.File c (now w))).
Proof.
  unfold copyFileWithPolicy. unfold_monad. cbn [fs now spawned].
  unfold Fs.existsSync.
  destruct (fs w !! dest) as [x|] eqn:Hdest.
  - destruct (str_eqb policy $"skip") eqn:Hskip.
    { cbn [fst snd]. split; [done|]. split; [done|]. split.
      - intros _ ->. done.
      - cbn [skip done_]. lia. }
    destruct (str_eqb policy $"error") eqn:Herror.
    { cbn [fst snd]. split; [done|]. split; [by intros _ ->|]. split; [done|].
      lia. }
    cbn [fs now spawned fst snd].
    destruct (Tree.copyFileSync (Fs.rmSyncRecursive (fs w) dest) (now w) src dest)
      as [msg|store2] eqn:Hcopy; cbn [fs fst snd].
    + split; [|split; [by intros _ ->|split; [by intros _ ->|]]].
      * intros k Hk. by apply rmSyncRecursive_elsewhere.
      * cbn [overwrote done_]. lia.
    + split; [|split; [by intros _ ->|split; [by intros _ ->|]]].
      * intros k Hk.
        rewrite (copyFileSync_elsewhere _ _ _ _ _ k Hcopy) by by apply not_below_neq.
        by apply rmSyncRecursive_elsewhere.
      * intros _. split; [done|].
        destruct (copyFileSync_copied _ _ _ _ _ Hcopy) as (c & m & Hsrc & Hd).
        exists c, m. split; [|done]. by apply rmSyncRecursive_keeps in Hsrc.
  - destruct (Tree.copyFileSync (fs w) (now w) src dest)
      as [msg|store2] eqn:Hcopy; cbn [fs fst snd].
    + split; [done|]. split; [by intros []|]. split; [by intros []|]. lia.
    + split; [|split; [by intros []|split; [by intros []|]]].
      * intros k Hk.
        by rewrite (copyFileSync_elsewhere _ _ _ _ _ k Hcopy) by by apply not_below_neq.
      * intros _. split; [done|].
        by destruct (copyFileSync_copied _ _ _ _ _ Hcopy) as (c & m & Hsrc & Hd);
          exists c, m.
Qed.


Lemma rmSyncRecursive_absent (store : Fs.FS) p k :
  store !! k = None -> Fs.rmSyncRecursive store p !! k = None.
Proof.
  intros Hk. unfold Fs.rmSyncRecursive. apply map_lookup_filter_None. by left.
Qed.



Lemma copyFileWithPolicy_policy_witness :
  let notes := $"/home/user/notes.txt" in
  let copy := $"/home/user/copy.txt" in
  fs (copyFileWithPolicy notes copy $"error" MoreExamples.noStats Examples.notesWorld).2
    !! copy = Some (Fs.File [] 1) /\
  copyFileWithPolicy notes notes $"skip" MoreExamples.noStats Examples.notesWorld
    = ((None, skip MoreExamples.noStats), Examples.notesWorld).
Proof.
  intros notes copy.
  destruct (copyFileWithPolicy_policy notes copy $"error" MoreExamples.noStats
              Examples.notesWorld) as (_ & _ & _ & Hdone).
  destruct Hdone as (_ & c & m & Hsrc & Hdest); [vm_compute; reflexivity|].
  destruct (copyFileWithPolicy_policy notes notes $"skip" MoreExamples.noStats
              Examples.notesWorld) as (_ & Hskip & _).
  split.
  - etransitivity; [exact Hdest|]. vm_compute in Hsrc. injection Hsrc as <- <-.
    vm_compute. reflexivity.
  - apply Hskip; [eexists; vm_compute; reflexivity|reflexivity].
Defined.


End PolicyFacts.

(** ** The allow-list of [POST /api/run] *)

Module RunFacts.
Import Js JsFacts Sandbox Run.

Lemma split_eq c x s :
  split c (x :: s) =
    if chr_eqb x c then [] :: split c s
    else match split c s with
         | seg :: segs => (x :: seg) :: segs
         | [] => [[x]]
         end.
Proof. reflexivity. Qed.

Lemma split_not_nil c s : split c s <> [].
Proof.
  induction s as [|x s IH]; [done|]. rewrite split_eq.
  destruct (chr_eqb x c); [done|]. by destruct (split c s).
Qed.

(** No piece of [s.split(c)] holds the separator. *)
Lemma split_free c s : Forall (fun seg => ~ In c seg) (split c s).
Proof.
  induction s as [|x s IH]; [simpl; constructor; [by intros []|constructor]|].
  rewrite split_eq. destruct (chr_eqb x c) eqn:Hc.
  - constructor; [by intros []|done].
  - destruct (split c s) as [|seg segs] eqn:Hs; [by destruct (split_not_nil c s)|].
    apply Forall_cons in IH as [H1 H2]. constructor; [|done].
    intros [->|Hin]; [|done]. by rewrite chr_eqb_refl in Hc.
Qed.

Lemma trimStart_spec s :
  exists ws, s = ws ++ trimStart s /\
    match trimStart s with
    | [] => True
    | c :: _ => isWhiteSpace c = false
    end.
Proof.
  induction s as [|c s (ws & Hs & Hh)]; [by exists []|]. cbn [trimStart].
  destruct (isWhiteSpace c) eqn:Hc.
  - exists (c :: ws). split; [by rewrite Hs at 1|done].
  - by exists [].
Qed.

Lemma trimStart_fixed c s : isWhiteSpace c = false -> trimStart (c :: s) = c :: s.
Proof. intros H. cbn [trimStart]. by rewrite H. Qed.

Lemma In_trimStart c s : In c (trimStart s) -> In c s.
Proof.
  destruct (trimStart_spec s) as (ws & Hs & _). intros H. rewrite Hs.
  apply in_or_app. by right.
Qed.

Lemma In_trim c s : In c (trim s) -> In c s.
Proof.
  unfold trim, trimEnd. intros H%in_rev%In_trimStart%in_rev. by apply In_trimStart.
Qed.

(** What [trim] returns is trimmed. *)
Lemma trim_trim s : trim (trim s) = trim s.
Proof.
  unfold trim, trimEnd.
  destruct (trimStart_spec s) as (ws1 & Hs & Hh1).
  set (t := trimStart s) in *.
  destruct (trimStart_spec (rev t)) as (ws2 & Ht & Hh2).
  set (u := trimStart (rev t)) in *.
  assert (Hu : trimStart u = u) by (destruct u; [done|by apply trimStart_fixed]).
  destruct (rev u) as [|c r] eqn:Hr.
  - done.
  - assert (Hc : isWhiteSpace c = false).
    { apply (f_equal (@rev _)) in Ht. rewrite rev_involutive, rev_app_distr, Hr in Ht.
      rewrite Ht in Hh1. done. }
    rewrite trimStart_fixed by done. rewrite <- Hr, rev_involutive. by rewrite Hu.
Qed.

Section WithServer.
Variable cfg : Config.
Variable env : option str.

(** X10.  [POST /api/run] hands a command to [pty.spawn] only when the
    body names it by a string that is in the allow-list and the working
    directory passes the root check.  Every name in the allow-list is a
    trimmed, non-empty piece of the comma-separated setting, so a
    command that is blank, or holds a comma, or has white space at
    either end, is never run. *)
Theorem run_spawns_allowed_only body file a dir :
  run cfg env body = Spawn file a dir ->
  cmd body = Some (JStr file) /\
  withinRoot cfg dir = true /\
  In file (ALLOWED_CMDS env) /\
  file <> [] /\ trim file = file /\ ~ In ","%char file /\
  exists piece,
    In piece (split ","%char (orElse (default [] env) defaultCommands)) /\
    file = trim piece.
Proof.
  unfold run.
  destruct (match cwd body with
            | None => Some (resolve cfg [ROOT cfg; $"."])
            | Some (JStr d) => Some (resolve cfg [ROOT cfg; d])
            | Some _ => None
            end) as [realCwd|]; [|done].
  destruct (withinRoot cfg realCwd) eqn:Hroot; cbn [negb]; [|done].
  destruct (cmd body) as [[| | |c| |]|]; try done.
  destruct (existsb (str_eqb c) (ALLOWED_CMDS env)) eqn:Hin; [|done].
  intros [= <- <- <-].
  apply existsb_exists in Hin as (x & Hx & ->%str_eqb_eq).
  split; [done|]. split; [done|]. split; [done|].
  unfold ALLOWED_CMDS, filterBoolean in Hx.
  apply filter_In in Hx as [Hx Ht]. apply truthy_true in Ht.
  apply in_map_iff in Hx as (piece & <- & Hpiece).
  split; [done|]. split; [apply trim_trim|]. split.
  - intros Hc%In_trim.
    pose proof (split_free ","%char (orElse (default [] env) defaultCommands)) as Hf.
    rewrite Forall_forall in Hf. apply (Hf piece); [|done].
    by apply list_elem_of_In.
  - by exists piece.
Qed.

End WithServer.
Lemma run_spawns_allowed_only_witness :
  run Examples.exampleConfig None MoreExamples.runLs
    = Spawn $"ls" (JArr []) $"/home/user" /\
  In $"ls" (ALLOWED_CMDS None) /\
  withinRoot Examples.exampleConfig $"/home/user" = true.
Proof.
  assert (Hrun : run Examples.exampleConfig None MoreExamples.runLs
                 = Spawn $"ls" (JArr []) $"/home/user") by (vm_compute; reflexivity).
  destruct (run_spawns_allowed_only Examples.exampleConfig None MoreExamples.runLs
              _ _ _ Hrun) as (_ & Hroot & Hin & _).
  split; [exact Hrun|]. split; [exact Hin|exact Hroot].
Defined.

End RunFacts.

(** ** Terminating sessions *)

Module SessionFacts.
Import Js JsFacts Sandbox Pty ConnectionFacts Sessions.

Lemma closeAll_same socks : forall st,
  objects (foldl (fun acc ws => closeSocket ws acc) st socks) = objects st /\
  terminalSessions (foldl (fun acc ws => closeSocket ws acc) st socks)
    = terminalSessions st.
Proof.
  induction socks as [|ws socks IH]; intros st; [done|]. cbn [foldl].
  by destruct (IH (closeSocket ws st)) as [-> ->].
Qed.

Lemma terminate_state id session st :
  objects (terminate id session st).1 = objects st /\
  terminalSessions (terminate id session st).1 = delete id (terminalSessions st).
Proof.
  unfold terminate, unregister. cbn [fst objects terminalSessions].
  destruct (closeAll_same (s_sockets session) st) as [-> ->]. done.
Qed.

Lemma lookup_foldl_delete (ids : list str) : forall (m : gmap str nat) k,
  foldl (fun acc id => delete id acc) m ids !! k =
    if bool_decide (k ∈ ids) then None else m !! k.
Proof.
  induction ids as [|id ids IH]; intros m k; [done|]. cbn [foldl]. rewrite IH.
  destruct (decide (k = id)) as [->|Hne].
  - rewrite (bool_decide_true (id ∈ id :: ids)) by left.
    rewrite lookup_delete_eq. by destruct (bool_decide _).
  - rewrite lookup_delete_ne by done.
    destruct (bool_decide (k ∈ ids)) eqn:E.
    + apply bool_decide_eq_true in E. rewrite bool_decide_true; [done|by right].
    + apply bool_decide_eq_false in E. rewrite bool_decide_false; [done|].
      by intros [?|?]%elem_of_cons.
Qed.

Lemma getSession_Some st id s :
  getSession st id = Some s <->
  exists addr, terminalSessions st !! id = Some addr /\ objects st !! addr = Some s.
Proof.
  unfold getSession. destruct (terminalSessions st !! id) as [addr|]; cbn.
  - split; [by exists addr|]. by intros (a & [= <-] & ?).
  - split; [done|]. by intros (a & ? & _).
Qed.

(** The loop of [DELETE /api/sessions] over identifiers, each of which is
    registered and is met once. *)
Lemma foldl_terminateById ids : forall st effects,
  live st -> NoDup ids ->
  (forall id, id ∈ ids -> is_Some (terminalSessions st !! id)) ->
  let out := foldl terminateById (st, effects) ids in
  objects out.1 = objects st /\
  terminalSessions out.1 = foldl (fun acc id => delete id acc) (terminalSessions st) ids /\
  out.2 = effects ++ flat_map (effectsOf st) ids.
Proof.
  induction ids as [|id ids IH]; intros st effects Hlive Hnd Hreg.
  { cbn. by rewrite app_nil_r. }
  apply NoDup_cons in Hnd as [Hid Hnd]. cbn [foldl flat_map].
  destruct (Hreg id) as [addr Haddr]; [left|].
  destruct (Hlive id addr Haddr) as [s Hs].
  assert (Hget : getSession st id = Some s) by (apply getSession_Some; eauto).
  destruct (terminate id s st) as [st1 effs1] eqn:Hterm.
  assert (Hstep : terminateById (st, effects) id = (st1, effects ++ effs1)).
  { unfold terminateById. cbn [fst snd]. by rewrite Hget, Hterm. }
  rewrite Hstep.
  pose proof (terminate_state id s st) as [Hobj Htab]. rewrite Hterm in Hobj, Htab.
  cbn [fst] in Hobj, Htab.
  assert (Heffs : effs1 = effectsOf st id).
  { unfold effectsOf. rewrite Hget. unfold terminate in Hterm. by injection Hterm. }
  assert (Hlive1 : live st1).
  { intros i a Hi. rewrite Htab in Hi. rewrite Hobj.
    apply lookup_delete_Some in Hi as [_ Hi]. by eapply Hlive. }
  assert (Hreg1 : forall i, i ∈ ids -> is_Some (terminalSessions st1 !! i)).
  { intros i Hi. rewrite Htab, lookup_delete_ne; [apply Hreg; by right|].
    intros <-. done. }
  destruct (IH st1 (effects ++ effs1) Hlive1 Hnd Hreg1) as (H1 & H2 & H3).
  split; [by rewrite H1|]. split; [by rewrite H2, Htab|].
  rewrite H3, <- app_assoc, Heffs. f_equal. f_equal.
  (* the sessions still registered are those of [st] *)
  clear -Hid Hobj Htab. induction ids as [|i ids IH]; [done|]. cbn [flat_map].
  rewrite IH by (intros ?; apply Hid; by right). f_equal.
  unfold effectsOf, getSession. rewrite Htab, Hobj, lookup_delete_ne; [done|].
  intros <-. apply Hid. by left.
Qed.

Lemma selected_ids clientId st id :
  id ∈ (List.filter (selected clientId st) (map_to_list (terminalSessions st))).*1 <->
  exists addr, terminalSessions st !! id = Some addr /\
               selected clientId st (id, addr) = true.
Proof.
  rewrite list_elem_of_fmap. split.
  - intros ([i a] & -> & Hin). apply list_elem_of_In, filter_In in Hin as [Hin Hsel].
    apply list_elem_of_In, elem_of_map_to_list in Hin. by exists a.
  - intros (addr & Hreg & Hsel). exists (id, addr). split; [done|].
    apply list_elem_of_In, filter_In. split; [|done].
    by apply list_elem_of_In, elem_of_map_to_list.
Qed.

Lemma NoDup_filter_fst (f : str * nat -> bool) (l : list (str * nat)) :
  NoDup (l.*1) -> NoDup ((List.filter f l).*1).
Proof.
  induction l as [|x l IH]; [done|]. cbn [fmap list_fmap List.filter].
  intros [Hx Hl]%NoDup_cons. destruct (f x); [|by apply IH].
  cbn [fmap list_fmap]. apply NoDup_cons. split; [|by apply IH].
  intros ([i a] & Hi & Hin%list_elem_of_In%filter_In)%list_elem_of_fmap.
  apply Hx. apply list_elem_of_fmap. exists (i, a).
  split; [done|]. apply list_elem_of_In. tauto.
Qed.

(** X11.  [DELETE /api/sessions], on a registry of live sessions, takes
    out of the registry exactly the sessions its filter selects (all of
    them without [clientId], those of the client with it), leaves the
    others registered and every session object as it was, and kills a
    shell if and only if it is the shell of a selected session. *)
Theorem deleteSessions_removes_selected clientIdQuery st :
  live st ->
  let clientId := default [] clientIdQuery in
  let out := deleteSessions clientIdQuery st in
  status out.1 = 200 /\
  objects out.2.1 = objects st /\
  (forall id addr, terminalSessions st !! id = Some addr ->
     terminalSessions out.2.1 !! id =
       if selected clientId st (id, addr) then None else Some addr) /\
  (forall id, terminalSessions st !! id = None ->
     terminalSessions out.2.1 !! id = None) /\
  (forall shell,
     In (ShellKill shell) out.2.2 <->
     exists id addr s,
       terminalSessions st !! id = Some addr /\ objects st !! addr = Some s /\
       selected clientId st (id, addr) = true /\ s_shell s = shell).
Proof.
  intros Hlive clientId. unfold deleteSessions. fold clientId.
  set (ids := (List.filter (selected clientId st)
                 (map_to_list (terminalSessions st))).*1).
  cbn [fst snd].
  destruct (foldl_terminateById ids st [] Hlive) as (Hobj & Htab & Heff).
  { apply NoDup_filter_fst, NoDup_fst_map_to_list. }
  { intros id (addr & Hreg & _)%selected_ids. by eexists. }
  split; [done|]. split; [done|]. rewrite Htab. split; [|split].
  - intros id addr Hreg. rewrite lookup_foldl_delete, Hreg.
    destruct (selected clientId st (id, addr)) eqn:Hsel.
    + rewrite bool_decide_true; [done|]. apply selected_ids. by exists addr.
    + rewrite bool_decide_false; [done|].
      intros (addr' & Hreg' & Hsel')%selected_ids. congruence.
  - intros id Hreg. rewrite lookup_foldl_delete, Hreg. by destruct (bool_decide _).
  - intros shell. rewrite Heff. cbn [app]. rewrite in_flat_map. split.
    + intros (id & Hid & Hin). apply list_elem_of_In, selected_ids in Hid
        as (addr & Hreg & Hsel).
      destruct (Hlive id addr Hreg) as [s Hs].
      unfold effectsOf, getSession in Hin. rewrite Hreg in Hin. cbn in Hin.
      rewrite Hs in Hin. apply in_app_or in Hin as [Hin|Hin].
      * apply in_map_iff in Hin as (? & ? & _). done.
      * destruct Hin as [[= <-]|[]]. by exists id, addr, s.
    + intros (id & addr & s & Hreg & Hs & Hsel & <-). exists id. split.
      * apply list_elem_of_In, selected_ids. by exists addr.
      * unfold effectsOf, getSession. rewrite Hreg. cbn. rewrite Hs.
        apply in_or_app. right. by left.
Qed.

Lemma deleteSessions_removes_selected_witness :
  live Examples.aliceState /\
  terminalSessions (deleteSessions (Some $"alice") Examples.aliceState).2.1
    !! Examples.aliceId = None /\
  terminalSessions (deleteSessions (Some $"bob") Examples.aliceState).2.1
    !! Examples.aliceId = Some 0 /\
  (forall shell,
     In (ShellKill shell) (deleteSessions (Some $"bob") Examples.aliceState).2.2 ->
     False).
Proof.
  assert (Hreg : terminalSessions Examples.aliceState = {[ Examples.aliceId := 0 ]})
    by (vm_compute; reflexivity).
  assert (Hobj : objects Examples.aliceState !! 0 = Some MoreExamples.aliceSession)
    by reflexivity.
  assert (Hlive : live Examples.aliceState).
  { intros id addr. rewrite Hreg. intros [_ <-]%lookup_singleton_Some.
    rewrite Hobj. by eexists. }
  assert (Hat : terminalSessions Examples.aliceState !! Examples.aliceId = Some 0)
    by (rewrite Hreg; apply lookup_singleton_eq).
  split; [exact Hlive|].
  destruct (deleteSessions_removes_selected (Some $"alice") Examples.aliceState Hlive)
    as (_ & _ & Halice & _).
  destruct (deleteSessions_removes_selected (Some $"bob") Examples.aliceState Hlive)
    as (_ & _ & Hbob & _ & Hkill).
  split; [etransitivity; [exact (Halice _ _ Hat)|vm_compute; reflexivity]|].
  split; [etransitivity; [exact (Hbob _ _ Hat)|vm_compute; reflexivity]|].
  intros shell Hin.
  destruct (proj1 (Hkill shell) Hin) as (id & addr & s & Hid & _ & Hsel & _).
  rewrite Hreg in Hid. apply lookup_singleton_Some in Hid as [<- <-].
  vm_compute in Hsel. discriminate Hsel.
Defined.

End SessionFacts.

(** ** Sessions: termination, the sweep and the history *)

Module SessionTheorems.
Import Js JsFacts Sandbox Pty ConnectionFacts Sessions SessionFacts.

Section WithConfig.
Variable cfg : Config.


Lemma sentTo_frames ws (chunks : list str) (last : str) :
  sentTo ws (map (WsSend ws) chunks ++ [WsSend ws last]) = chunks ++ [last].
Proof.
  unfold sentTo. induction chunks as [|c chunks IH]; cbn; rewrite Nat.eqb_refl.
  - done.
  - f_equal. apply IH.
Qed.

(** X13.  What [GET /api/sessions/:id/history] returns is what a
    reconnect to the session replays: a connection that names a
    registered session, from inside the root and without a foreign
    [clientId], is sent the stored history cut into pieces of 1 to
    16384 characters, in order and complete, and then the session
    identifier. *)
Theorem history_is_what_reconnect_replays sid st ws req rnd spawn t session :
  getSession st sid = Some session ->
  sid <> [] -> sessionIdParam req = Some sid ->
  withinRoot cfg (requestedCwd cfg req) = true ->
  (let clientId := default [] (clientIdParam req) in
   clientId = [] \/ s_clientId session = [] \/ s_clientId session = clientId) ->
  field $"history" (sessionHistory sid st) = Some (JStr (s_history session)) /\
  exists chunks,
    sentTo ws (onConnection cfg ws req rnd spawn t st).2
      = chunks ++ [$"SESSION_ID:" ++ s_id session] /\
    concat chunks = s_history session /\
    Forall (fun c => 0 < length c <= chunkSize) chunks.
Proof.
  intros Hget Hsid Hreq Hroot Hclient.
  split; [unfold sessionHistory; by rewrite Hget|].
  apply getSession_Some in Hget as (addr & Hreg & Hobj).
  pose proof (onConnection_known cfg ws req rnd spawn t st addr session) as H.
  rewrite Hreq in H. cbn [default from_option id] in H.
  rewrite H by (done || by apply truthy_true). clear H.
  set (clientId := default [] (clientIdParam req)) in *.
  unfold reconnect.
  set (session1 := if truthy clientId && negb (truthy (s_clientId session))
                   then adoptClient clientId session else session).
  assert (H1 : s_history session1 = s_history session /\
               s_id session1 = s_id session)
    by (subst session1; by destruct (_ && _)).
  assert (Hpass : truthy clientId && truthy (s_clientId session1)
                  && negb (str_eqb (s_clientId session1) clientId) = false).
  { subst session1. clearbody clientId.
    destruct Hclient as [Hc|[Hnone|Hsame]].
    - by rewrite Hc.
    - rewrite Hnone. cbn [truthy negb]. rewrite andb_true_r.
      destruct (truthy clientId); [|done].
      cbn [adoptClient s_clientId andb]. by rewrite str_eqb_refl, andb_false_r.
    - apply str_eqb_eq in Hsame.
      destruct (truthy clientId && negb (truthy (s_clientId session)));
        cbn [adoptClient s_clientId];
        by rewrite ?str_eqb_refl, ?Hsame, ?andb_false_r. }
  rewrite Hpass. cbn [snd attach s_history s_id].
  destruct H1 as [Hh Hi]. rewrite Hh, Hi.
  destruct (truthy (s_history session)) eqn:Ht.
  - unfold sendWsTextInChunks. rewrite sentTo_frames. eexists. split; [done|].
    split; [apply chunksOf_concat; [apply chunkSize_pos|done]|].
    apply chunksOf_bounded, chunkSize_pos.
  - apply truthy_false in Ht. rewrite Ht. exists []. cbn.
    rewrite Nat.eqb_refl. by repeat split.
Qed.

End WithConfig.

Lemma inactive_spec now s :
  inactive now s = true <-> (DAY < now - s_lastActivity s)%Q.
Proof.
  unfold inactive. rewrite negb_true_iff. split.
  - intros H. apply Qnot_le_lt. intros Hle. apply Qle_bool_iff in Hle. congruence.
  - intros H. destruct (Qle_bool _ _) eqn:E; [|done].
    apply Qle_bool_iff in E. by apply Qlt_not_le in H.
Qed.

(** The sweep over entries, each of which is registered and is met
    once. *)
Lemma foldl_sweepEntry now (l : list (str * nat)) : forall st effects,
  let out := foldl (sweepEntry now) (st, effects) l in
  objects out.1 = objects st /\ readyState out.1 = readyState st /\
  terminalSessions out.1 =
    foldl (fun acc id => delete id acc) (terminalSessions st)
          (List.filter (reaped now st) l).*1 /\
  out.2 = effects ++
          omap (fun e : str * nat =>
                  s ← objects st !! e.2;
                  if inactive now s then Some (ShellKill (s_shell s)) else None) l.
Proof.
  induction l as [|[id addr] l IH]; intros st effects.
  { cbn. by rewrite app_nil_r. }
  cbn [foldl List.filter omap list_omap].
  unfold sweepEntry at 2 4 6 8. unfold reaped at 1. cbn [fst snd].
  destruct (objects st !! addr) as [s|] eqn:Hs; cbn [mbind option_bind];
    [|apply IH].
  destruct (inactive now s) eqn:Hin; [|apply IH].
  destruct (IH (unregister id st) (effects ++ [ShellKill (s_shell s)]))
    as (H1 & H2 & H3 & H4).
  cbn [unregister objects readyState terminalSessions] in *.
  split; [done|]. split; [done|]. split.
  - rewrite H3. cbn [fmap list_fmap foldl fst]. f_equal.
  - rewrite H4, <- app_assoc. done.
Qed.

Lemma reaped_ids now st id :
  id ∈ (List.filter (reaped now st) (map_to_list (terminalSessions st))).*1 <->
  exists addr, terminalSessions st !! id = Some addr /\
               reaped now st (id, addr) = true.
Proof.
  rewrite list_elem_of_fmap. split.
  - intros ([i a] & -> & Hin). apply list_elem_of_In, filter_In in Hin as [Hin Hsel].
    apply list_elem_of_In, elem_of_map_to_list in Hin. by exists a.
  - intros (addr & Hreg & Hsel). exists (id, addr). split; [done|].
    apply list_elem_of_In, filter_In. split; [|done].
    by apply list_elem_of_In, elem_of_map_to_list.
Qed.

(** X14.  The hourly sweep takes out of the registry exactly the
    sessions whose last activity lies more than 24 hours back, and kills
    exactly their shells; it closes no socket, and it leaves the other
    sessions registered and every session object as it was. *)
Theorem sweep_reaps_idle_sessions now st :
  let out := sweep now st in
  objects out.1 = objects st /\ readyState out.1 = readyState st /\
  (forall id addr s,
     terminalSessions st !! id = Some addr -> objects st !! addr = Some s ->
     ((DAY < now - s_lastActivity s)%Q -> terminalSessions out.1 !! id = None) /\
     ((now - s_lastActivity s <= DAY)%Q -> terminalSessions out.1 !! id = Some addr)) /\
  (forall id, terminalSessions st !! id = None ->
     terminalSessions out.1 !! id = None) /\
  (forall e, In e out.2 <->
     exists id addr s,
       terminalSessions st !! id = Some addr /\ objects st !! addr = Some s /\
       (DAY < now - s_lastActivity s)%Q /\ e = ShellKill (s_shell s)).
Proof.
  unfold sweep.
  destruct (foldl_sweepEntry now (map_to_list (terminalSessions st)) st [])
    as (Hobj & Hready & Htab & Heff).
  split; [done|]. split; [done|]. rewrite Htab, Heff. split; [|split].
  - intros id addr s Hreg Hs. rewrite lookup_foldl_delete, Hreg. split.
    + intros Hidle%inactive_spec. rewrite bool_decide_true; [done|].
      apply reaped_ids. exists addr. split; [done|]. unfold reaped. cbn. by rewrite Hs.
    + intros Hfresh. rewrite bool_decide_false; [done|].
      intros (addr' & Hreg' & Hr)%reaped_ids.
      assert (addr' = addr) as -> by congruence.
      unfold reaped in Hr. cbn in Hr. rewrite Hs in Hr.
      apply inactive_spec in Hr. by apply Qlt_not_le in Hr.
  - intros id Hreg. rewrite lookup_foldl_delete, Hreg. by destruct (bool_decide _).
  - intros e. cbn [app]. rewrite <- list_elem_of_In, list_elem_of_omap. split.
    + intros ([id addr] & Hin%elem_of_map_to_list & He). cbn [snd] in He.
      destruct (objects st !! addr) as [s|] eqn:Hs; [|done]. cbn in He.
      destruct (inactive now s) eqn:Hidle; [|done]. injection He as <-.
      exists id, addr, s. repeat split; [done..|by apply inactive_spec].
    + intros (id & addr & s & Hreg & Hs & Hidle%inactive_spec & ->).
      exists (id, addr). split; [by apply elem_of_map_to_list|].
      cbn [snd]. rewrite Hs. cbn. by rewrite Hidle.
Qed.


Lemma history_is_what_reconnect_replays_witness :
  getSession Examples.aliceState Examples.aliceId = Some MoreExamples.aliceSession /\
  field $"history" (sessionHistory Examples.aliceId Examples.aliceState)
    = Some (JStr $"alice$ ") /\
  exists chunks,
    sentTo 9 (onConnection Examples.exampleConfig 9
                (Examples.reconnectAs None (Some $"alice") Examples.aliceId)
                [] None 2 Examples.aliceState).2
      = chunks ++ [$"SESSION_ID:" ++ Examples.aliceId] /\
    concat chunks = $"alice$ ".
Proof.
  assert (Hsession : getSession Examples.aliceState Examples.aliceId
                     = Some MoreExamples.aliceSession) by (vm_compute; reflexivity).
  split; [exact Hsession|].
  destruct (history_is_what_reconnect_replays Examples.exampleConfig Examples.aliceId
              Examples.aliceState 9
              (Examples.reconnectAs None (Some $"alice") Examples.aliceId) [] None 2
              MoreExamples.aliceSession Hsession)
    as (Hhistory & chunks & Hsent & Hcat & _).
  - discriminate.
  - reflexivity.
  - vm_compute. reflexivity.
  - right. right. reflexivity.
  - split; [exact Hhistory|]. exists chunks. split; [exact Hsent|exact Hcat].
Defined.

Lemma sweep_reaps_idle_sessions_witness :
  terminalSessions (sweep (DAY + 2) Examples.aliceState).1 !! Examples.aliceId = None /\
  In (ShellKill 0) (sweep (DAY + 2) Examples.aliceState).2 /\
  terminalSessions (sweep DAY Examples.aliceState).1 !! Examples.aliceId = Some 0.
Proof.
  assert (Hat : terminalSessions Examples.aliceState !! Examples.aliceId = Some 0)
    by (vm_compute; reflexivity).
  assert (Hobj : objects Examples.aliceState !! 0 = Some MoreExamples.aliceSession)
    by reflexivity.
  destruct (sweep_reaps_idle_sessions (DAY + 2) Examples.aliceState)
    as (_ & _ & Hlate & _ & Hkill).
  destruct (sweep_reaps_idle_sessions DAY Examples.aliceState)
    as (_ & _ & Hearly & _).
  split; [|split].
  - apply (Hlate _ _ _ Hat Hobj). vm_compute. reflexivity.
  - apply Hkill. exists Examples.aliceId, 0, MoreExamples.aliceSession.
    split; [exact Hat|]. split; [exact Hobj|]. split; [|reflexivity].
    vm_compute. reflexivity.
  - apply (Hearly _ _ _ Hat Hobj). vm_compute. discriminate.
Defined.

End SessionTheorems.

(** ** Session identifiers *)

Module IdentifierFacts.
Import Js JsFacts Pty.

Lemma hexDigit_inj a b :
  (a < 16)%N -> (b < 16)%N -> hexDigit a = hexDigit b -> a = b.
Proof.
  intros Ha Hb H. unfold hexDigit in H.
  assert (Hnd : List.NoDup $"0123456789abcdef").
  { cbn [list_ascii_of_string].
    repeat (apply List.NoDup_cons;
            [cbn [In]; intros H'; repeat destruct H' as [H'|H']; done|]).
    apply List.NoDup_nil. }
  apply N2Nat.inj. eapply (proj1 (List.NoDup_nth _ "0"%char) Hnd); [| |exact H];
    change (length $"0123456789abcdef") with 16; lia.
Qed.

Lemma hexDigit_hex n : (n < 16)%N -> In (hexDigit n) $"0123456789abcdef".
Proof.
  intros Hn. unfold hexDigit. apply nth_In.
  change (length $"0123456789abcdef") with 16. lia.
Qed.

Lemma byte_bound b : (Byte.to_N b < 256)%N.
Proof. pose proof (Byte.to_N_bounded b). lia. Qed.

(** X15.  A session identifier has two characters for each random byte,
    all of them among [0123456789abcdef], and different random bytes
    give different identifiers. *)
Theorem generateSessionId_spec bytes :
  length (generateSessionId bytes) = 2 * length bytes /\
  Forall (fun c => In c $"0123456789abcdef") (generateSessionId bytes) /\
  (forall bytes', generateSessionId bytes = generateSessionId bytes' ->
                  bytes = bytes').
Proof.
  unfold generateSessionId. split; [|split].
  - induction bytes as [|b bytes IH]; [done|]. cbn [flat_map app length].
    rewrite IH. lia.
  - induction bytes as [|b bytes IH]; [constructor|]. cbn [flat_map app].
    pose proof (byte_bound b).
    constructor; [|constructor; [|done]]; apply hexDigit_hex.
    + apply N.Div0.div_lt_upper_bound. lia.
    + apply N.mod_lt. lia.
  - induction bytes as [|b bytes IH]; intros [|b' bytes']; cbn [flat_map app];
      [done..|].
    intros [= H1 H2 Hrest]. f_equal; [|by apply IH].
    pose proof (byte_bound b). pose proof (byte_bound b').
    apply hexDigit_inj in H1;
      [|apply N.Div0.div_lt_upper_bound; lia|apply N.Div0.div_lt_upper_bound; lia].
    apply hexDigit_inj in H2; [|apply N.mod_lt; lia|apply N.mod_lt; lia].
    assert (Hn : Byte.to_N b = Byte.to_N b').
    { rewrite (N.div_mod (Byte.to_N b) 16), (N.div_mod (Byte.to_N b') 16) by lia.
      by rewrite H1, H2. }
    pose proof (Byte.of_to_N b) as Hb. rewrite Hn, Byte.of_to_N in Hb.
    by injection Hb.
Qed.

End IdentifierFacts.

(** ** Command sets *)

Module CommandFacts.
Import Js JsFacts Commands.

(** [validateCommandNode] in the terms of the source: the depth is
    compared with 20, and the children of a folder are validated one
    level down, the counter going from one to the next. *)
Lemma validateCommandNode_eq node depth n :
  validateCommandNode node depth n =
    if negb (isObject node) then (Some $"node invalid", n)
    else if Nat.ltb 20 depth then (Some $"depth too deep", n)
    else
      let type := prop node $"type" in
      if negb (nonBlank (prop node $"id")) then (Some $"id invalid", n)
      else if negb (equals type $"folder") && negb (equals type $"command")
      then (Some $"type invalid", n)
      else if negb (nonBlank (prop node $"name")) then (Some $"name invalid", n)
      else
        let n1 := (n + 1)%N in
        if N.ltb MAX_NODES n1 then (Some $"too many nodes", n1)
        else if equals type $"folder" then
          match prop node $"children" with
          | Some (JArr children) => validateChildren children (S depth) n1
          | _ => (Some $"children invalid", n1)
          end
        else
          match prop node $"content" with
          | Some (JStr content) =>
              if N.ltb MAX_CONTENT (N.of_nat (length content))
              then (Some $"content too long", n1)
              else
                match prop node $"autoSend" with
                | None | Some (JBool _) => (None, n1)
                | Some _ => (Some $"autoSend invalid", n1)
                end
          | _ => (Some $"content invalid", n1)
          end.
Proof.
  unfold validateCommandNode.
  destruct (Nat.ltb 20 depth) eqn:Hd.
  - apply Nat.ltb_lt in Hd. replace (21 - depth) with 0 by lia.
    cbn [validateLevel]. by destruct (negb (isObject node)).
  - apply Nat.ltb_ge in Hd. replace (21 - depth) with (S (21 - S depth)) by lia.
    cbn [validateLevel].
    destruct (negb (isObject node)); [done|].
    destruct (negb (nonBlank (prop node $"id"))); [done|].
    destruct (negb (equals (prop node $"type") $"folder") &&
              negb (equals (prop node $"type") $"command")); [done|].
    destruct (negb (nonBlank (prop node $"name"))); [done|].
    cbv zeta. destruct (N.ltb MAX_NODES (n + 1)); [done|].
    destruct (equals (prop node $"type") $"folder"); [|done].
    destruct (prop node $"children") as [[| | | |children|]|]; try done.
    generalize (n + 1)%N. induction children as [|child rest IH]; intros k; [done|].
    cbn [validateChildren]. unfold validateCommandNode at 1.
    destruct (validateLevel (21 - S depth) child k) as [[e|] k']; [done|].
    apply IH.
Qed.

Lemma equals_command_not_folder v :
  equals v $"command" = true -> equals v $"folder" = false.
Proof.
  destruct v as [[| | |s| |]|]; try done. cbn [equals].
  intros ->%str_eqb_eq. done.
Qed.

Lemma N_ltb_false a b : N.ltb a b = false <-> (b <= a)%N.
Proof. apply N.ltb_ge. Qed.

(** The loop over the children, given what holds of each child. *)
Lemma validateChildren_spec depth children :
  (forall node n n',
     validateCommandNode node depth n = (None, n') <->
     exists size, Tree depth node size /\ n' = (n + size)%N /\ (n' <= MAX_NODES)%N) ->
  forall n n', (n <= MAX_NODES)%N ->
    validateChildren children depth n = (None, n') <->
    exists size, Forest depth children size /\ n' = (n + size)%N /\
                 (n' <= MAX_NODES)%N.
Proof.
  intros Hnode. induction children as [|child rest IH]; intros n n' Hn.
  - cbn [validateChildren]. split.
    + intros [= <-]. exists 0%N. split; [constructor|]. split; [lia|done].
    + intros (size & Hf & -> & _). inversion Hf; subst. f_equal. lia.
  - cbn [validateChildren]. split.
    + destruct (validateCommandNode child depth n) as [[e|] k] eqn:Hc; [done|].
      apply Hnode in Hc as (s1 & Ht & -> & Hk).
      intros (s2 & Hf & -> & Hn')%IH; [|done].
      exists (s1 + s2)%N. split; [by constructor|]. split; [lia|done].
    + intros (size & Hf & -> & Hn'). inversion Hf as [|? ? s1 ? s2 Ht Hrest]; subst.
      assert (Hc : validateCommandNode child depth n = (None, (n + s1)%N)).
      { apply Hnode. exists s1. split; [done|]. split; [done|lia]. }
      rewrite Hc. apply IH; [lia|]. exists s2. split; [done|]. split; [lia|lia].
Qed.

Lemma validateCommandNode_spec_at room : forall depth node n n',
  room = 21 - depth ->
  validateCommandNode node depth n = (None, n') <->
  exists size, Tree depth node size /\ n' = (n + size)%N /\ (n' <= MAX_NODES)%N.
Proof.
  induction room as [|room IH]; intros depth node n n' Hroom;
    rewrite validateCommandNode_eq.
  { assert (Nat.ltb 20 depth = true) as -> by (apply Nat.ltb_lt; lia).
    split; [by destruct (negb (isObject node))|].
    intros (size & Ht & _). inversion Ht; lia. }
  assert (Nat.ltb 20 depth = false) as -> by (apply Nat.ltb_ge; lia).
  assert (Hdepth : depth <= 20) by lia.
  pose proof (validateChildren_spec (S depth)) as Hchildren.
  assert (Hnext : forall node n n',
     validateCommandNode node (S depth) n = (None, n') <->
     exists size, Tree (S depth) node size /\ n' = (n + size)%N /\
                  (n' <= MAX_NODES)%N) by (intros; apply IH; lia).
  cbv zeta. split.
  - destruct (isObject node) eqn:Hobj; cbn [negb]; [|done].
    destruct (nonBlank (prop node $"id")) eqn:Hid; cbn [negb]; [|done].
    destruct (equals (prop node $"type") $"folder") eqn:Hfolder; cbn [negb andb].
    + destruct (nonBlank (prop node $"name")) eqn:Hname; cbn [negb]; [|done].
      destruct (N.ltb MAX_NODES (n + 1)) eqn:Hcount; [done|].
      apply N.ltb_ge in Hcount.
      destruct (prop node $"children") as [[| | | |children|]|] eqn:Hch; try done.
      intros (size & Hf & -> & Hn')%Hchildren; [|done|done].
      exists (1 + size)%N. split; [|split; [lia|done]].
      by apply (tree_folder depth node children size).
    + destruct (equals (prop node $"type") $"command") eqn:Hcommand; cbn [negb];
        [|done].
      destruct (nonBlank (prop node $"name")) eqn:Hname; cbn [negb]; [|done].
      destruct (N.ltb MAX_NODES (n + 1)) eqn:Hcount; [done|].
      apply N.ltb_ge in Hcount.
      destruct (prop node $"content") as [[| | |content| |]|] eqn:Hcontent; try done.
      destruct (N.ltb MAX_CONTENT (N.of_nat (length content))) eqn:Hlen; [done|].
      apply N.ltb_ge in Hlen.
      destruct (prop node $"autoSend") as [[|b| | | |]|] eqn:Hauto; try done;
        intros [= <-]; exists 1%N; (split; [|by split]);
        apply tree_command; [done| |done|];
        (repeat split; [done..|by exists content|]); [right; by exists b|by left].
  - intros (size & Ht & -> & Hn').
    inversion Ht as [? ? _ Hc|? ? children size' _ Hf Hforest]; subst.
    + destruct Hc as (Hobj & Hid & Hname & Htype & (content & Hcontent & Hlen) & Hauto).
      rewrite Hobj, Hid, Hname, Htype, (equals_command_not_folder _ Htype).
      cbn [negb andb].
      assert (N.ltb MAX_NODES (n + 1) = false) as -> by (apply N.ltb_ge; lia).
      rewrite Hcontent.
      assert (N.ltb MAX_CONTENT (N.of_nat (length content)) = false) as ->
        by by apply N.ltb_ge.
      by destruct Hauto as [->|[b ->]].
    + destruct Hf as (Hobj & Hid & Hname & Htype & Hch).
      rewrite Hobj, Hid, Hname, Htype. cbn [negb andb].
      assert (N.ltb MAX_NODES (n + 1) = false) as -> by (apply N.ltb_ge; lia).
      rewrite Hch. apply Hchildren; [done|lia|].
      exists size'. split; [done|]. split; [lia|lia].
Qed.

(** X16.  [validateCommandNode] accepts a value exactly when it is a tree
    of command and folder nodes (each an object with a non-blank [id] and
    [name]; a command with a string [content] of at most 20000
    characters and [autoSend] absent or boolean; a folder with an array
    of children) that goes no deeper than depth 20 and whose nodes, added
    to the count so far, do not exceed 5000; it then leaves the count
    raised by the number of nodes. *)
Theorem validateCommandNode_accepts_trees node depth n n' :
  validateCommandNode node depth n = (None, n') <->
  exists size, Tree depth node size /\ n' = (n + size)%N /\ (n' <= MAX_NODES)%N.
Proof. by apply (validateCommandNode_spec_at (21 - depth)). Qed.

End CommandFacts.

(** ** The commands of the git endpoints *)

Module GitCommandFacts.
Import Js JsFacts Sandbox Git GitFacts ResetFacts GitCommands.

Section Composition.
Variable P : str * list str -> Prop.

Lemma between_refl w : between P w w.
Proof. exists []. by rewrite app_nil_r. Qed.

Lemma between_trans w1 w2 w3 :
  between P w1 w2 -> between P w2 w3 -> between P w1 w3.
Proof.
  intros [c1 [H1 F1]] [c2 [H2 F2]]. exists (c1 ++ c2). split.
  - by rewrite H2, H1, app_assoc.
  - by apply Forall_app.
Qed.

Lemma Only_ret {A} (a : A) : Only P (mret a).
Proof. intros w. apply between_refl. Qed.

Lemma Only_bind {A B} (m : M A) (k : A -> M B) :
  Only P m -> (forall a, Only P (k a)) -> Only P (m ≫= k).
Proof.
  intros Hm Hk w. unfold mbind, M_bind. specialize (Hm w).
  destruct (m w) as [a w1]. eapply between_trans; [exact Hm|apply Hk].
Qed.

Lemma Only_getFs : Only P getFs.
Proof. intros w. apply between_refl. Qed.

Lemma Only_git tool args : P ($"git", args) -> Only P (git tool args).
Proof.
  intros H w. rewrite git_call. exists [($"git", args)].
  split; [done|]. by constructor.
Qed.
End Composition.

(** One step in showing what a handler spawns. *)
Ltac only_step :=
  lazymatch goal with
  | |- Only _ (mret _) => apply Only_ret
  | |- Only _ (_ ≫= _) => apply Only_bind; [|intros ?]
  | |- Only _ (git _ _) => apply Only_git
  | |- Only _ getFs => apply Only_getFs
  | |- Only _ (if ?b then _ else _) => destruct b
  | |- Only _ (match ?x with _ => _ end) => destruct x
  end.

Section WithServer.
Variable cfg : Config.
Variable tool : Tool.

Lemma detectGitInfo_inspects cwd : Only Inspects (detectGitInfo tool cwd).
Proof. unfold detectGitInfo. repeat only_step; constructor. Qed.

Lemma detectUpstream_inspects cwd : Only Inspects (detectUpstream tool cwd).
Proof. unfold detectUpstream. repeat only_step; constructor. Qed.

Lemma revParse_inspects cwd name : Only Inspects (revParse tool cwd name).
Proof. unfold revParse. repeat only_step; constructor. Qed.

Lemma upstreamHeadOf_inspects cwd up : Only Inspects (upstreamHeadOf tool cwd up).
Proof.
  unfold upstreamHeadOf. destruct up; [apply revParse_inspects|apply Only_ret].
Qed.

Lemma commitsFailed_inspects cwd message stderr :
  Only Inspects (commitsFailed tool cwd message stderr).
Proof.
  unfold commitsFailed.
  destruct (noCommitsYet _); [|apply Only_ret].
  apply Only_bind; [apply detectGitInfo_inspects|intros info].
  apply Only_bind;
    [destruct (isRepo info); [apply detectUpstream_inspects|apply Only_ret]|
     intros up].
  apply Only_bind; [apply upstreamHeadOf_inspects|intros h]. apply Only_ret.
Qed.

(** X17.  [GET /api/git/info] and [GET /api/git/commits] run git only
    to inspect the repository: [--version], [rev-parse], [rev-list] and
    [log]; and a log is asked for a number of commits between 1 and
    200, whatever the [limit] of the request. *)
Theorem info_and_commits_only_inspect req w :
  between Inspects w (gitInfo cfg tool req w).2 /\
  between Inspects w (gitCommits cfg tool req w).2.
Proof.
  split.
  - revert w. change (Only Inspects (gitInfo cfg tool req)). unfold gitInfo.
    destruct (negb (c_ok _)); [apply Only_ret|].
    apply Only_bind; [apply detectGitInfo_inspects|intros info]. apply Only_ret.
  - revert w. change (Only Inspects (gitCommits cfg tool req)). unfold gitCommits.
    destruct (negb (c_ok _)); [apply Only_ret|].
    set (cwd := default [] (c_cwd (resolveCwdFromReq cfg req))).
    set (limit := Z.min 200 (Z.max 1 (parseIntOr (default [] (queryLimit req)) 50))).
    apply Only_bind; [apply detectGitInfo_inspects|intros info].
    destruct (negb (gitAvailable info)); [apply Only_ret|].
    destruct (negb (isRepo info)); [apply Only_ret|].
    apply Only_bind; [apply detectUpstream_inspects|intros up].
    apply Only_bind; [apply upstreamHeadOf_inspects|intros h].
    apply Only_bind; [apply Only_git; apply inspects_log; lia|intros lg].
    destruct lg as [out err|message out stderr];
      [|apply commitsFailed_inspects].
    destruct up as [u|]; [|apply Only_ret].
    apply Only_bind; [apply Only_git; constructor|intros rl].
    destruct rl; [apply Only_ret|apply commitsFailed_inspects].
Qed.

End WithServer.
End GitCommandFacts.

(** ** The guards of revert and init *)

Module GitGuardFacts.
Import Js JsFacts Sandbox Git GitFacts ResetFacts GitCommands GitCommandFacts.

Section WithServer.
Variable cfg : Config.
Variable tool : Tool.

Lemma between_snoc P w w1 w2 cmds :
  between P w w1 -> spawned w2 = spawned w1 ++ cmds -> Forall P cmds ->
  between P w w2.
Proof.
  intros H1 H2 H3. eapply between_trans; [exact H1|]. by exists cmds.
Qed.

Lemma detectGitInfo_no_revert cwd :
  Only (quiet $"revert") (detectGitInfo tool cwd).
Proof. unfold detectGitInfo. repeat only_step; reflexivity. Qed.

Lemma detectGitInfo_no_init cwd :
  Only (quiet $"init") (detectGitInfo tool cwd).
Proof. unfold detectGitInfo. repeat only_step; reflexivity. Qed.

(** The answer of one git call, and the world it leaves. *)
Lemma git_run args w :
  exists w', git tool args w = (answer tool args (fs w), w') /\
             spawned w' = spawned w ++ [($"git", args)].
Proof. rewrite git_call. by eexists. Qed.

(** [git revert] is spawned only after every check has passed. *)
Lemma gitRevert_checks req w :
  let cwd := default [] (c_cwd (resolveCwdFromReq cfg req)) in
  let commit := trim (default [] (bodyCommit req)) in
  let out := gitRevert cfg tool req w in
  (status out.1 <> 200 /\ between (quiet $"revert") w out.2) \/
  exists s1 s2 s3 s4,
    commitExists tool cwd commit s1 = true /\
    ancestorOf tool cwd commit $"HEAD" s2 = true /\
    (exists statusOut, statusOf tool cwd s3 = Some statusOut /\
                       hasTrackedChanges statusOut = false) /\
    (forall parentsOut, parentsOf tool cwd commit s4 = Some parentsOut ->
                        parentCount parentsOut <= 1).
Proof.
  intros cwd commit. unfold gitRevert. fold cwd commit.
  destruct (negb (c_ok _)); [left; split; [done|apply between_refl]|].
  destruct (negb (truthy commit)); [left; split; [done|apply between_refl]|].
  unfold_monad.
  pose proof (detectGitInfo_no_revert cwd w) as Q0.
  destruct (detectGitInfo tool cwd w) as [info w0]. cbn [snd] in Q0.
  destruct (negb (gitAvailable info)); [left; by split|].
  destruct (negb (isRepo info)); [left; by split|].
  (* cat-file *)
  destruct (git_run [$"-C"; cwd; $"cat-file"; $"-e"; commit ++ $"^{commit}"] w0)
    as (w1 & -> & S1).
  assert (Q1 : between (quiet $"revert") w w1)
    by (eapply between_snoc; [exact Q0|exact S1|by repeat constructor]).
  destruct (answer tool _ (fs w0)) as [o1 e1|m1 o1 e1] eqn:A1;
    [|left; by split].
  (* reachable from HEAD *)
  unfold isAncestor. unfold_monad.
  destruct (git_run [$"-C"; cwd; $"merge-base"; $"--is-ancestor"; commit; $"HEAD"] w1)
    as (w2 & -> & S2).
  assert (Q2 : between (quiet $"revert") w w2)
    by (eapply between_snoc; [exact Q1|exact S2|by repeat constructor]).
  destruct (answer tool _ (fs w1)) as [o2 e2|m2 o2 e2] eqn:A2;
    cbn [negb]; [|left; by split].
  (* status *)
  destruct (git_run [$"-C"; cwd; $"status"; $"--porcelain"] w2) as (w3 & -> & S3).
  assert (Q3 : between (quiet $"revert") w w3)
    by (eapply between_snoc; [exact Q2|exact S3|by repeat constructor]).
  destruct (answer tool _ (fs w2)) as [statusOut e3|m3 o3 e3] eqn:A3;
    [|left; by split].
  fold (hasTrackedChanges statusOut).
  destruct (hasTrackedChanges statusOut) eqn:Hdirty; [left; by split|].
  (* parents *)
  destruct (git_run [$"-C"; cwd; $"rev-list"; $"--parents"; $"-n"; $"1"; commit] w3)
    as (w4 & -> & S4).
  assert (Q4 : between (quiet $"revert") w w4)
    by (eapply between_snoc; [exact Q3|exact S4|by repeat constructor]).
  destruct (Nat.ltb 1 _) eqn:Hmerge; [left; by split|].
  right. exists (fs w0), (fs w1), (fs w2), (fs w3).
  unfold commitExists, ancestorOf, statusOf, parentsOf.
  rewrite A1, A2, A3. repeat split; [by exists statusOut|].
  intros parentsOut Hp. apply Nat.ltb_ge in Hmerge.
  destruct (answer tool _ (fs w3)) as [o4 e4|m4 o4 e4]; [|done].
  injection Hp as <-. exact Hmerge.
Qed.

(** X18.  [POST /api/git/revert] is refused, and no [git revert] is
    run, when the commit is not a commit object, when it is not
    reachable from [HEAD], when [git status --porcelain] fails or
    lists a line that is not an untracked file, and when the commit
    has more than one parent. *)
Theorem gitRevert_refuses_unsafe_states req w :
  let cwd := default [] (c_cwd (resolveCwdFromReq cfg req)) in
  let commit := trim (default [] (bodyCommit req)) in
  let refusedRevert :=
    status (gitRevert cfg tool req w).1 <> 200 /\
    between (quiet $"revert") w (gitRevert cfg tool req w).2 in
  ((forall store, commitExists tool cwd commit store = false) -> refusedRevert) /\
  ((forall store, ancestorOf tool cwd commit $"HEAD" store = false) ->
   refusedRevert) /\
  ((forall store, match statusOf tool cwd store with
                  | Some statusOut => hasTrackedChanges statusOut = true
                  | None => True
                  end) -> refusedRevert) /\
  ((forall store, exists parentsOut,
      parentsOf tool cwd commit store = Some parentsOut /\
      1 < parentCount parentsOut) -> refusedRevert).
Proof.
  intros cwd commit refusedRevert.
  destruct (gitRevert_checks req w)
    as [Hr|(s1 & s2 & s3 & s4 & Hc & Ha & (statusOut & Hs & Hclean) & Hp)];
    [repeat split; intros; apply Hr|].
  fold cwd commit in Hc, Ha, Hs, Hp.
  split; [|split; [|split]].
  - intros H. by rewrite H in Hc.
  - intros H. by rewrite H in Ha.
  - intros H. specialize (H s3). rewrite Hs in H. congruence.
  - intros H. destruct (H s4) as (parentsOut & Hpo & Hmany).
    specialize (Hp _ Hpo). lia.
Qed.

(** X19.  [POST /api/git/init] runs nothing at all, and answers 400,
    when the working directory is not a directory of the store; and it
    does not run [git init] when git is missing or when git reports a
    work tree there. *)
Theorem gitInit_runs_init_on_fresh_directories_only req w :
  let cwd := default [] (c_cwd (resolveCwdFromReq cfg req)) in
  let out := gitInit cfg tool req w in
  (c_ok (resolveCwdFromReq cfg req) = true ->
   fs w !! cwd <> Some Fs.Dir -> status out.1 = 400 /\ out.2 = w) /\
  ((forall store, gitWorks tool store = false) ->
   status out.1 <> 200 /\ between (quiet $"init") w out.2) /\
  ((forall store, gitWorks tool store = true /\
                  insideWorkTree tool cwd store = true) ->
   between (quiet $"init") w out.2 /\
   (status out.1 = 200 -> field $"already" out.1 = Some (JBool true))).
Proof.
  intros cwd. unfold gitInit. fold cwd.
  destruct (c_ok (resolveCwdFromReq cfg req)); cbn [negb].
  2:{ split; [done|]. split; intros _; (split; [done|apply between_refl])
        || (split; [apply between_refl|done]). }
  unfold_monad. cbn [fs]. unfold Fs.statSync.
  destruct (fs w !! cwd) as [[c m|]|] eqn:Hcwd; cbn [Fs.isDirectory negb fst snd].
  1,3: split; [done|]; split; intros _; (split; [done|apply between_refl])
         || (split; [apply between_refl|done]).
  split; [by intros _ H|].
  unfold detectGitInfo. unfold_monad.
  destruct (git_run [$"--version"] w) as (w1 & -> & S1).
  assert (Q1 : between (quiet $"init") w w1)
    by (eapply between_snoc; [apply between_refl|exact S1|by repeat constructor]).
  destruct (answer tool [$"--version"] (fs w)) as [o1 e1|m1 o1 e1] eqn:A1.
  2:{ cbn [gitAvailable negb noGit fst snd]. split; [by split|].
      intros H. destruct (H (fs w)) as [Hw _]. unfold gitWorks in Hw.
      by rewrite A1 in Hw. }
  split.
  { intros H. specialize (H (fs w)). unfold gitWorks in H. by rewrite A1 in H. }
  intros H.
  destruct (git_run [$"-C"; cwd; $"rev-parse"; $"--is-inside-work-tree"] w1)
    as (w2 & -> & S2).
  assert (Q2 : between (quiet $"init") w w2)
    by (eapply between_snoc; [exact Q1|exact S2|by repeat constructor]).
  destruct (H (fs w1)) as [_ Hin]. unfold insideWorkTree in Hin.
  destruct (answer tool _ (fs w1)) as [o2 e2|m2 o2 e2]; [|done].
  rewrite Hin. cbn [negb].
  destruct (git_run [$"-C"; cwd; $"rev-parse"; $"--show-toplevel"] w2)
    as (w3 & -> & S3).
  assert (Q3 : between (quiet $"init") w w3)
    by (eapply between_snoc; [exact Q2|exact S3|by repeat constructor]).
  destruct (git_run [$"-C"; cwd; $"rev-parse"; $"--abbrev-ref"; $"HEAD"] w3)
    as (w4 & -> & S4).
  assert (Q4 : between (quiet $"init") w w4)
    by (eapply between_snoc; [exact Q3|exact S4|by repeat constructor]).
  cbn [gitAvailable isRepo negb fst snd]. by split.
Qed.

End WithServer.
Lemma gitRevert_refuses_unsafe_states_witness :
  status (gitRevert Examples.exampleConfig MoreExamples.dirtyRepo
            MoreExamples.revertLast Examples.emptyWorld).1 = 400 /\
  between (quiet $"revert") Examples.emptyWorld
    (gitRevert Examples.exampleConfig MoreExamples.dirtyRepo
       MoreExamples.revertLast Examples.emptyWorld).2.
Proof.
  split; [vm_compute; reflexivity|].
  destruct (gitRevert_refuses_unsafe_states Examples.exampleConfig
              MoreExamples.dirtyRepo MoreExamples.revertLast Examples.emptyWorld)
    as (_ & _ & Hdirty & _).
  destruct Hdirty as [_ Hquiet]; [intros store; vm_compute; reflexivity|].
  exact Hquiet.
Defined.

Lemma gitInit_runs_init_on_fresh_directories_only_witness :
  (gitInit Examples.exampleConfig Examples.publishedRepo MoreExamples.revertLast
     Examples.notesWorld).2 = Examples.notesWorld /\
  between (quiet $"init") Examples.emptyWorld
    (gitInit Examples.exampleConfig Examples.deadTool MoreExamples.revertLast
       Examples.emptyWorld).2.
Proof.
  destruct (gitInit_runs_init_on_fresh_directories_only Examples.exampleConfig
              Examples.publishedRepo MoreExamples.revertLast Examples.notesWorld)
    as (Hmissing & _).
  destruct (gitInit_runs_init_on_fresh_directories_only Examples.exampleConfig
              Examples.deadTool MoreExamples.revertLast Examples.emptyWorld)
    as (_ & Hdead & _).
  split.
  - apply Hmissing; [vm_compute; reflexivity|vm_compute; discriminate].
  - apply Hdead. intros store. vm_compute. reflexivity.
Defined.

End GitGuardFacts.

(** ** Reading the log *)

Module LogFacts.
Import Js JsFacts Git GitCommands RunFacts.

Lemma split_one c x : ~ In c x -> split c x = [x].
Proof.
  induction x as [|a x IH]; intros Hx; [done|]. rewrite split_eq.
  assert (chr_eqb a c = false) as -> by (apply chr_eqb_neq; intros ->; apply Hx; by left).
  rewrite IH; [done|]. intros ?. apply Hx. by right.
Qed.

Lemma split_app c x rest :
  ~ In c x -> split c (x ++ c :: rest) = x :: split c rest.
Proof.
  induction x as [|a x IH]; intros Hx.
  - change ([] ++ c :: rest) with (c :: rest). by rewrite split_eq, chr_eqb_refl.
  - change ((a :: x) ++ c :: rest) with (a :: (x ++ c :: rest)). rewrite split_eq.
    assert (chr_eqb a c = false) as -> by (apply chr_eqb_neq; intros ->; apply Hx; by left).
    rewrite IH; [done|]. intros ?. apply Hx. by right.
Qed.

Lemma join_step c x y ys : join [c] (x :: y :: ys) = x ++ c :: join [c] (y :: ys).
Proof. reflexivity. Qed.

(** Splitting undoes joining pieces that are free of the separator. *)
Lemma split_join_pieces c x xs :
  Forall (fun p => ~ In c p) (x :: xs) -> split c (join [c] (x :: xs)) = x :: xs.
Proof.
  revert x. induction xs as [|y ys IH]; intros x Hc.
  - apply Forall_cons in Hc as [Hx _]. by apply split_one.
  - apply Forall_cons in Hc as [Hx Hrest].
    rewrite join_step, split_app by done. f_equal. by apply IH.
Qed.

Lemma In_join c p (xs : list str) :
  In c (join [p] xs) -> c = p \/ exists x, In x xs /\ In c x.
Proof.
  induction xs as [|x [|y ys] IH]; [done| |].
  - intros H. right. exists x. split; [by left|done].
  - rewrite join_step. intros [H|[->|H]]%in_app_or; [|by left|].
    + right. exists x. split; [by left|done].
    + destruct (IH H) as [?|(z & Hz & Hc)]; [by left|].
      right. exists z. split; [by right|done].
Qed.

Lemma trimEnd_fixed l c : isWhiteSpace c = false -> trimEnd (l ++ [c]) = l ++ [c].
Proof.
  intros Hc. unfold trimEnd. rewrite rev_app_distr. cbn [rev app trimStart].
  rewrite Hc. cbn [rev]. by rewrite rev_involutive.
Qed.

Lemma trimEnd_last l c : trimEnd (l ++ [c]) = l ++ [c] -> isWhiteSpace c = false.
Proof.
  unfold trimEnd. rewrite rev_app_distr. cbn [rev app trimStart].
  destruct (isWhiteSpace c); [|done]. intros H.
  apply (f_equal (@length _)) in H. rewrite length_rev, length_app in H.
  destruct (trimStart_spec (rev l)) as (ws & Hws & _).
  apply (f_equal (@length _)) in Hws. rewrite length_rev, length_app in Hws.
  cbn in H. lia.
Qed.

Lemma render_line c :
  printable c ->
  render c <> [] /\ ~ In LF (render c) /\ trimEnd (render c) = render c /\
  parseCommit (render c) = Some c.
Proof.
  intros [Hfields Hsubject]. unfold render.
  assert (Hfree : Forall (fun p => ~ In US p)
                    [hash c; shortHash c; author c; date c; subject c])
    by (eapply Forall_impl; [exact Hfields|by intros ? [_ ?]]).
  repeat split.
  - rewrite !join_step. by destruct (hash c).
  - intros [Hlf|(x & Hx & Hin)]%In_join; [done|].
    rewrite Forall_forall in Hfields. apply list_elem_of_In in Hx.
    by destruct (Hfields x Hx).
  - rewrite !join_step. cbn [join].
    destruct (subject c) as [|s0 s _] eqn:Hs using rev_ind.
    + rewrite !app_comm_cons, !app_assoc. by apply trimEnd_fixed.
    + apply trimEnd_last in Hsubject.
      rewrite !app_comm_cons, !app_assoc. by apply trimEnd_fixed.
  - unfold parseCommit. fold US. rewrite split_join_pieces by done. by destruct c.
Qed.

Lemma parse_lines cs :
  Forall printable cs ->
  omap parseCommit (filterBoolean (map trimEnd (map render cs))) = cs.
Proof.
  induction cs as [|c cs IH]; intros Hcs; [done|].
  apply Forall_cons in Hcs as [Hc Hcs].
  destruct (render_line c Hc) as (Hne & _ & Htrim & Hparse).
  cbn [map]. rewrite Htrim. unfold filterBoolean in *. cbn [List.filter].
  apply truthy_true in Hne. rewrite Hne.
  change (omap parseCommit (render c :: ?l))
    with (match parseCommit (render c) with
          | Some y => y :: omap parseCommit l
          | None => omap parseCommit l
          end).
  rewrite Hparse. f_equal. by apply IH.
Qed.

(** X20.  Reading the log back: for commits whose fields hold neither a
    line feed nor the field separator and whose subject does not end in
    white space, the commits that [GET /api/git/commits] reads off what
    [git log] prints for them are those commits, in order. *)
Theorem parseLog_renderLog cs :
  Forall printable cs -> parseLog (renderLog cs) = cs.
Proof.
  intros Hcs. unfold parseLog, renderLog.
  destruct cs as [|c cs]; [done|].
  assert (Hlines : Forall (fun p => ~ In LF p) (map render (c :: cs))).
  { apply Forall_forall. intros l (x & <- & Hx)%list_elem_of_In%in_map_iff.
    rewrite Forall_forall in Hcs. apply list_elem_of_In in Hx.
    by destruct (render_line x (Hcs x Hx)) as (_ & ? & _). }
  cbn [map] in Hlines. cbn [map]. rewrite split_join_pieces by done.
  by apply (parse_lines (c :: cs)).
Qed.

Lemma parseLog_renderLog_witness :
  Forall printable MoreExamples.twoCommits /\
  parseLog (renderLog MoreExamples.twoCommits) = MoreExamples.twoCommits.
Proof.
  assert (Hprintable : Forall printable MoreExamples.twoCommits).
  { repeat constructor; cbn [In]; intros H; repeat destruct H as [H|H];
      discriminate H || done. }
  split; [exact Hprintable|].
  exact (parseLog_renderLog MoreExamples.twoCommits Hprintable).
Defined.

End LogFacts.

(** ** Command sets on disk *)

Module CommandSetFacts.
Import Js JsFacts Commands CommandFacts CommandSets FileApi.

Section Store.
Variable cfg : Config.
Variable DATA_DIR : str.
Variable stringify : json -> str.
Variable parse : str -> option json.
Variable toStringUtf8 : list byte -> str.
Variable toISOString : Q -> str.

Local Abbreviation FILE := (COMMAND_SETS_FILE DATA_DIR).
Local Abbreviation read :=
  (readCommandSets DATA_DIR parse toStringUtf8 toISOString).
Local Abbreviation put :=
  (putCommandSets cfg DATA_DIR stringify toISOString).

Lemma emptyRoot_valid : (validateCommandNode emptyRoot 0 0).1 = None.
Proof. vm_compute. reflexivity. Qed.

Lemma truthy_root v : falsy v = false -> exists r, v = Some r.
Proof. destruct v as [r|]; [by exists r|done]. Qed.

(** X21.  [readCommandSets] never fails and never changes the world:
    whatever the file holds, it returns version 1 of a command set
    whose root passes [validateCommandNode]; the root is the empty
    folder [root] when there is no file, when the file cannot be read
    or parsed, and when what it holds is no object, has no root, or
    has a root that does not validate. *)
Theorem readCommandSets_returns_a_valid_tree w :
  (read w).2 = w /\
  exists updatedAt root,
    (read w).1 = commandSets updatedAt root /\
    (validateCommandNode root 0 0).1 = None /\
    (root = emptyRoot \/
     exists buf m parsed,
       fs w !! FILE = Some (Fs.File buf m) /\
       parse (toStringUtf8 buf) = Some parsed /\
       prop parsed $"root" = Some root).
Proof.
  assert (Hd : (defaultCommandSets toISOString w).2 = w /\
            exists updatedAt root,
              (defaultCommandSets toISOString w).1 = commandSets updatedAt root /\
              (validateCommandNode root 0 0).1 = None /\
              (root = emptyRoot \/
               exists buf m parsed,
                 fs w !! FILE = Some (Fs.File buf m) /\
                 parse (toStringUtf8 buf) = Some parsed /\
                 prop parsed $"root" = Some root)).
  { split; [done|]. exists (toISOString (now w)), emptyRoot.
    split; [done|]. split; [apply emptyRoot_valid|by left]. }
  unfold readCommandSets. unfold_monad. cbn [fs].
  unfold Fs.existsSync, Tree.readFileSync.
  destruct (fs w !! FILE) as [[buf m|]|] eqn:Hfile; cbn [negb]; [|done..].
  destruct (parse (toStringUtf8 buf)) as [parsed|] eqn:Hparse; [|done].
  destruct (isObject parsed); cbn [negb]; [|done].
  destruct (falsy (prop parsed $"root")) eqn:Hroot; [done|].
  destruct (truthy_root _ Hroot) as [root Hr]. rewrite Hr. cbn [from_option id].
  destruct (validateCommandNode root 0 0) as [[e|] n] eqn:Hvalid; cbn [fst];
    [done|].
  assert (Hgood : forall u, exists updatedAt root0,
            commandSets u root = commandSets updatedAt root0 /\
            (validateCommandNode root0 0 0).1 = None /\
            (root0 = emptyRoot \/
             exists buf0 m0 parsed0,
               Some (Fs.File buf m) = Some (Fs.File buf0 m0) /\
               parse (toStringUtf8 buf0) = Some parsed0 /\
               prop parsed0 $"root" = Some root0)).
  { intros u. exists u, root. split; [done|]. split; [by rewrite Hvalid|].
    right. by exists buf, m, parsed. }
  destruct (prop parsed $"updatedAt") as [[| | |u| |]|]; cbn [fst snd];
    (split; [done|apply Hgood]).
Qed.

Lemma prop_root u root : prop (commandSets u root) $"root" = Some root.
Proof. reflexivity. Qed.

Lemma prop_updatedAt u root :
  prop (commandSets u root) $"updatedAt" = Some (JStr u).
Proof. reflexivity. Qed.

Lemma tmpFile_ne : tmpFile cfg DATA_DIR <> FILE.
Proof.
  unfold tmpFile. intros H. rewrite <- (app_nil_r FILE) in H at 2.
  by apply app_inv_head in H.
Qed.

(** X22.  What [PUT /api/command-sets] saved is what
    [readCommandSets] returns afterwards, provided the JSON text
    written parses back to the data: the root of the request, version
    1 and the time of the write.  A request that is answered 400
    changes nothing. *)
Theorem saved_command_sets_are_read_back reqBody w :
  let out := put reqBody w in
  (status out.1 = 200 ->
   exists root data,
     data = commandSets (toISOString (now w)) root /\
     prop (default (JObj []) reqBody) $"root" = Some root /\
     (validateCommandNode root 0 0).1 = None /\
     field $"saved" out.1 = Some data /\
     fs out.2 !! FILE = Some (Fs.File (utf8 (stringify data)) (now w)) /\
     fs out.2 !! tmpFile cfg DATA_DIR = None /\
     (parse (toStringUtf8 (utf8 (stringify data))) = Some data ->
      read out.2 = (data, out.2))) /\
  (status out.1 = 400 -> out.2 = w).
Proof.
  unfold putCommandSets.
  set (body := if falsy reqBody then JObj [] else default (JObj []) reqBody).
  destruct (isObject body) eqn:Hobj; cbn [negb]; [|by split].
  destruct (falsy (prop body $"root")) eqn:Hroot; [by split|].
  destruct (truthy_root _ Hroot) as [root Hr]. rewrite Hr. cbn [from_option id].
  assert (Hbody : body = default (JObj []) reqBody).
  { subst body. destruct (falsy reqBody); [|done]. by cbn in Hr. }
  destruct (validateCommandNode root 0 0) as [[e|] n] eqn:Hvalid; cbn [fst];
    [by split|].
  unfold writeCommandSets. unfold_monad. cbn [fs now spawned].
  destruct (Fs.mkdirSyncRecursive (fs w) DATA_DIR) as [[msg|] store1];
    cbn [fs now spawned fst snd]; [by split|].
  rewrite Hr. cbn [from_option id].
  set (data := commandSets (toISOString (now w)) root).
  unfold Fs.writeFileSync.
  assert (Hwritten : forall c,
    match Fs.renameSync (<[tmpFile cfg DATA_DIR := c]> store1)
            (tmpFile cfg DATA_DIR) FILE with
    | inl _ => True
    | inr store3 =>
        match c with
        | Fs.File bytes t =>
            store3 !! FILE = Some (Fs.File bytes t) /\
            store3 !! tmpFile cfg DATA_DIR = None
        | Fs.Dir => True
        end
    end).
  { intros c. unfold Fs.renameSync. rewrite lookup_insert_eq.
    destruct c as [bytes t|]; [|done].
    rewrite lookup_insert_ne by apply tmpFile_ne.
    destruct (store1 !! FILE) as [[c' m'|]|]; [|done|];
      (split; [apply lookup_insert_eq|]);
      rewrite lookup_insert_ne by (intros E; by apply tmpFile_ne);
      apply lookup_delete_eq. }
  specialize (Hwritten (Fs.File (utf8 (stringify data)) (now w))).
  destruct (store1 !! tmpFile cfg DATA_DIR) as [[c m|]|];
    cbn [fs now spawned fst snd]; [|by split|].
  all: destruct (Fs.renameSync _ _ _) as [msg|store3];
    cbn [fs now spawned fst snd]; [by split|].
  all: destruct Hwritten as [Hfile Htmp].
  all: split; [intros _|done].
  all: exists root, data; rewrite <- Hbody.
  all: repeat split; try done; try (by rewrite Hvalid).
  all: intros Hcodec; unfold readCommandSets; unfold_monad; cbn [fs].
  all: unfold Fs.existsSync, Tree.readFileSync; rewrite Hfile; cbn [negb].
  all: rewrite Hcodec; subst data; cbn [isObject commandSets negb].
  all: rewrite prop_root, prop_updatedAt; cbn [from_option id].
  all: assert (falsy (Some root) = false) as -> by (by rewrite <- Hr).
  all: by rewrite Hvalid.
Qed.

End Store.
Lemma saved_command_sets_are_read_back_witness :
  let out := putCommandSets Examples.exampleConfig $"/srv/lan-shell/data"
               (fun _ => $"{}") (fun _ => $"1970-01-01T00:00:00.001Z")
               MoreExamples.saveRequest Examples.homeWorld in
  status out.1 = 200 /\
  fs out.2 !! $"/srv/lan-shell/data/command-sets.json"
    = Some (Fs.File (utf8 $"{}") 1) /\
  field $"saved" out.1
    = Some (commandSets $"1970-01-01T00:00:00.001Z" MoreExamples.oneCommand).
Proof.
  intros out.
  assert (Hok : status out.1 = 200) by (vm_compute; reflexivity).
  destruct (saved_command_sets_are_read_back Examples.exampleConfig
              $"/srv/lan-shell/data" (fun _ => $"{}") (fun _ => None)
              MoreExamples.asciiText (fun _ => $"1970-01-01T00:00:00.001Z")
              MoreExamples.saveRequest Examples.homeWorld) as [Hsaved _].
  destruct (Hsaved Hok) as (root & data & -> & Hroot & _ & Hfield & Hfile & _).
  injection Hroot as <-.
  split; [exact Hok|]. split; [exact Hfile|exact Hfield].
Defined.

End CommandSetFacts.

(** ** The flags of an extraction *)

Module ExtractFacts.
Import Js JsFacts Path PathFacts Shape ShapeFacts Sandbox Archive ArchiveApi.
Import GitCommands GitCommandFacts DirectoryFacts.

Lemma Only_exec P tool file args :
  P (file, args) -> Only P (execFileAsync tool file args).
Proof.
  intros H w. unfold execFileAsync. destruct (tool file args (fs w)) as [r fs'].
  exists [(file, args)]. split; [done|]. by constructor.
Qed.

Lemma Only_putFs P store : Only P (putFs store).
Proof. intros w. exists []. by rewrite app_nil_r. Qed.

Section WithServer.
Variable cfg : Config.
Variable tool : Tool.
Hypothesis absolute : isAbsolute (processCwd cfg) = true.

Lemma target_absolute raw :
  ok (resolvePathFromQuery cfg raw) = true ->
  exists r, default [] (target (resolvePathFromQuery cfg raw)) = sep :: r.
Proof using absolute.
  intros Hok. rewrite (resolvePathFromQuery_ok cfg _ Hok).
  cbn [default from_option id].
  destruct (resolve_proper (processCwd cfg) [ROOT cfg; default $"." raw] absolute)
    as (segs & _ & Hr).
  fold (Sandbox.resolve cfg [ROOT cfg; default $"." raw]) in Hr. rewrite Hr.
  by eexists.
Qed.

Lemma listCommand_keeps r type file args :
  listCommand (sep :: r) type = Some (file, args) -> keepsOldFiles (file, args).
Proof.
  unfold listCommand, keepsOldFiles.
  repeat (destruct (str_eqb type _); [intros [= <- <-]; cbn [snd In];
                                      split; intros [H|[H|[]]]; discriminate H|]).
  done.
Qed.

Lemma extractCommand_keeps type a d file args :
  extractCommand type (sep :: a) (sep :: d) false = Some (file, args) ->
  keepsOldFiles (file, args).
Proof.
  unfold extractCommand, keepsOldFiles.
  repeat (destruct (str_eqb type _);
          [intros [= <- <-]; cbn [snd In app];
           split; intros H; repeat destruct H as [H|H]; discriminate H || done|]).
  done.
Qed.

Lemma inspect_keeps body : Only keepsOldFiles (inspect cfg tool body).
Proof using absolute.
  unfold inspect.
  destruct (ok (resolvePathFromQuery cfg (path body))) eqn:Har; cbn [negb];
    [|apply Only_ret].
  destruct (ok (resolvePathFromQuery cfg (dest body))) eqn:Hdst; cbn [negb];
    [|apply Only_ret].
  destruct (target_absolute _ Har) as [a ->].
  destruct (detectArchiveType (sep :: a)) as [type|]; [|apply Only_ret].
  apply Only_bind; [apply Only_getFs|intros store].
  destruct (Fs.statSync store (sep :: a)) as [msg|st]; [apply Only_ret|].
  destruct (negb (Fs.isFile st)); [apply Only_ret|].
  apply Only_bind.
  - destruct (Fs.existsSync store _).
    + destruct (Fs.statSync store _) as [msg|st']; [apply Only_ret|].
      destruct (negb (Fs.isDirectory st')); apply Only_ret.
    + destruct (Fs.mkdirSyncRecursive store _) as [err store'].
      apply Only_bind; [apply Only_putFs|intros _]. apply Only_ret.
  - intros prepared. destruct prepared; [apply Only_ret|].
    apply Only_bind; [|intros listed; destruct listed; apply Only_ret].
    unfold listArchiveEntries.
    destruct (listCommand (sep :: a) type) as [[file args]|] eqn:Hlist;
      [|apply Only_ret].
    apply Only_bind; [|intros r; destruct r; apply Only_ret].
    apply Only_exec. by eapply listCommand_keeps.
Qed.

(** The paths of a listed archive are absolute. *)
Lemma inspect_listed body w l w1 :
  inspect cfg tool body w = (inr l, w1) ->
  exists a d, l_archive l = sep :: a /\ l_dest l = sep :: d.
Proof using absolute.
  unfold inspect.
  destruct (ok (resolvePathFromQuery cfg (path body))) eqn:Har; cbn [negb];
    [|done].
  destruct (ok (resolvePathFromQuery cfg (dest body))) eqn:Hdst; cbn [negb];
    [|done].
  destruct (target_absolute _ Har) as [a ->].
  destruct (target_absolute _ Hdst) as [d ->].
  destruct (detectArchiveType (sep :: a)) as [type|]; [|done].
  unfold_monad.
  destruct (Fs.statSync (fs w) (sep :: a)) as [msg|st]; [done|].
  destruct (negb (Fs.isFile st)); [done|].
  match goal with
  | |- (let '(a, w') := ?prep in _) = _ -> _ => destruct prep as [[msg|] w2]
  end; [done|].
  destruct (listArchiveEntries tool (sep :: a) type w2) as [[msg|entries] w3];
    [done|].
  intros [= <- <-]. by exists a, d.
Qed.

Lemma checkAndExtract_keeps l :
  (exists a d, l_archive l = sep :: a /\ l_dest l = sep :: d) ->
  Only keepsOldFiles (checkAndExtract tool false l).
Proof.
  intros (a & d & Ha & Hd). unfold checkAndExtract. rewrite Ha, Hd.
  destruct (Nat.eqb _ 0); [apply Only_ret|].
  destruct (N.ltb _ _); [apply Only_ret|].
  destruct (find _ _) as [[|c rest]|]; try apply Only_ret.
  all: apply Only_bind; [|intros r; destruct r; apply Only_ret].
  all: destruct (extractCommand (l_type l) (sep :: a) (sep :: d) false)
         as [[file args]|] eqn:Hx; [|apply Only_ret].
  all: apply Only_exec; by eapply extractCommand_keeps.
Qed.

(** X23.  Without [overwrite] in the body, [POST /api/archive/extract]
    hands [unzip] and [tar] neither [-o] nor [--overwrite]: no command
    it spawns carries a flag that replaces existing files. *)
Theorem extract_without_overwrite_keeps_files body w :
  overwrite body = false ->
  between keepsOldFiles w (archiveExtract cfg tool body w).2.
Proof using absolute.
  intros Hov. unfold archiveExtract. unfold_monad.
  pose proof (inspect_keeps body w) as H1.
  destruct (inspect cfg tool body w) as [[resp|l] w1] eqn:Hinspect; [done|].
  cbn [snd] in H1. rewrite Hov.
  eapply between_trans; [exact H1|].
  apply checkAndExtract_keeps. by eapply inspect_listed.
Qed.

End WithServer.
Lemma extract_without_overwrite_keeps_files_witness :
  status (archiveExtract Examples.exampleConfig MoreExamples.plainZip
            MoreExamples.extractKeeping Examples.archiveWorld).1 = 200 /\
  between keepsOldFiles Examples.archiveWorld
    (archiveExtract Examples.exampleConfig MoreExamples.plainZip
       MoreExamples.extractKeeping Examples.archiveWorld).2.
Proof.
  split; [vm_compute; reflexivity|].
  exact (extract_without_overwrite_keeps_files Examples.exampleConfig
           MoreExamples.plainZip eq_refl MoreExamples.extractKeeping
           Examples.archiveWorld eq_refl).
Defined.

End ExtractFacts.

(** ** The listeners of a socket *)

Module SocketFacts.
Import Js JsFacts Pty Sessions SessionFacts SessionTheorems Sockets.

Lemma parseIntOr_nonzero s d : d <> 0%Z -> parseIntOr s d <> 0%Z.
Proof.
  intros Hd. unfold parseIntOr. destruct (parseInt10 s) as [z|]; [|done].
  by destruct (Z.eqb_spec z 0).
Qed.

(** A session whose last activity is at most a day old survives the
    sweep. *)
Lemma sweep_keeps_active now st id addr s :
  terminalSessions st !! id = Some addr -> objects st !! addr = Some s ->
  (now - s_lastActivity s <= DAY)%Q ->
  terminalSessions (sweep now st).1 !! id = Some addr.
Proof.
  intros Hreg Hs Hfresh. unfold sweep.
  destruct (foldl_sweepEntry now (map_to_list (terminalSessions st)) st [])
    as (_ & _ & Htab & _).
  rewrite Htab, lookup_foldl_delete, Hreg. rewrite bool_decide_false; [done|].
  intros (addr' & Hreg' & Hr)%reaped_ids.
  assert (addr' = addr) as -> by congruence.
  unfold reaped in Hr. cbn in Hr. rewrite Hs in Hr.
  apply inactive_spec in Hr. by apply Qlt_not_le in Hr.
Qed.

Lemma setObject_at addr s' st s :
  objects st !! addr = Some s ->
  objects (setObject addr s' st) !! addr = Some s'.
Proof.
  intros Hs. cbn [setObject objects].
  apply list_lookup_insert_eq. by eapply lookup_lt_Some.
Qed.

Lemma setObject_elsewhere addr s' st a :
  a <> addr -> objects (setObject addr s' st) !! a = objects st !! a.
Proof. intros Ha. cbn [setObject objects]. by apply list_lookup_insert_ne. Qed.

(** X24.  Shell output and every message but [GET_SESSION_ID] count as
    activity: after either, at time [t], a sweep that runs no later than
    24 hours after [t] leaves the session registered.  [GET_SESSION_ID]
    leaves the state, and with it the time of the last activity, as it
    was. *)
Theorem activity_postpones_the_sweep cfg ws id addr s message data t now st :
  terminalSessions st !! id = Some addr ->
  objects st !! addr = Some s ->
  (now - t <= DAY)%Q ->
  terminalSessions (sweep now (onData cfg addr data t st).1).1 !! id = Some addr /\
  exists st' calls,
    onMessage ws (Some addr) message t st = Some (st', calls) /\
    if str_eqb message $"GET_SESSION_ID" then st' = st
    else terminalSessions (sweep now st').1 !! id = Some addr.
Proof.
  intros Hreg Hs Hfresh. split.
  - unfold onData. rewrite Hs. cbn [fst].
    eapply sweep_keeps_active; [exact Hreg|by eapply setObject_at|exact Hfresh].
  - unfold onMessage. cbn [mbind option_bind]. rewrite Hs. cbn [mbind option_bind].
    destruct (startsWith message $"RESIZE:") eqn:Hresize.
    + eexists _, _. split; [done|].
      destruct (str_eqb message $"GET_SESSION_ID") eqn:Hget.
      * apply str_eqb_eq in Hget. subst message. discriminate Hresize.
      * eapply sweep_keeps_active; [exact Hreg|by eapply setObject_at|exact Hfresh].
    + destruct (str_eqb message $"GET_SESSION_ID") eqn:Hget.
      * by eexists _, _.
      * eexists _, _. split; [done|].
        eapply sweep_keeps_active; [exact Hreg|by eapply setObject_at|exact Hfresh].
Qed.

(** X25.  A message changes neither the registry, nor the state of a
    socket, nor another session, nor the identifier, the shell, the
    owner, the history or the sockets of its own session.  A text that
    starts with [RESIZE:] is never written to the shell, and the shell is
    never resized to 0 columns or 0 rows; what is written to the shell is
    the message itself; what is sent back is the identifier, to the
    socket that asked with [GET_SESSION_ID]. *)
Theorem onMessage_spec ws addr s message t st :
  objects st !! addr = Some s ->
  exists st' calls s',
    onMessage ws (Some addr) message t st = Some (st', calls) /\
    terminalSessions st' = terminalSessions st /\
    readyState st' = readyState st /\
    (forall a, a <> addr -> objects st' !! a = objects st !! a) /\
    objects st' !! addr = Some s' /\
    (s_id s' = s_id s /\ s_shell s' = s_shell s /\ s_clientId s' = s_clientId s /\
     s_history s' = s_history s /\ s_sockets s' = s_sockets s) /\
    (forall shell input, In (ShellWrite shell input) calls ->
       shell = s_shell s /\ input = message /\
       startsWith message $"RESIZE:" = false /\ message <> $"GET_SESSION_ID") /\
    (forall shell c r, In (ShellResize shell c r) calls ->
       shell = s_shell s /\ startsWith message $"RESIZE:" = true /\
       c <> 0%Z /\ r <> 0%Z /\ s_cols s' = c /\ s_rows s' = r) /\
    (forall sock reply, In (Send sock reply) calls ->
       sock = ws /\ reply = $"SESSION_ID:" ++ s_id s /\ message = $"GET_SESSION_ID").
Proof.
  intros Hs. unfold onMessage. cbn [mbind option_bind]. rewrite Hs.
  cbn [mbind option_bind].
  destruct (startsWith message $"RESIZE:") eqn:Hresize;
    [|destruct (str_eqb message $"GET_SESSION_ID") eqn:Hget].
  - eexists _, _, _. split; [done|]. split; [done|]. split; [done|].
    split; [intros a Ha; by apply setObject_elsewhere|].
    split; [by eapply setObject_at|]. split; [done|].
    split; [intros shell input [H|[]]; discriminate H|].
    split; [|intros sock reply [H|[]]; discriminate H].
    intros shell c r [[= <- <- <-]|[]]. cbn [resized s_cols s_rows].
    split; [done|]. split; [done|].
    split; [by apply parseIntOr_nonzero|]. split; [by apply parseIntOr_nonzero|done].
  - apply str_eqb_eq in Hget.
    exists st, [Send ws ($"SESSION_ID:" ++ s_id s)], s.
    split; [done|]. split; [done|]. split; [done|]. split; [done|].
    split; [done|]. split; [done|].
    split; [intros shell input [H|[]]; discriminate H|].
    split; [intros shell c r [H|[]]; discriminate H|].
    by intros sock reply [[= <- <-]|[]].
  - eexists _, _, _. split; [done|]. split; [done|]. split; [done|].
    split; [intros a Ha; by apply setObject_elsewhere|].
    split; [by eapply setObject_at|]. split; [done|].
    split; [|split; [intros shell c r [H|[]]; discriminate H
                    |intros sock reply [H|[]]; discriminate H]].
    intros shell input [[= <- <-]|[]]. split; [done|]. split; [done|].
    split; [done|]. intros ->. by rewrite str_eqb_refl in Hget.
Qed.

Lemma sentTo_none ws data (socks : list nat) :
  ~ In ws socks -> sentTo ws (map (fun sock => WsSend sock data) socks) = [].
Proof.
  induction socks as [|sock socks IH]; [done|]. intros Hnot.
  cbn [map]. unfold sentTo. cbn [omap list_omap].
  destruct (Nat.eqb_spec sock ws) as [->|Hne].
  - exfalso. apply Hnot. by left.
  - apply IH. intros Hin. apply Hnot. by right.
Qed.

(** X26.  Closing a socket detaches it and nothing else: the session
    stays registered with its shell, and what the shell prints afterwards
    is no longer sent to that socket, is still sent to the other open
    sockets of the session, and is added to the history that a later
    reconnect replays. *)
Theorem closed_socket_is_detached cfg ws addr s data t st :
  objects st !! addr = Some s ->
  let st1 := onClose ws (Some addr) st in
  let out := onData cfg addr data t st1 in
  terminalSessions st1 = terminalSessions st /\
  terminalSessions out.1 = terminalSessions st /\
  sentTo ws out.2 = [] /\
  (forall sock, In sock (s_sockets s) -> sock <> ws -> isOpen st sock = true ->
                In (WsSend sock data) out.2) /\
  exists s',
    objects out.1 !! addr = Some s' /\
    s_id s' = s_id s /\ s_shell s' = s_shell s /\
    s_history s' =
      trimHistoryForReplay cfg (s_history s ++ filterHistoryForReplay data).
Proof.
  intros Hs st1 out. subst st1 out. unfold onClose. rewrite Hs.
  unfold onData. rewrite (setObject_at addr (detach ws s) st s Hs).
  cbn [fst snd detach s_sockets s_history s_id s_shell].
  split; [done|]. split; [done|]. split; [|split].
  - apply sentTo_none. intros [[_ Hne]%filter_In _]%filter_In.
    by rewrite Nat.eqb_refl in Hne.
  - intros sock Hin Hne Hopen. apply in_map_iff. exists sock. split; [done|].
    apply filter_In. split; [|exact Hopen].
    apply filter_In. split; [done|]. by apply negb_true_iff, Nat.eqb_neq.
  - eexists. split; [|split; [|split]].
    + apply setObject_at with (s := detach ws s). by eapply setObject_at.
    + done.
    + done.
    + done.
Qed.

Lemma activity_postpones_the_sweep_witness :
  terminalSessions (sweep (DAY + 5) Examples.aliceState).1 !! Examples.aliceId = None /\
  terminalSessions
    (sweep (DAY + 5) (onData Examples.exampleConfig 0 $"done" 5 Examples.aliceState).1).1
    !! Examples.aliceId = Some 0.
Proof.
  split; [vm_compute; reflexivity|].
  destruct (activity_postpones_the_sweep Examples.exampleConfig 1 Examples.aliceId 0
              MoreExamples.aliceSession $"ls" $"done" 5 (DAY + 5) Examples.aliceState)
    as [Hdata _]; [vm_compute; reflexivity|reflexivity|vm_compute; discriminate|].
  exact Hdata.
Defined.

Lemma onMessage_spec_witness :
  exists st',
    onMessage 1 (Some 0) $"RESIZE:100:30" 5 Examples.aliceState
      = Some (st', [ShellResize 0 100 30]) /\
    terminalSessions st' = terminalSessions Examples.aliceState.
Proof.
  destruct (onMessage_spec 1 0 MoreExamples.aliceSession $"RESIZE:100:30" 5
              Examples.aliceState) as (st' & calls & s' & Hrun & Hreg & _);
    [reflexivity|].
  assert (Hcalls : snd <$> onMessage 1 (Some 0) $"RESIZE:100:30" 5 Examples.aliceState
                   = Some [ShellResize 0 100 30]) by (vm_compute; reflexivity).
  rewrite Hrun in Hcalls. injection Hcalls as ->.
  exists st'. split; [exact Hrun|exact Hreg].
Defined.

Lemma closed_socket_is_detached_witness :
  sentTo 1 (onData Examples.exampleConfig 0 $"done" 5 Examples.aliceState).2
    = [$"done"] /\
  sentTo 1 (onData Examples.exampleConfig 0 $"done" 5
              (onClose 1 (Some 0) Examples.aliceState)).2 = [].
Proof.
  split; [vm_compute; reflexivity|].
  destruct (closed_socket_is_detached Examples.exampleConfig 1 0
              MoreExamples.aliceSession $"done" 5 Examples.aliceState)
    as (_ & _ & Hsent & _); [reflexivity|].
  exact Hsent.
Defined.

End SocketFacts.

(** ** The list of the sessions *)

Module SessionListFacts.
Import Js JsFacts Pty Sessions SessionFacts SessionList.

(** The identifiers listed are those that [DELETE /api/sessions]
    selects, in the same order. *)
Lemma listed_ids clientId st (l : list (str * nat)) :
  Forall (fun e => is_Some (objects st !! e.2)) l ->
  map e_id (if truthy clientId
            then List.filter (fun s => str_eqb (e_clientId s) clientId)
                             (omap (describe st) l)
            else omap (describe st) l)
  = (List.filter (selected clientId st) l).*1.
Proof.
  induction 1 as [|[id addr] l [s Hs] _ IH]; [by destruct (truthy clientId)|].
  cbn [snd] in Hs.
  assert (Hd : describe st (id, addr) =
               Some {| e_id := id; e_cwd := s_cwd s; e_created := s_created s;
                       e_lastActivity := s_lastActivity s; e_cols := s_cols s;
                       e_rows := s_rows s; e_clientId := s_clientId s |})
    by (unfold describe; cbn [fst snd]; by rewrite Hs).
  assert (Hsel : selected clientId st (id, addr) =
                 negb (truthy clientId) || str_eqb (s_clientId s) clientId)
    by (unfold selected; cbn [fst snd]; by rewrite Hs).
  cbn [omap list_omap List.filter]. rewrite Hd, Hsel.
  destruct (truthy clientId); cbn [negb orb List.filter e_clientId].
  - destruct (str_eqb (s_clientId s) clientId); [|exact IH].
    cbn [map fmap list_fmap e_id fst]. f_equal. exact IH.
  - cbn [map fmap list_fmap e_id fst]. f_equal. exact IH.
Qed.

Lemma live_entries st :
  live st ->
  Forall (fun e => is_Some (objects st !! e.2)) (map_to_list (terminalSessions st)).
Proof.
  intros Hlive. apply Forall_forall. intros [id addr] Hin%elem_of_map_to_list.
  by apply (Hlive id addr).
Qed.

Lemma listed_entry clientId st e :
  In e (listSessions clientId st) ->
  exists addr s,
    terminalSessions st !! e_id e = Some addr /\ objects st !! addr = Some s /\
    e = {| e_id := e_id e; e_cwd := s_cwd s; e_created := s_created s;
           e_lastActivity := s_lastActivity s; e_cols := s_cols s;
           e_rows := s_rows s; e_clientId := s_clientId s |}.
Proof.
  unfold listSessions. intros Hin.
  assert (Hin' : In e (omap (describe st) (map_to_list (terminalSessions st)))).
  { destruct (truthy (default [] clientId)); [|done].
    by apply filter_In in Hin as [Hin _]. }
  apply list_elem_of_In, list_elem_of_omap in Hin' as ([id addr] & Hreg & Hd).
  apply elem_of_map_to_list in Hreg. unfold describe in Hd. cbn [fst snd] in Hd.
  destruct (objects st !! addr) as [s|] eqn:Hs; [|done].
  cbn in Hd. injection Hd as <-. by exists addr, s.
Qed.

(** X27.  On a registry of live sessions, [GET /api/sessions] lists each
    session once and describes it by the fields of its object; with a
    [clientId] it lists the sessions of that client only.  The sessions
    it lists are those that [DELETE /api/sessions] with the same query
    terminates, and their number is the number that request reports as
    deleted. *)
Theorem listed_sessions_are_the_deletable_ones clientIdQuery st :
  live st ->
  let clientId := default [] clientIdQuery in
  let listed := listSessions clientIdQuery st in
  let out := deleteSessions clientIdQuery st in
  NoDup (map e_id listed) /\
  (forall e, In e listed ->
     (clientId = [] \/ e_clientId e = clientId) /\
     exists addr s,
       terminalSessions st !! e_id e = Some addr /\ objects st !! addr = Some s /\
       e = {| e_id := e_id e; e_cwd := s_cwd s; e_created := s_created s;
              e_lastActivity := s_lastActivity s; e_cols := s_cols s;
              e_rows := s_rows s; e_clientId := s_clientId s |}) /\
  (forall id, In id (map e_id listed) <->
     is_Some (terminalSessions st !! id) /\ terminalSessions out.2.1 !! id = None) /\
  field $"deleted" out.1 = Some (jnat (length listed)).
Proof.
  intros Hlive clientId listed out.
  assert (Hids : map e_id listed
                 = (List.filter (selected clientId st)
                      (map_to_list (terminalSessions st))).*1).
  { apply listed_ids, live_entries, Hlive. }
  split; [|split; [|split]].
  - rewrite Hids. apply NoDup_filter_fst, NoDup_fst_map_to_list.
  - intros e Hin. split; [|by eapply listed_entry].
    subst listed. unfold listSessions in Hin. fold clientId in Hin.
    destruct clientId as [|c rest] eqn:Hc; [by left|]. right.
    cbn [truthy] in Hin. apply filter_In in Hin as [_ Heq].
    by apply str_eqb_eq in Heq.
  - intros id. rewrite Hids, <- list_elem_of_In.
    subst out. unfold deleteSessions. fold clientId. cbn [snd fst].
    pose proof (foldl_terminateById
                  (List.filter (selected clientId st)
                     (map_to_list (terminalSessions st))).*1 st [] Hlive) as Hfold.
    destruct Hfold as (_ & Htab & _).
    { apply NoDup_filter_fst, NoDup_fst_map_to_list. }
    { intros i (addr & Hreg & _)%selected_ids. by exists addr. }
    rewrite Htab, lookup_foldl_delete. split.
    + intros Hin. rewrite bool_decide_true by done. split; [|done].
      apply selected_ids in Hin as (addr & Hreg & _). by exists addr.
    + intros [[addr Hreg] Hgone].
      destruct (bool_decide_reflect
                  (id ∈ (List.filter (selected clientId st)
                           (map_to_list (terminalSessions st))).*1)); [done|].
      congruence.
  - subst out. unfold deleteSessions. fold clientId. cbn.
    rewrite <- Hids. by rewrite length_map.
Qed.

Lemma listed_sessions_are_the_deletable_ones_witness :
  live Examples.aliceState /\
  map e_id (listSessions (Some $"alice") Examples.aliceState) = [Examples.aliceId] /\
  listSessions (Some $"bob") Examples.aliceState = [] /\
  field $"deleted" (deleteSessions (Some $"alice") Examples.aliceState).1
    = Some (jnat 1).
Proof.
  assert (Hreg : terminalSessions Examples.aliceState = {[ Examples.aliceId := 0 ]})
    by (vm_compute; reflexivity).
  assert (Hobj : objects Examples.aliceState !! 0 = Some MoreExamples.aliceSession)
    by reflexivity.
  assert (Hlive : live Examples.aliceState).
  { intros id addr. rewrite Hreg. intros [_ <-]%lookup_singleton_Some.
    rewrite Hobj. by eexists. }
  destruct (listed_sessions_are_the_deletable_ones (Some $"alice")
              Examples.aliceState Hlive) as (_ & _ & _ & Hcount).
  split; [exact Hlive|]. split; [vm_compute; reflexivity|].
  split; [vm_compute; reflexivity|].
  etransitivity; [exact Hcount|]. vm_compute. reflexivity.
Defined.

End SessionListFacts.

(** ** Uploads in a JSON body *)

Module JsonUploadFacts.
Import Js JsFacts Path PathFacts Shape ShapeFacts Sandbox FileApi.
Import NameFacts DirectoryFacts UploadFacts JsonUpload.

Section WithConfig.
Variable cfg : Config.
Variable fromBase64 : str -> list byte.
Hypothesis absolute : isAbsolute (processCwd cfg) = true.

(** X28.  [POST /api/upload] answers 200 only after it has stored the
    decoded bytes, which are not empty and within the size limit, under
    the accepted name in the directory asked for, a directory of the
    store, with the time of the request; without [overwrite] the name
    was free.  The temp file is gone then.  Whatever the answer,
    nothing but the target and the temp file changes, and an answer
    other than 200 and 500 leaves the world as it was. *)
Theorem upload_stores_decoded_bytes body w :
  let out := upload cfg fromBase64 body w in
  let d := Sandbox.resolve cfg [ROOT cfg; default $"." (u_dir body)] in
  let target := child d (trim (default [] (u_name body))) in
  (status out.1 = 200 ->
   exists data,
     u_dataBase64 body = Some data /\
     let buf := fromBase64 (payload data) in
     buf <> [] /\ (N.of_nat (length buf) <= MAX_UPLOAD_BYTES cfg)%N /\
     fs w !! d = Some Fs.Dir /\ dirname target = d /\
     (u_overwrite body = false -> fs w !! target = None) /\
     fs out.2 !! target = Some (Fs.File buf (now w)) /\
     fs out.2 !! uploadTmp cfg target = None) /\
  (forall k, k <> target -> k <> uploadTmp cfg target ->
             fs out.2 !! k = fs w !! k) /\
  (status out.1 <> 200 -> status out.1 <> 500 -> out.2 = w).
Proof using absolute.
  cbv zeta. remember (upload cfg fromBase64 body w) as out eqn:Hout.
  revert Hout. unfold upload.
  destruct (ok (resolvePathFromQuery cfg (u_dir body))) eqn:Hok; cbn [negb];
    [|by intros ->].
  rewrite (resolvePathFromQuery_ok _ _ Hok). cbn [from_option id].
  set (d := Sandbox.resolve cfg [ROOT cfg; default $"." (u_dir body)]).
  destruct (n_ok (validateFileName (u_name body))) eqn:Hname; cbn [negb];
    [|by intros ->].
  pose proof (validateFileName_name _ Hname) as Hn.
  pose proof (proj1 (validateFileName_spec _) Hname) as (Hproper & _).
  destruct (member_of_resolved cfg absolute
              [ROOT cfg; default $"." (u_dir body)] _ Hproper)
    as (Hjoin & Hdirname).
  fold d in Hjoin, Hdirname. rewrite Hn. cbn [from_option id].
  set (n := trim (default [] (u_name body))) in *.
  rewrite Hjoin in *. set (target := child d n) in *.
  destruct (u_dataBase64 body) as [data|]; [|by intros ->].
  destruct (truthy data); cbn [negb]; [|by intros ->].
  set (buf := fromBase64 (payload data)).
  destruct (Nat.eqb_spec (length buf) 0) as [|Hlen]; [by intros ->|].
  destruct (N.ltb_spec (MAX_UPLOAD_BYTES cfg) (N.of_nat (length buf)))
    as [|Hsize]; [by intros ->|].
  unfold_monad. cbn [fs now spawned].
  unfold Fs.statSync at 1.
  destruct (fs w !! d) as [[c m|]|] eqn:Hd; cbn [Fs.isDirectory negb fst snd];
    [by intros ->| |by intros ->].
  destruct (withinRoot cfg target); cbn [negb]; [|by intros ->].
  unfold Fs.existsSync.
  set (tmp := uploadTmp cfg target).
  assert (Hne : tmp <> target) by apply uploadTmp_ne.
  assert (Hfree : (match fs w !! target with Some _ => true | None => false end
                   && negb (u_overwrite body)) = false ->
                  u_overwrite body = false -> fs w !! target = None).
  { intros H Hov. rewrite Hov, andb_true_r in H.
    by destruct (fs w !! target). }
  destruct (match fs w !! target with Some _ => true | None => false end
            && negb (u_overwrite body)) eqn:Hexists; [by intros ->|].
  specialize (Hfree eq_refl).
  unfold Fs.writeFileSync.
  destruct (fs w !! tmp) as [[c m|]|] eqn:Htmp; cbn [fs fst snd];
    [|by intros ->|].
  all: unfold Fs.renameSync; rewrite lookup_insert_eq;
    rewrite lookup_insert_ne by done.
  all: destruct (fs w !! target) as [[c' m'|]|] eqn:Htarget; cbn [fs fst snd].
  all: unfold Fs.statSync; rewrite ?lookup_insert_eq; cbn [fs fst snd status].
  all: intros ->; cbn [fs fst snd status sendJson uploadFailed sendError].
  all: split; [|split];
    [| intros k Hk1 Hk2;
       rewrite ?lookup_insert_ne, ?lookup_delete_ne, ?lookup_insert_ne by done;
       done
     | intros H1 H2; by (exfalso; (apply H1 || apply H2))].
  all: try (intros H; discriminate H).
  all: intros _; exists data; split; [done|].
  all: split; [intros E; apply Hlen; subst buf; by rewrite E|].
  all: split; [done|]. all: split; [done|]. all: split; [done|].
  all: split; [exact Hfree|].
  all: split; [apply lookup_insert_eq|].
  all: rewrite lookup_insert_ne by done; apply lookup_delete_eq.
Qed.

End WithConfig.

Lemma upload_stores_decoded_bytes_witness :
  let out := upload Examples.exampleConfig MoreExamples.decodeHi MoreExamples.uploadHi
               Examples.homeWorld in
  status out.1 = 200 /\
  fs out.2 !! $"/home/user/hi.txt" = Some (Fs.File [x68; x69] 1) /\
  fs out.2 !! $"/home/user" = Some Fs.Dir.
Proof.
  intros out.
  assert (Hok : status out.1 = 200) by (vm_compute; reflexivity).
  destruct (upload_stores_decoded_bytes Examples.exampleConfig MoreExamples.decodeHi
              eq_refl MoreExamples.uploadHi Examples.homeWorld)
    as (Hstored & Hrest & _).
  destruct (Hstored Hok) as (data & Hdata & _ & _ & _ & _ & _ & Hfile & _).
  injection Hdata as <-.
  split; [exact Hok|]. split.
  - etransitivity; [exact Hfile|]. vm_compute. reflexivity.
  - etransitivity; [apply Hrest; vm_compute; discriminate|]. vm_compute. reflexivity.
Defined.

End JsonUploadFacts.
